(** * The backtesting core of main.py, embedded in Rocq

    The indicator library ([ema], [sma], [rsi], [atr]) and the backtest
    engine ([run_backtest]) of [src/main.py] are translated function by
    function.

    Modelling conventions.
    - Python floats are embedded twice.  The definitions at top level
      compute over the exact rationals ([Q]): they give the control
      flow, the subscripts, the exception sites and the expression by
      which every stored number is computed.  The rationals do not
      round, overflow or produce a NaN, so the theorems about the code
      are kept to what does not depend on that: which branch runs, what
      is read and stored, which expression a stored number is the value
      of, and the comparisons the code itself makes.  Bounds and signs
      are stated only where rounding to nearest keeps them; where a NaN
      can arise they are stated as comparisons that are false
      ([~ x < 0]), which a NaN satisfies too.  Module [B64] holds the same functions over binary64 floats;
      it evaluates the code where the rounding matters: the laws of
      exact arithmetic that fail in the code are refuted there, and the
      bounds and signs are evaluated there on grids of extreme values.
    - Python integers (list indices, spans, periods, time stamps) are [Z].
    - A Python exception is a [Raise] result.  The exceptions the
      modelled code can raise are [ZeroDivisionError] (a division by
      zero), [IndexError] (list subscript out of range) and
      [OverflowError] (the conversion of an int too large for a float,
      in the [2.0/(span+1)] of [ema]).
    - The module-level constants EMA_FAST, EMA_SLOW, RSI_PERIOD and
      VOLUME_MULTIPLIER are read from the environment when the module is
      loaded; they are the fields of a [config] record. *)

From Stdlib Require Import Floats.
From Stdlib Require Import ZArith QArith Qabs List Bool Lia Lqa.
From Stdlib Require String.
Import ListNotations.

Set Warnings "-inexact-float".

(* ================================================================= *)
(** ** Python values and control flow *)

Module Py.

Inductive exn : Type := ZeroDivisionError | IndexError | OverflowError.

Inductive res (A : Type) : Type :=
| Ok (a : A)
| Raise (e : exn).
Arguments Ok {A} a.
Arguments Raise {A} e.

Definition bind {A B : Type} (c : res A) (k : A -> res B) : res B :=
  match c with
  | Ok a => k a
  | Raise e => Raise e
  end.

(** [for x in l: s = body(s, x)], where an exception leaves the loop. *)
Fixpoint for_each {A S : Type} (body : S -> A -> res S) (l : list A) (s : S)
  : res S :=
  match l with
  | [] => Ok s
  | x :: l' => bind (body s x) (for_each body l')
  end.

(** [len(l)] *)
Definition len {A : Type} (l : list A) : Z := Z.of_nat (length l).

(** [l[k]], with Python's negative subscripts. *)
Definition index {A : Type} (l : list A) (k : Z) : res A :=
  let k' := (if k <? 0 then len l + k else k)%Z in
  if (k' <? 0)%Z then Raise IndexError
  else match nth_error l (Z.to_nat k') with
       | Some x => Ok x
       | None => Raise IndexError
       end.

(** The position a slice bound [k] denotes in a list of [n] elements. *)
Definition bound (n : nat) (k : Z) : nat :=
  Z.to_nat (if k <? 0 then Z.max 0 (Z.of_nat n + k) else k)%Z.

(** [l[:k]], [l[k:]] and [l[a:b]]; slices never raise. *)
Definition slice_to {A : Type} (l : list A) (k : Z) : list A :=
  firstn (bound (length l) k) l.

Definition slice_from {A : Type} (l : list A) (k : Z) : list A :=
  skipn (bound (length l) k) l.

Definition slice {A : Type} (l : list A) (a b : Z) : list A :=
  let lo := bound (length l) a in
  let hi := bound (length l) b in
  firstn (hi - lo) (skipn lo l).

(** [range(a, b)] *)
Definition range (a b : Z) : list Z :=
  map (fun k => (a + Z.of_nat k)%Z) (seq 0 (Z.to_nat (b - a))).

(** [[x] * k] *)
Definition replicate {A : Type} (x : A) (k : Z) : list A :=
  repeat x (Z.to_nat k).

(** [a / b] on numbers. *)
Definition div (a b : Q) : res Q :=
  if Qeq_bool b 0 then Raise ZeroDivisionError else Ok (a / b).

(** The conversion of an int operand of a float operation.  An int of
    magnitude [2^1024 - 2^970] or more rounds beyond the largest
    binary64 float, and Python raises OverflowError. *)
Definition float_max_int : Z := (2 ^ 1024 - 2 ^ 970)%Z.

Definition fits_float (z : Z) : Prop := (Z.abs z < float_max_int)%Z.

Definition float_of_int (z : Z) : res Q :=
  if (float_max_int <=? Z.abs z)%Z then Raise OverflowError
  else Ok (inject_Z z).

(** [sum(l)]: the sum of the elements, starting from [0]. *)
Definition sum (l : list Q) : Q := fold_left Qplus l 0.

(** [a < b] and [a <= b] on numbers, as booleans. *)
Definition ltb (a b : Q) : bool := negb (Qle_bool b a).
Definition leb (a b : Q) : bool := Qle_bool a b.

(** [max(a, b)] returns its first argument unless the second is
    strictly larger. *)
Definition max (a b : Q) : Q := if ltb a b then b else a.

(** [x or d]: [d] when [x] is zero. *)
Definition or_else (x d : Q) : Q := if Qeq_bool x 0 then d else x.

End Py.

Import Py.

Declare Scope py_scope.
Delimit Scope py_scope with py.
Notation "x <- c ;; k" := (bind c (fun x => k))
  (at level 61, c at next level, right associativity) : py_scope.
Notation "' p <- c ;; k" := (bind c (fun x => let 'p := x in k))
  (at level 61, p pattern, c at next level, right associativity) : py_scope.
Open Scope py_scope.
Open Scope Q_scope.

(* ================================================================= *)
(** ** Indicators *)

(** [ema]: returns [[]] on an empty input before computing [alpha];
    otherwise seeds [out] with [values[0]] and appends one element per
    remaining value, computed from [out[-1]]. *)
Definition ema_body (alpha : Q) (out : list Q) (v : Q) : res (list Q) :=
  prev <- index out (-1) ;;
  Ok (out ++ [(v - prev) * alpha + prev]).

Definition ema (values : list Q) (span : Z) : res (list Q) :=
  match values with
  | [] => Ok []
  | v0 :: rest =>
      d <- float_of_int (span + 1) ;;
      alpha <- div 2.0 d ;;
      for_each (ema_body alpha) rest [v0]
  end.

(** [sma]: the loop state is the index of [enumerate], the running sum
    [s] and the output list.  The period is converted to a float for
    the division only at an index [i >= period - 1], where it is
    bounded by the length of the input. *)
Definition sma_body (values : list Q) (period : Z)
  (st : Z * Q * list Q) (v : Q) : res (Z * Q * list Q) :=
  let '(i, s, out) := st in
  let s := s + v in
  if (period <=? i)%Z then
    x <- index values (i - period) ;;
    let s := s - x in
    q <- div s (inject_Z period) ;;
    Ok ((i + 1)%Z, s, out ++ [q])
  else if (i =? period - 1)%Z then
    q <- div s (inject_Z period) ;;
    Ok ((i + 1)%Z, s, out ++ [q])
  else Ok ((i + 1)%Z, s, out).

Definition sma (values : list Q) (period : Z) : res (list Q) :=
  '(_, _, out) <- for_each (sma_body values period) values (0%Z, 0, []) ;;
  Ok out.

(** [[values[i]-values[i-1] for i in range(1,len(values))]] *)
Fixpoint deltas (values : list Q) : list Q :=
  match values with
  | a :: (b :: _) as rest => (b - a) :: deltas rest
  | _ => []
  end.

Definition rsi_body (period : Z) (st : Q * Q * list Q) (d : Q * Q)
  : res (Q * Q * list Q) :=
  let '(up_avg, down_avg, out) := st in
  let '(d_up, d_down) := d in
  up_avg <- div (up_avg * inject_Z (period - 1) + d_up) (inject_Z period) ;;
  down_avg <- div (down_avg * inject_Z (period - 1) + d_down) (inject_Z period) ;;
  rs <- div up_avg (down_avg + 1e-12) ;;
  x <- div 100 (1 + rs) ;;
  Ok (up_avg, down_avg, out ++ [100 - x]).

Definition rsi (values : list Q) (period : Z) : res (list Q) :=
  if (len values <? period + 1)%Z then Ok (replicate 50 (len values))
  else
    let ds := deltas values in
    let ups := map (fun d => if ltb 0 d then d else 0) ds in
    let downs := map (fun d => if ltb d 0 then - d else 0) ds in
    up_avg <- div (sum (slice_to ups period)) (inject_Z period) ;;
    down0 <- div (sum (slice_to downs period)) (inject_Z period) ;;
    let down_avg := or_else down0 1e-9 in
    let out := replicate 50 (period + 1) in
    '(_, _, out) <- for_each (rsi_body period)
                      (combine (slice_from ups period) (slice_from downs period))
                      (up_avg, down_avg, out) ;;
    Ok out.

(** [atr]: the true range of every bar from index 1 on, then [sma]. *)
Definition atr_body (highs lows closes : list Q) (trs : list Q) (i : Z)
  : res (list Q) :=
  h <- index highs i ;;
  l <- index lows i ;;
  c <- index closes (i - 1) ;;
  let tr := max (max (h - l) (Qabs (h - c))) (Qabs (l - c)) in
  Ok (trs ++ [tr]).

Definition atr (highs lows closes : list Q) (period : Z) : res (list Q) :=
  trs <- for_each (atr_body highs lows closes) (range 1 (len closes)) [] ;;
  sma trs period.

(* ================================================================= *)
(** ** Backtest engine *)

(** A candle, as produced by [fetch_klines] and [parse_csv_file]. *)
Record Candle : Type := {
  time : Z;
  open : Q;
  high : Q;
  low : Q;
  close : Q;
  volume : Q
}.

(** The open position: the dict bound to [position]. *)
Record Position : Type := {
  entry : Q;
  qty : Q;
  stop : Q;
  entry_time : Z
}.

(** The exit reasons ["SL"] (stop loss) and ["X"] (crossover exit). *)
Inductive Reason : Type := SL | X.

(** A closed trade: the dict appended to [trades_bt]. *)
Record Trade : Type := {
  t_time : Z;
  t_symbol : String.string;
  t_entry : Q;
  t_exit : Q;
  profit : Q;
  balance_after : Q;
  reason : Reason
}.

(** The module constants that [run_backtest] reads. *)
Record config : Type := {
  EMA_FAST : Z;
  EMA_SLOW : Z;
  RSI_PERIOD : Z;
  VOLUME_MULTIPLIER : Q
}.

(** The loop-carried variables of [run_backtest]. *)
Record state : Type := {
  equity : Q;
  position : option Position;
  trades_bt : list Trade
}.

(** The dict [run_backtest] returns. *)
Record Result : Type := {
  initial_balance : Q;
  final_balance : Q;
  trades : list Trade;
  equity_curve : option (list Q)
}.

Section Loop.

Variable cfg : config.
Variables risk_per_trade stop_loss_pct : Q.
Variables closes lows volumes : list Q.
Variable times : list Z.
Variables ema_fast ema_slow rsi_list : list Q.

(** The guard of line 155: the bar is skipped ([continue]). *)
Definition skipped (i : Z) : bool :=
  (len ema_fast <=? i)%Z || (len ema_slow <=? i)%Z
  || (len rsi_list <=? i - 1)%Z.

(** [vol_ok] of lines 161-164. *)
Definition vol_ok (i : Z) : res bool :=
  if (21 <? i)%Z then
    let avg_vol := sum (slice volumes (i - 21) (i - 1)) / 20.0 in
    v <- index volumes (i - 1) ;;
    Ok (ltb (avg_vol * VOLUME_MULTIPLIER cfg) v)
  else Ok true.

(** Lines 168-176: the sizing and the new position. *)
Definition open_position (st : state) (price : Q) (i : Z) : res state :=
  let risk_amount := equity st * risk_per_trade in
  let stop_price := price * (1 - stop_loss_pct) in
  qty <- (if leb stop_loss_pct 0 then div (equity st) price
          else div risk_amount (price * stop_loss_pct)) ;;
  let qty := max 1e-8 qty in
  let entry := price in
  t <- index times i ;;
  Ok {| equity := equity st;
        position := Some {| entry := entry; qty := qty;
                            stop := stop_price; entry_time := t |};
        trades_bt := trades_bt st |}.

(** Lines 179-184 and 186-191: liquidation at [exit_price]. *)
Definition close_position (st : state) (p : Position) (exit_price : Q)
  (why : Reason) (i : Z) : res state :=
  let proceeds := qty p * exit_price in
  let profit := proceeds - qty p * entry p in
  let equity := proceeds in
  t <- index times i ;;
  Ok {| equity := equity;
        position := None;
        trades_bt := trades_bt st ++
          [ {| t_time := t; t_symbol := String.EmptyString;
               t_entry := entry p; t_exit := exit_price;
               profit := profit; balance_after := equity;
               reason := why |} ] |}.

(** One iteration of the scan loop (lines 154-191). *)
Definition loop_body (st : state) (i : Z) : res state :=
  price <- index closes i ;;
  if skipped i then Ok st
  else
    f_now <- index ema_fast (i - 1) ;;
    f_prev <- index ema_fast (i - 2) ;;
    s_now <- index ema_slow (i - 1) ;;
    s_prev <- index ema_slow (i - 2) ;;
    let cross_up := leb f_prev s_prev && ltb s_now f_now in
    let cross_down := leb s_prev f_prev && ltb f_now s_now in
    vol_ok <- vol_ok i ;;
    r <- index rsi_list (i - 1) ;;
    let rsi_ok := ltb 25 r && ltb r 75 in
    match position st with
    | None =>
        if cross_up && vol_ok && rsi_ok then open_position st price i
        else Ok st
    | Some p =>
        l <- index lows i ;;
        if leb l (stop p) then close_position st p (stop p) SL i
        else if cross_down then close_position st p price X i
        else Ok st
    end.

End Loop.

Definition run_backtest (cfg : config) (candles : list Candle)
  (initial_balance risk_per_trade stop_loss_pct : Q) : res Result :=
  let closes := map close candles in
  let highs := map high candles in
  let lows := map low candles in
  let volumes := map volume candles in
  let times := map time candles in
  ema_fast <- ema closes (EMA_FAST cfg) ;;
  ema_slow <- ema closes (EMA_SLOW cfg) ;;
  rsi_list <- rsi closes (RSI_PERIOD cfg) ;;
  atr_list <- (if (20 <? len closes)%Z then atr highs lows closes 14
               else Ok (replicate 0 (len closes))) ;;
  st <- for_each
          (loop_body cfg risk_per_trade stop_loss_pct closes lows volumes times
             ema_fast ema_slow rsi_list)
          (range 2 (len closes - 1))
          {| equity := initial_balance; position := None; trades_bt := [] |} ;;
  Ok {| initial_balance := initial_balance;
        final_balance := equity st;
        trades := trades_bt st;
        equity_curve := None |}.

(** The configuration the module has when the environment sets nothing. *)
Definition default_config : config :=
  {| EMA_FAST := 8; EMA_SLOW := 21; RSI_PERIOD := 14;
     VOLUME_MULTIPLIER := 1.0 |}.


(* ================================================================= *)
(** ** Reference definitions and loop invariants *)

(** The recurrence of the exponential average, unrolled from a previous
    output [prev] over the remaining inputs. *)
Fixpoint ema_from (alpha prev : Q) (vs : list Q) : list Q :=
  match vs with
  | [] => []
  | v :: vs' =>
      let o := (v - prev) * alpha + prev in
      o :: ema_from alpha o vs'
  end.

(** The mean of a window, recomputed from scratch: [window values p i]
    is [values[i-p+1 .. i]], and [mean] sums a list and divides by its
    length. *)
Definition total (l : list Q) : Q := fold_right Qplus 0 l.

Definition mean (l : list Q) : Q := total l / inject_Z (Z.of_nat (length l)).

Definition window (values : list Q) (p i : nat) : list Q :=
  map (fun k => nth k values 0) (seq (i + 1 - p) p).

(** The running sum [s] of [sma] after its first [n] iterations: every
    value read has been added, and from index [period] on the value
    that left the window has been subtracted, in the order of the
    loop. *)
Fixpoint running_sum (values : list Q) (period : Z) (n : nat) : Q :=
  match n with
  | O => 0
  | S i =>
      let s := running_sum values period i + nth i values 0 in
      if (period <=? Z.of_nat i)%Z
      then s - nth (i - Z.to_nat period) values 0
      else s
  end.

(** What [sma] has appended after its first [n] iterations: one
    quotient for each index from [period - 1] on. *)
Definition sma_outputs (values : list Q) (period : Z) (n : nat) : list Q :=
  map (fun i => running_sum values period (S i) / inject_Z period)
      (seq (Z.to_nat period - 1) (n - (Z.to_nat period - 1))).

(** The true range of bar [i]: the largest of [high - low],
    [|high - previous close|] and [|low - previous close|]. *)
Definition true_range (highs lows closes : list Q) (i : Z) : Q :=
  let h := nth (Z.to_nat i) highs 0 in
  let l := nth (Z.to_nat i) lows 0 in
  let c := nth (Z.to_nat (i - 1)) closes 0 in
  max (max (h - l) (Qabs (h - c))) (Qabs (l - c)).

(** The invariant of the smoothing loop of [rsi]: both averages are
    non-negative and everything appended so far lies in [[0, 100]]. *)
Definition in_0_100 (x : Q) : Prop := 0 <= x /\ x <= 100.

Definition rsi_inv (st : Q * Q * list Q) : Prop :=
  let '(up_avg, down_avg, out) := st in
  0 <= up_avg /\ 0 <= down_avg /\ Forall in_0_100 out.

(* ================================================================= *)
(** ** The engine as a transition system *)

(** The indicator lists [run_backtest] computes before its loop
    ([atr_list] is computed and never read). *)
Definition indicators (cfg : config) (candles : list Candle)
  : res (list Q * list Q * list Q) :=
  let closes := map close candles in
  let highs := map high candles in
  let lows := map low candles in
  ema_fast <- ema closes (EMA_FAST cfg) ;;
  ema_slow <- ema closes (EMA_SLOW cfg) ;;
  rsi_list <- rsi closes (RSI_PERIOD cfg) ;;
  atr_list <- (if (20 <? len closes)%Z then atr highs lows closes 14
               else Ok (replicate 0 (len closes))) ;;
  Ok (ema_fast, ema_slow, rsi_list).

(** The loop body of a run, its index range and its first state. *)
Definition body_of (cfg : config) (candles : list Candle)
  (risk_per_trade stop_loss_pct : Q) (ind : list Q * list Q * list Q)
  : state -> Z -> res state :=
  let '(ema_fast, ema_slow, rsi_list) := ind in
  loop_body cfg risk_per_trade stop_loss_pct
    (map close candles) (map low candles) (map volume candles)
    (map time candles) ema_fast ema_slow rsi_list.

Definition scan_range (candles : list Candle) : list Z :=
  range 2 (len (map close candles) - 1).

Definition initial_state (initial_balance : Q) : state :=
  {| equity := initial_balance; position := None; trades_bt := [] |}.

(** [run_backtest] stopped after the first [k] iterations of its loop;
    the iterations are indexed by [scan_range]. *)
Definition run_prefix (cfg : config) (candles : list Candle)
  (initial_balance risk_per_trade stop_loss_pct : Q) (k : nat) : res state :=
  ind <- indicators cfg candles ;;
  for_each (body_of cfg candles risk_per_trade stop_loss_pct ind)
    (firstn k (scan_range candles)) (initial_state initial_balance).

(** The state a liquidation at [exit_price] leads to. *)
Definition closed (st : state) (p : Position) (exit_price : Q) (why : Reason)
  (t : Z) : state :=
  {| equity := qty p * exit_price;
     position := None;
     trades_bt := trades_bt st ++
       [ {| t_time := t; t_symbol := String.EmptyString;
            t_entry := entry p; t_exit := exit_price;
            profit := qty p * exit_price - qty p * entry p;
            balance_after := qty p * exit_price;
            reason := why |} ] |}.

(** [crossDown] at processing index [i]: the fast average was at or
    above the slow one two bars back and is below it one bar back. *)
Definition crossed_down (ema_fast ema_slow : list Q) (i : Z) : Prop :=
  exists f_now f_prev s_now s_prev : Q,
    index ema_fast (i - 1) = Ok f_now /\
    index ema_fast (i - 2) = Ok f_prev /\
    index ema_slow (i - 1) = Ok s_now /\
    index ema_slow (i - 2) = Ok s_prev /\
    s_prev <= f_prev /\ f_now < s_now.

(** The quantity the sizer computes at equity [E] and price [price],
    before the floor of [1e-8]. *)
Definition sized_qty (risk_per_trade stop_loss_pct E price : Q) : res Q :=
  if leb stop_loss_pct 0 then div E price
  else div (E * risk_per_trade) (price * stop_loss_pct).

Section Transition.

Variables risk_per_trade stop_loss_pct : Q.
Variables closes lows : list Q.
Variable times : list Z.
Variables ema_fast ema_slow rsi_list : list Q.

(** What one iteration can do to the loop state. *)
Inductive transition : state -> Z -> state -> Prop :=
| T_idle (st : state) (i : Z) :
    transition st i st
| T_entry (st : state) (i : Z) (price q : Q) (t : Z) :
    position st = None ->
    skipped ema_fast ema_slow rsi_list i = false ->
    index closes i = Ok price ->
    sized_qty risk_per_trade stop_loss_pct (equity st) price = Ok q ->
    index times i = Ok t ->
    transition st i
      {| equity := equity st;
         position := Some {| entry := price; qty := max 1e-8 q;
                             stop := price * (1 - stop_loss_pct);
                             entry_time := t |};
         trades_bt := trades_bt st |}
| T_stop (st : state) (i : Z) (p : Position) (l : Q) (t : Z) :
    position st = Some p ->
    skipped ema_fast ema_slow rsi_list i = false ->
    index lows i = Ok l ->
    l <= stop p ->
    index times i = Ok t ->
    transition st i (closed st p (stop p) SL t)
| T_signal (st : state) (i : Z) (p : Position) (l price : Q) (t : Z) :
    position st = Some p ->
    skipped ema_fast ema_slow rsi_list i = false ->
    index lows i = Ok l ->
    stop p < l ->
    crossed_down ema_fast ema_slow i ->
    index closes i = Ok price ->
    index times i = Ok t ->
    transition st i (closed st p price X t).

End Transition.

(** The position [p] was sized at equity [E]. *)
Definition sized (risk_per_trade stop_loss_pct E : Q) (p : Position) : Prop :=
  stop p = entry p * (1 - stop_loss_pct) /\
  exists q : Q,
    sized_qty risk_per_trade stop_loss_pct E (entry p) = Ok q /\
    qty p = max 1e-8 q.

(* ================================================================= *)
(** ** A concrete run *)

(** Six well-formed candles: the close rises from 10 to 20 and falls
    back, and the low of the fourth bar falls through the stop. *)
Definition bar (t : Z) (c l : Q) : Candle :=
  {| time := t; open := c; high := c; low := l; close := c; volume := 1 |}.

Definition example_candles : list Candle :=
  [bar 0 10 10; bar 1 20 20; bar 2 10 10; bar 3 10 5; bar 4 10 10; bar 5 10 10].

(** Ten candles on which the averages cross up, then down, while the
    lows stay above the stop. *)
Definition drifting_candles : list Candle :=
  [bar 0 10 10; bar 1 20 20; bar 2 10 10; bar 3 10 10; bar 4 10 10;
   bar 5 10 10; bar 6 10 10; bar 7 10 10; bar 8 10 10; bar 9 10 10].

Definition example_config : config :=
  {| EMA_FAST := 8; EMA_SLOW := 21; RSI_PERIOD := 2; VOLUME_MULTIPLIER := 1.0 |}.

(** In the run [prefix], the position [p] was opened by iteration [j]
    from the flat state at equity [E] and has been held, at unchanged
    equity, up to iteration [k]. *)
Definition opened_at (prefix : nat -> res state) (j k : nat) (E : Q)
  (p : Position) : Prop :=
  (exists stj : state,
      prefix j = Ok stj /\ position stj = None /\ equity stj = E) /\
  forall (m : nat) (stm : state),
    (j < m <= k)%nat -> prefix m = Ok stm ->
    position stm = Some p /\ equity stm = E.

(** The same candles under a configuration whose RSI period is
    negative: [rsi] then returns two values only. *)
Definition negative_rsi_config : config :=
  {| EMA_FAST := 8; EMA_SLOW := 21; RSI_PERIOD := -2; VOLUME_MULTIPLIER := 1.0 |}.

(** A configuration whose fast span makes [alpha = 2.0/(span+1)]
    undefined. *)
Definition zero_alpha_config : config :=
  {| EMA_FAST := -1; EMA_SLOW := 21; RSI_PERIOD := 14; VOLUME_MULTIPLIER := 1.0 |}.

(** Twenty-five equal candles, enough for the volume window. *)
Definition flat_candles : list Candle :=
  map (fun k => bar (Z.of_nat k) 10 10) (seq 0 25).

(* ================================================================= *)
(** ** Predicates for the further properties *)

(** No value is above the one before it. *)
Definition never_rises (values : list Q) : Prop :=
  forall (i : nat) (a b : Q),
    nth_error values i = Some a -> nth_error values (S i) = Some b -> b <= a.

(** What every recorded trade satisfies: it was entered at the close of
    one candle with some quantity [q] of at least [1e-8], it carries the
    time of the candle it was closed on, profit and balance are computed
    from [q], and the exit price is the stop for an SL trade and the
    close of the exit candle for an X trade. *)
Definition well_formed_trade (candles : list Candle) (stop_loss_pct : Q)
  (t : Trade) : Prop :=
  exists (q : Q) (c_in c_out : Candle),
    1e-8 <= q /\
    In c_in candles /\ In c_out candles /\
    t_entry t = close c_in /\
    t_time t = time c_out /\
    profit t = q * t_exit t - q * t_entry t /\
    balance_after t = q * t_exit t /\
    match reason t with
    | SL => t_exit t = t_entry t * (1 - stop_loss_pct)
    | X => t_exit t = close c_out
    end.

(** A list of time stamps that never goes back. *)
Definition nondecreasing (l : list Z) : Prop :=
  forall (a b : nat) (x y : Z),
    (a <= b)%nat -> nth_error l a = Some x -> nth_error l b = Some y ->
    (x <= y)%Z.

(** The trade [t] carries the time of candle number [n]. *)
Definition stamped_by (candles : list Candle) (n : nat) (t : Trade) : Prop :=
  exists c : Candle, nth_error candles n = Some c /\ t_time t = time c.

(** 1 while a position is held, 0 in the flat state. *)
Definition holding (st : state) : nat :=
  match position st with Some _ => 1 | None => 0 end.

(** [crossUp] at processing index [i]: the fast average was at or
    below the slow one two bars back and is above it one bar back. *)
Definition crossed_up (ema_fast ema_slow : list Q) (i : Z) : Prop :=
  exists f_now f_prev s_now s_prev : Q,
    index ema_fast (i - 1) = Ok f_now /\
    index ema_fast (i - 2) = Ok f_prev /\
    index ema_slow (i - 1) = Ok s_now /\
    index ema_slow (i - 2) = Ok s_prev /\
    f_prev <= s_prev /\ s_now < f_now.

(** The divisor of the sizing at a price: the price itself when the
    stop distance is not positive, else [price * stop_loss_pct]. *)
Definition sizing_divisor (stop_loss_pct price : Q) : Q :=
  if leb stop_loss_pct 0 then price else price * stop_loss_pct.

(** Ten candles on which the averages cross up twice and each
    position is stopped out on the bar after its entry. *)
Definition two_trade_candles : list Candle :=
  [bar 0 10 10; bar 1 20 20; bar 2 10 10; bar 3 10 5; bar 4 1 1;
   bar 5 30 30; bar 6 30 30; bar 7 30 1; bar 8 30 30; bar 9 30 30].

(** A result that is not an IndexError. *)
Definition no_index_error {A : Type} (r : res A) : Prop :=
  r <> Raise IndexError.

(** A configuration whose two spans are the same. *)
Definition equal_span_config : config :=
  {| EMA_FAST := 8; EMA_SLOW := 8; RSI_PERIOD := 2; VOLUME_MULTIPLIER := 1.0 |}.

(* ================================================================= *)
(** ** The binary64 reading *)

(** The same functions over IEEE 754 binary64 numbers, the floats of
    CPython: every arithmetic operation rounds to nearest, overflows to
    an infinity and yields NaN where IEEE 754 says so; a comparison with
    NaN is false; a division raises ZeroDivisionError exactly when the
    divisor compares equal to zero.  These definitions evaluate the code
    on concrete inputs. *)
Module B64.

(** [a / b] on floats. *)
Definition div (a b : float) : res float :=
  if PrimFloat.eqb b 0%float then Raise ZeroDivisionError
  else Ok (PrimFloat.div a b).

(** The conversion of an int operand, rounded to nearest, ties to
    even. *)
Definition float_of_int (z : Z) : res float :=
  if (float_max_int <=? Z.abs z)%Z then Raise OverflowError
  else Ok (SF2Prim (binary_normalize prec emax z 0 false)).

(** [a / z] and [a * z] for an int [z]. *)
Definition div_int (a : float) (z : Z) : res float :=
  b <- float_of_int z ;; div a b.

Definition mul_int (a : float) (z : Z) : res float :=
  b <- float_of_int z ;; Ok (PrimFloat.mul a b).

(** [sum(l)], added up from left to right. *)
Definition sum (l : list float) : float := fold_left PrimFloat.add l 0%float.

(** [sum(l)] as CPython 3.12 and later compute it on floats, with
    Neumaier's compensation. *)
Definition sum_compensated (l : list float) : float :=
  let step (st : float * float) (x : float) :=
    let '(s, c) := st in
    let t := PrimFloat.add s x in
    let c := if PrimFloat.leb (PrimFloat.abs x) (PrimFloat.abs s)
             then PrimFloat.add c (PrimFloat.add (PrimFloat.sub s t) x)
             else PrimFloat.add c (PrimFloat.add (PrimFloat.sub x t) s) in
    (t, c) in
  let '(s, c) := fold_left step l (0%float, 0%float) in
  if PrimFloat.eqb c 0%float then s
  else if PrimFloat.ltb (PrimFloat.abs c) infinity then PrimFloat.add s c
  else s.

Definition max (a b : float) : float := if PrimFloat.ltb a b then b else a.

Definition or_else (x d : float) : float :=
  if PrimFloat.eqb x 0%float then d else x.

(** The rational a finite float stands for. *)
Definition to_Q (x : float) : Q :=
  match Prim2SF x with
  | S754_finite s m e =>
      let z := if s then Z.neg m else Z.pos m in
      if (0 <=? e)%Z then inject_Z (z * 2 ^ e)
      else z # Pos.pow 2 (Z.to_pos (- e))
  | _ => 0
  end.

Definition ema_body (alpha : float) (out : list float) (v : float)
  : res (list float) :=
  prev <- index out (-1) ;;
  Ok (out ++ [PrimFloat.add (PrimFloat.mul (PrimFloat.sub v prev) alpha) prev]).

Definition ema (values : list float) (span : Z) : res (list float) :=
  match values with
  | [] => Ok []
  | v0 :: rest =>
      alpha <- div_int 2.0%float (span + 1) ;;
      for_each (ema_body alpha) rest [v0]
  end.

Definition sma_body (values : list float) (period : Z)
  (st : Z * float * list float) (v : float) : res (Z * float * list float) :=
  let '(i, s, out) := st in
  let s := PrimFloat.add s v in
  if (period <=? i)%Z then
    x <- index values (i - period) ;;
    let s := PrimFloat.sub s x in
    q <- div_int s period ;;
    Ok ((i + 1)%Z, s, out ++ [q])
  else if (i =? period - 1)%Z then
    q <- div_int s period ;;
    Ok ((i + 1)%Z, s, out ++ [q])
  else Ok ((i + 1)%Z, s, out).

Definition sma (values : list float) (period : Z) : res (list float) :=
  '(_, _, out) <- for_each (sma_body values period) values
                    (0%Z, 0%float, []) ;;
  Ok out.

Fixpoint deltas (values : list float) : list float :=
  match values with
  | a :: (b :: _) as rest => PrimFloat.sub b a :: deltas rest
  | _ => []
  end.

Definition rsi_body (period : Z) (st : float * float * list float)
  (d : float * float) : res (float * float * list float) :=
  let '(up_avg, down_avg, out) := st in
  let '(d_up, d_down) := d in
  u <- mul_int up_avg (period - 1) ;;
  up_avg <- div_int (PrimFloat.add u d_up) period ;;
  w <- mul_int down_avg (period - 1) ;;
  down_avg <- div_int (PrimFloat.add w d_down) period ;;
  rs <- div up_avg (PrimFloat.add down_avg 1e-12%float) ;;
  x <- div 100%float (PrimFloat.add 1%float rs) ;;
  Ok (up_avg, down_avg, out ++ [PrimFloat.sub 100%float x]).

Definition rsi (values : list float) (period : Z) : res (list float) :=
  if (len values <? period + 1)%Z then Ok (replicate 50%float (len values))
  else
    let ds := deltas values in
    let ups := map (fun d => if PrimFloat.ltb 0%float d then d else 0%float) ds in
    let downs :=
      map (fun d => if PrimFloat.ltb d 0%float then PrimFloat.opp d else 0%float)
          ds in
    up_avg <- div_int (sum (slice_to ups period)) period ;;
    down0 <- div_int (sum (slice_to downs period)) period ;;
    let down_avg := or_else down0 1e-9%float in
    let out := replicate 50%float (period + 1) in
    '(_, _, out) <- for_each (rsi_body period)
                      (combine (slice_from ups period) (slice_from downs period))
                      (up_avg, down_avg, out) ;;
    Ok out.

Definition atr_body (highs lows closes : list float) (trs : list float) (i : Z)
  : res (list float) :=
  h <- index highs i ;;
  l <- index lows i ;;
  c <- index closes (i - 1) ;;
  let tr := max (max (PrimFloat.sub h l) (PrimFloat.abs (PrimFloat.sub h c)))
                (PrimFloat.abs (PrimFloat.sub l c)) in
  Ok (trs ++ [tr]).

Definition atr (highs lows closes : list float) (period : Z)
  : res (list float) :=
  trs <- for_each (atr_body highs lows closes) (range 1 (len closes)) [] ;;
  sma trs period.

Record Candle : Type := {
  time : Z;
  open : float;
  high : float;
  low : float;
  close : float;
  volume : float
}.

Record Position : Type := {
  entry : float;
  qty : float;
  stop : float;
  entry_time : Z
}.

Record Trade : Type := {
  t_time : Z;
  t_symbol : String.string;
  t_entry : float;
  t_exit : float;
  profit : float;
  balance_after : float;
  reason : Reason
}.

Record config : Type := {
  EMA_FAST : Z;
  EMA_SLOW : Z;
  RSI_PERIOD : Z;
  VOLUME_MULTIPLIER : float
}.

Record state : Type := {
  equity : float;
  position : option Position;
  trades_bt : list Trade
}.

Record Result : Type := {
  initial_balance : float;
  final_balance : float;
  trades : list Trade;
  equity_curve : option (list float)
}.

Section Loop.

Variable cfg : config.
Variables risk_per_trade stop_loss_pct : float.
Variables closes lows volumes : list float.
Variable times : list Z.
Variables ema_fast ema_slow rsi_list : list float.

Definition skipped (i : Z) : bool :=
  (len ema_fast <=? i)%Z || (len ema_slow <=? i)%Z
  || (len rsi_list <=? i - 1)%Z.

Definition vol_ok (i : Z) : res bool :=
  if (21 <? i)%Z then
    let avg_vol := PrimFloat.div (sum (slice volumes (i - 21) (i - 1))) 20.0%float in
    v <- index volumes (i - 1) ;;
    Ok (PrimFloat.ltb (PrimFloat.mul avg_vol (VOLUME_MULTIPLIER cfg)) v)
  else Ok true.

Definition open_position (st : state) (price : float) (i : Z) : res state :=
  let risk_amount := PrimFloat.mul (equity st) risk_per_trade in
  let stop_price := PrimFloat.mul price (PrimFloat.sub 1%float stop_loss_pct) in
  qty <- (if PrimFloat.leb stop_loss_pct 0%float then div (equity st) price
          else div risk_amount (PrimFloat.mul price stop_loss_pct)) ;;
  let qty := max 1e-8%float qty in
  let entry := price in
  t <- index times i ;;
  Ok {| equity := equity st;
        position := Some {| entry := entry; qty := qty;
                            stop := stop_price; entry_time := t |};
        trades_bt := trades_bt st |}.

Definition close_position (st : state) (p : Position) (exit_price : float)
  (why : Reason) (i : Z) : res state :=
  let proceeds := PrimFloat.mul (qty p) exit_price in
  let profit := PrimFloat.sub proceeds (PrimFloat.mul (qty p) (entry p)) in
  let equity := proceeds in
  t <- index times i ;;
  Ok {| equity := equity;
        position := None;
        trades_bt := trades_bt st ++
          [ {| t_time := t; t_symbol := String.EmptyString;
               t_entry := entry p; t_exit := exit_price;
               profit := profit; balance_after := equity;
               reason := why |} ] |}.

Definition loop_body (st : state) (i : Z) : res state :=
  price <- index closes i ;;
  if skipped i then Ok st
  else
    f_now <- index ema_fast (i - 1) ;;
    f_prev <- index ema_fast (i - 2) ;;
    s_now <- index ema_slow (i - 1) ;;
    s_prev <- index ema_slow (i - 2) ;;
    let cross_up := PrimFloat.leb f_prev s_prev && PrimFloat.ltb s_now f_now in
    let cross_down := PrimFloat.leb s_prev f_prev && PrimFloat.ltb f_now s_now in
    vol_ok <- vol_ok i ;;
    r <- index rsi_list (i - 1) ;;
    let rsi_ok := PrimFloat.ltb 25%float r && PrimFloat.ltb r 75%float in
    match position st with
    | None =>
        if cross_up && vol_ok && rsi_ok then open_position st price i
        else Ok st
    | Some p =>
        l <- index lows i ;;
        if PrimFloat.leb l (stop p) then close_position st p (stop p) SL i
        else if cross_down then close_position st p price X i
        else Ok st
    end.

End Loop.

Definition run_backtest (cfg : config) (candles : list Candle)
  (initial_balance risk_per_trade stop_loss_pct : float) : res Result :=
  let closes := map close candles in
  let highs := map high candles in
  let lows := map low candles in
  let volumes := map volume candles in
  let times := map time candles in
  ema_fast <- ema closes (EMA_FAST cfg) ;;
  ema_slow <- ema closes (EMA_SLOW cfg) ;;
  rsi_list <- rsi closes (RSI_PERIOD cfg) ;;
  atr_list <- (if (20 <? len closes)%Z then atr highs lows closes 14
               else Ok (replicate 0%float (len closes))) ;;
  st <- for_each
          (loop_body cfg risk_per_trade stop_loss_pct closes lows volumes times
             ema_fast ema_slow rsi_list)
          (range 2 (len closes - 1))
          {| equity := initial_balance; position := None; trades_bt := [] |} ;;
  Ok {| initial_balance := initial_balance;
        final_balance := equity st;
        trades := trades_bt st;
        equity_curve := None |}.

Definition bar (t : Z) (c l : float) : Candle :=
  {| time := t; open := c; high := c; low := l; close := c; volume := 1%float |}.

(** [example_candles] and [example_config] as floats. *)
Definition example_candles : list Candle :=
  [bar 0 10 10; bar 1 20 20; bar 2 10 10; bar 3 10 5; bar 4 10 10; bar 5 10 10]%float.

Definition example_config : config :=
  {| EMA_FAST := 8; EMA_SLOW := 21; RSI_PERIOD := 2;
     VOLUME_MULTIPLIER := 1.0%float |}.

(** Twenty-four volumes, all 1.0 but the one at index 20, which is the
    float just below 1.0. *)
Definition uneven_volumes : list float :=
  (repeat 1 20 ++ [0.9999999999999999; 1; 1; 1])%float.

(** *** Grids of extreme values

    The statements on signs and bounds proved below over the rationals
    are evaluated in binary64 on every list of a given length over a few
    extreme values: zeros, the smallest and the largest floats,
    infinities and NaN. *)
Fixpoint lists_over (vs : list float) (n : nat) : list (list float) :=
  match n with
  | O => [[]]
  | S n => flat_map (fun l => map (fun x => x :: l) vs) (lists_over vs n)
  end.

Definition rsi_grid : list float :=
  [0; 5e-324; 1; 4.35; 1e308; -1e308; infinity; nan]%float.

(** [x < 0] and [100 < x] are both false. *)
Definition not_outside_0_100 (x : float) : bool :=
  negb (PrimFloat.ltb x 0) && negb (PrimFloat.ltb 100 x).

(** [rsi] returns, and nothing it returns is below 0 or above 100. *)
Definition rsi_bounded (values : list float) (period : Z) : bool :=
  match rsi values period with
  | Ok out => forallb not_outside_0_100 out
  | Raise _ => false
  end.

(** No value is above the one before it. *)
Fixpoint falling (values : list float) : bool :=
  match values with
  | a :: (b :: _) as rest => PrimFloat.leb b a && falling rest
  | _ => true
  end.

(** [rsi] returns, and nothing it returns after the [period+1]
    placeholders is below or above 0. *)
Definition rsi_zero_after_warm_up (values : list float) (period : Z) : bool :=
  match rsi values period with
  | Ok out =>
      forallb (fun x => negb (PrimFloat.ltb x 0) && negb (PrimFloat.ltb 0 x))
        (skipn (Z.to_nat (period + 1)) out)
  | Raise _ => false
  end.

Definition engine_grid : list float :=
  [0; 5e-324; 1e-160; 10; 1e308; infinity]%float.

(** Balance, risk fraction and stop distance of the runs of the grid. *)
Definition engine_params : list (float * float * float) :=
  [(10, 0.02, 0.01); (10, 0, 0.25); (10, 0.02, 1e-17); (10, 0.02, 0);
   (10, 0.02, 1e-200); (10, 0.02, infinity)]%float.

Definition grid_config : config :=
  {| EMA_FAST := 1; EMA_SLOW := 3; RSI_PERIOD := 14;
     VOLUME_MULTIPLIER := 1%float |}.

(** Candles with the given closes and a low of zero. *)
Definition grid_candles (closes : list float) : list Candle :=
  map (fun c => {| time := 0; open := c; high := c; low := 0%float;
                   close := c; volume := 1%float |}) closes.

(** The profit of a trade does not have the sign opposite to
    [exit - entry]. *)
Definition profit_sign_ok (t : Trade) : bool :=
  implb (PrimFloat.leb (t_entry t) (t_exit t))
        (negb (PrimFloat.ltb (profit t) 0))
  && implb (PrimFloat.leb (t_exit t) (t_entry t))
           (negb (PrimFloat.ltb 0 (profit t))).

(** What the run on [closes] shows: when it returns, no profit has the
    wrong sign, no stop-loss trade records a gain if the stop distance
    is positive, and no balance is negative if the balance and the stop
    price start non-negative; when it raises, the exception is
    ZeroDivisionError and the divisor of the sizing is zero at some
    close. *)
Definition run_signs_ok (p : float * float * float) (closes : list float)
  : bool :=
  let '(ib, r, slp) := p in
  match run_backtest grid_config (grid_candles closes) ib r slp with
  | Ok res =>
      forallb profit_sign_ok (trades res)
      && implb (PrimFloat.ltb 0 slp)
           (forallb (fun t => match reason t with
                              | SL => negb (PrimFloat.ltb 0 (profit t))
                              | X => true
                              end) (trades res))
      && implb (PrimFloat.leb 0 ib && PrimFloat.leb slp 1)
           (negb (PrimFloat.ltb (final_balance res) 0)
            && forallb (fun t => negb (PrimFloat.ltb (balance_after t) 0))
                 (trades res))
  | Raise ZeroDivisionError =>
      existsb (fun c => PrimFloat.eqb
                          (if PrimFloat.leb slp 0 then c else PrimFloat.mul c slp)
                          0) closes
  | Raise _ => false
  end.

End B64.
(* ================================================================= *)
(** ** The model on small inputs *)

Example index_negative : index [1; 2; 3] (-1) = Ok 3.
Proof. reflexivity. Qed.

Example index_out_of_range : index [1; 2; 3] 3 = Raise IndexError.
Proof. reflexivity. Qed.

Example slice_negative :
  slice_to [1; 2; 3; 4; 5] (-2) = [1; 2; 3] /\
  slice_from [1; 2; 3; 4; 5] (-2) = [4; 5] /\
  slice [1; 2; 3; 4; 5] 1 3 = [2; 3].
Proof. repeat split. Qed.

Example range_2_5 : range 2 5 = [2; 3; 4]%Z.
Proof. reflexivity. Qed.

Example ema_1_2_4 :
  exists out : list Q, ema [1; 2; 4] 1 = Ok out /\ Forall2 Qeq out [1; 2; 4].
Proof.
  eexists. split; [reflexivity|]. repeat constructor; reflexivity.
Qed.

Example sma_1_2_4_8 :
  exists out : list Q,
    sma [1; 2; 4; 8] 2 = Ok out /\ Forall2 Qeq out [1.5; 3; 6].
Proof.
  eexists. split; [reflexivity|]. repeat constructor; reflexivity.
Qed.

Example sma_period_zero : sma [1; 2] 0 = Raise ZeroDivisionError.
Proof. reflexivity. Qed.

Example rsi_warm_up : rsi [1; 2; 4; 3] 5 = Ok [50; 50; 50; 50].
Proof. reflexivity. Qed.

Example rsi_period_zero : rsi [1; 2] 0 = Raise ZeroDivisionError.
Proof. reflexivity. Qed.

(** One stop-loss trade: entry at index 2 at price 10 with quantity 2,
    exit at index 3 at the stop 9.9. *)
Example run_example :
  exists res : Result,
    run_backtest example_config example_candles 10 0.02 0.01 = Ok res /\
    final_balance res == 19.8 /\
    map reason (trades res) = [SL] /\
    Forall2 Qeq (map profit (trades res)) [-0.2].
Proof.
  eexists. split; [vm_compute; reflexivity|].
  split; [reflexivity|]. split; [reflexivity|].
  repeat constructor; reflexivity.
Qed.

(* ================================================================= *)
(** ** Facts on the Python layer *)

Section PyFacts.

Context {A : Type}.

Lemma len_nonneg (l : list A) : (0 <= len l)%Z.
Proof. unfold len; lia. Qed.

Lemma len_app (l1 l2 : list A) : len (l1 ++ l2) = (len l1 + len l2)%Z.
Proof. unfold len; rewrite length_app; lia. Qed.

(** A subscript within bounds reads the list. *)
Lemma index_nat (l : list A) (n : nat) :
  index l (Z.of_nat n) =
  match nth_error l n with Some x => Ok x | None => Raise IndexError end.
Proof.
  unfold index.
  destruct (Z.ltb_spec (Z.of_nat n) 0); [lia|].
  destruct (Z.ltb_spec (Z.of_nat n) 0); [lia|].
  now rewrite Nat2Z.id.
Qed.

Lemma index_Ok (l : list A) (k : Z) (x : A) :
  (0 <= k)%Z -> nth_error l (Z.to_nat k) = Some x -> index l k = Ok x.
Proof.
  intros Hk Hn. rewrite <- (Z2Nat.id k Hk), index_nat. now rewrite Hn.
Qed.

Lemma index_in_range (l : list A) (k : Z) :
  (0 <= k < len l)%Z -> exists x, index l k = Ok x /\ nth_error l (Z.to_nat k) = Some x.
Proof.
  intros Hk. unfold len in Hk.
  destruct (nth_error l (Z.to_nat k)) as [x|] eqn:E.
  - exists x; split; [apply index_Ok; [lia | exact E] | reflexivity].
  - apply nth_error_None in E; lia.
Qed.

(** [out[-1]] of a list that ends in [x]. *)
Lemma index_last (l : list A) (x : A) : index (l ++ [x]) (-1) = Ok x.
Proof.
  unfold index. change (-1 <? 0)%Z with true. cbv iota.
  rewrite len_app. change (len [x]) with 1%Z.
  pose proof (len_nonneg l).
  destruct (Z.ltb_spec (len l + 1 + -1) 0); [lia|].
  replace (Z.to_nat (len l + 1 + -1)) with (length l) by (unfold len; lia).
  now rewrite nth_error_app2, Nat.sub_diag by lia.
Qed.

(** The loop stopped after [S k] iterations is the loop stopped after
    [k] iterations followed by the iteration on the [k]-th element,
    when there is one. *)
Lemma for_each_firstn_S {S : Type} (body : S -> A -> res S) (l : list A)
  (k : nat) (s : S) :
  for_each body (firstn (Datatypes.S k) l) s =
  match nth_error l k with
  | Some x => bind (for_each body (firstn k l) s) (fun s' => body s' x)
  | None => for_each body (firstn k l) s
  end.
Proof.
  revert l s; induction k as [|k IH]; intros [|x l] s; simpl; try reflexivity.
  - now destruct (body s x).
  - destruct (body s x) as [s1|e]; simpl.
    + apply IH.
    + now destruct (nth_error l k).
Qed.

End PyFacts.

Lemma range_length (a b : Z) : length (range a b) = Z.to_nat (b - a).
Proof. unfold range. now rewrite length_map, length_seq. Qed.

Lemma range_nth (a b : Z) (k : nat) :
  (k < Z.to_nat (b - a))%nat -> nth_error (range a b) k = Some (a + Z.of_nat k)%Z.
Proof.
  intros Hk. unfold range. rewrite nth_error_map, nth_error_seq.
  destruct (Nat.ltb_spec k (Z.to_nat (b - a))); [reflexivity | lia].
Qed.

Lemma range_nth_inv (a b i : Z) (k : nat) :
  nth_error (range a b) k = Some i -> i = (a + Z.of_nat k)%Z /\ (a <= i < b)%Z.
Proof.
  intros H.
  assert (Hk : (k < Z.to_nat (b - a))%nat)
    by (rewrite <- range_length; apply nth_error_Some; congruence).
  rewrite range_nth in H by exact Hk. injection H as <-. lia.
Qed.

Lemma div_Ok (a b : Q) : ~ b == 0 -> div a b = Ok (a / b).
Proof.
  intros Hb. unfold div.
  destruct (Qeq_bool b 0) eqn:E; [|reflexivity].
  apply Qeq_bool_eq in E. contradiction.
Qed.

Lemma div_inv (a b q : Q) : div a b = Ok q -> ~ b == 0 /\ q = a / b.
Proof.
  unfold div. destruct (Qeq_bool b 0) eqn:E; [discriminate|].
  intros [= <-]. split; [now apply Qeq_bool_neq | reflexivity].
Qed.

Lemma ltb_spec (a b : Q) : ltb a b = true <-> a < b.
Proof.
  unfold ltb. rewrite negb_true_iff.
  destruct (Qle_bool b a) eqn:E.
  - apply Qle_bool_iff in E. split; [discriminate | intros H; exfalso; lra].
  - split; [intros _ | reflexivity].
    apply Qnot_le_lt. intros H. apply Qle_bool_iff in H. congruence.
Qed.

Lemma leb_spec (a b : Q) : leb a b = true <-> a <= b.
Proof. apply Qle_bool_iff. Qed.

Lemma inject_Z_nonzero (z : Z) : z <> 0%Z -> ~ inject_Z z == 0.
Proof.
  intros Hz H. apply Hz.
  unfold Qeq, inject_Z in H; simpl in H. lia.
Qed.

(* ================================================================= *)
(** ** EMA *)

Lemma ema_loop_from (alpha prev : Q) (vs l : list Q) :
  for_each (ema_body alpha) vs (l ++ [prev]) =
  Ok ((l ++ [prev]) ++ ema_from alpha prev vs).
Proof.
  revert l prev; induction vs as [|v vs IH]; intros l prev; simpl.
  - now rewrite app_nil_r.
  - unfold ema_body at 1. rewrite index_last. simpl bind.
    rewrite IH. f_equal. now rewrite <- !app_assoc.
Qed.

Lemma ema_from_length (alpha prev : Q) (vs : list Q) :
  length (ema_from alpha prev vs) = length vs.
Proof.
  revert prev; induction vs as [|v vs IH]; intros prev; simpl; [|rewrite IH];
    reflexivity.
Qed.

Lemma ema_from_step (alpha : Q) (vs : list Q) :
  forall (o : Q) (i : nat) (v prev : Q),
    nth_error vs i = Some v ->
    nth_error (o :: ema_from alpha o vs) i = Some prev ->
    nth_error (ema_from alpha o vs) i = Some ((v - prev) * alpha + prev).
Proof.
  induction vs as [|w vs IH]; intros o i v prev Hv Hp.
  - destruct i; discriminate.
  - destruct i as [|i]; simpl in *.
    + now injection Hv as <-; injection Hp as <-.
    + now apply IH.
Qed.

Lemma float_of_int_Ok (z : Z) :
  fits_float z -> float_of_int z = Ok (inject_Z z).
Proof.
  unfold fits_float, float_of_int. intros H.
  destruct (float_max_int <=? Z.abs z)%Z eqn:E; [|reflexivity].
  apply Z.leb_le in E. lia.
Qed.

Lemma float_of_int_overflow (z : Z) :
  ~ fits_float z -> float_of_int z = Raise OverflowError.
Proof.
  unfold fits_float, float_of_int. intros H.
  destruct (float_max_int <=? Z.abs z)%Z eqn:E; [reflexivity|].
  apply Z.leb_gt in E. contradiction.
Qed.

Lemma float_of_int_inv (z : Z) (d : Q) :
  float_of_int z = Ok d -> fits_float z /\ d = inject_Z z.
Proof.
  unfold fits_float, float_of_int.
  destruct (float_max_int <=? Z.abs z)%Z eqn:E; [discriminate|].
  apply Z.leb_gt in E. now intros [= <-].
Qed.

Lemma fits_float_small (z : Z) : (Z.abs z < 2 ^ 64)%Z -> fits_float z.
Proof.
  unfold fits_float. intros H.
  assert (2 ^ 64 <= float_max_int)%Z by (vm_compute; discriminate).
  lia.
Qed.

Lemma minus_one_fits : fits_float (-1 + 1).
Proof. apply fits_float_small. vm_compute. reflexivity. Qed.

Lemma ema_unfold (v0 : Q) (rest : list Q) (span : Z) :
  span <> (-1)%Z -> fits_float (span + 1) ->
  ema (v0 :: rest) span
  = Ok (v0 :: ema_from (2.0 / inject_Z (span + 1)) v0 rest).
Proof.
  intros Hs Hf. unfold ema.
  rewrite float_of_int_Ok by assumption. cbn [bind].
  rewrite div_Ok by (apply inject_Z_nonzero; lia). cbn [bind].
  exact (ema_loop_from _ v0 rest []).
Qed.

(** What a returned [ema] is. *)
Lemma ema_inv (values out : list Q) (span : Z) :
  ema values span = Ok out ->
  (values = [] /\ out = []) \/
  (exists (v0 : Q) (rest : list Q),
      values = v0 :: rest /\ span <> (-1)%Z /\ fits_float (span + 1) /\
      out = v0 :: ema_from (2.0 / inject_Z (span + 1)) v0 rest).
Proof.
  destruct values as [|v0 rest].
  - simpl. intros [= <-]. now left.
  - intros H. right. exists v0, rest.
    assert (Hd : exists d, float_of_int (span + 1) = Ok d).
    { unfold ema in H. destruct (float_of_int (span + 1)) as [d|]; [now exists d|discriminate]. }
    destruct Hd as [d Ed]. pose proof (float_of_int_inv _ _ Ed) as [Hf ->].
    assert (Hs : span <> (-1)%Z).
    { intros ->. unfold ema in H. rewrite Ed in H. discriminate H. }
    rewrite (ema_unfold v0 rest span Hs Hf) in H. injection H as <-.
    now repeat split.
Qed.

Lemma ema_length (values out : list Q) (span : Z) :
  ema values span = Ok out -> length out = length values.
Proof.
  intros H. apply ema_inv in H.
  destruct H as [[-> ->]|(v0 & rest & -> & _ & _ & ->)]; [reflexivity|].
  simpl. now rewrite ema_from_length.
Qed.

(** C8, as the code has it: the empty list is returned exactly on the
    empty input, for every span; for every span other than [-1] whose
    successor converts to a float the result is defined, as long as the
    input, seeded with [values[0]] and built by
    [out[i] = (values[i] - out[i-1]) * alpha + out[i-1]] with
    [alpha = 2.0/(span+1)]; at span [-1] every non-empty input raises
    ZeroDivisionError, and at a span too large for a float every
    non-empty input raises OverflowError. *)
Theorem ema_seed_length_recurrence (values : list Q) (span : Z) :
  (ema values span = Ok [] <-> values = []) /\
  (span <> (-1)%Z -> fits_float (span + 1) ->
   exists out : list Q,
     ema values span = Ok out /\
     length out = length values /\
     nth_error out 0 = nth_error values 0 /\
     forall (i : nat) (v prev : Q),
       nth_error values (S i) = Some v ->
       nth_error out i = Some prev ->
       nth_error out (S i)
       = Some ((v - prev) * (2.0 / inject_Z (span + 1)) + prev)) /\
  (span = (-1)%Z -> values <> [] ->
   ema values span = Raise ZeroDivisionError) /\
  (~ fits_float (span + 1) -> values <> [] ->
   ema values span = Raise OverflowError).
Proof.
  split; [|split; [|split]].
  - split.
    + intros H. apply ema_length in H. now destruct values.
    + now intros ->.
  - intros Hs Hf. destruct values as [|v0 rest].
    + exists []. repeat split; try reflexivity. intros [|i]; discriminate.
    + exists (v0 :: ema_from (2.0 / inject_Z (span + 1)) v0 rest).
      split; [now apply ema_unfold|].
      split; [simpl; now rewrite ema_from_length|].
      split; [reflexivity|].
      intros i v prev Hv Hp. simpl in Hv |- *.
      now apply ema_from_step.
  - intros -> Hne. destruct values as [|v0 rest]; [contradiction|].
    unfold ema. rewrite (float_of_int_Ok _ minus_one_fits). reflexivity.
  - intros Hf Hne. destruct values as [|v0 rest]; [contradiction|].
    unfold ema. now rewrite (float_of_int_overflow _ Hf).
Qed.

Lemma ema_seed_length_recurrence_witness :
  (1 <> -1)%Z /\ fits_float (1 + 1) /\
  exists out : list Q,
    ema [1; 2; 4] 1 = Ok out /\
    length out = 3%nat /\
    nth_error out 0 = Some 1 /\
    forall (i : nat) (v prev : Q),
      nth_error [1; 2; 4] (S i) = Some v ->
      nth_error out i = Some prev ->
      nth_error out (S i) = Some ((v - prev) * (2.0 / inject_Z (1 + 1)) + prev).
Proof.
  split; [lia|]. split; [vm_compute; reflexivity|].
  apply (proj1 (proj2 (ema_seed_length_recurrence [1; 2; 4] 1)));
    [lia | vm_compute; reflexivity].
Defined.

(** The other unvalidated span: [10**400 + 1] does not convert to a
    float. *)
Example ema_huge_span_raises : ema [1] (10 ^ 400) = Raise OverflowError.
Proof. vm_compute. reflexivity. Qed.

(** C8 as stated fails at span [-1]: [alpha = 2.0/(span+1)] divides by
    zero, and a non-empty input yields no sequence at all. *)
Lemma ema_span_minus_one_raises :
  ema [1] (-1) = Raise ZeroDivisionError /\
  ~ (exists out : list Q, ema [1] (-1) = Ok out /\ length out = length [1]).
Proof.
  split; [reflexivity|].
  intros (out & H & _). discriminate H.
Qed.

(* ================================================================= *)
(** ** SMA *)

(** One iteration of [sma] from the state the reference definitions
    give after [n] iterations. *)
Lemma sma_body_running (values : list Q) (period : Z) (n : nat) (v : Q) :
  (1 <= period)%Z ->
  nth_error values n = Some v ->
  sma_body values period
    (Z.of_nat n, running_sum values period n, sma_outputs values period n) v
  = Ok (Z.of_nat (S n), running_sum values period (S n),
        sma_outputs values period (S n)).
Proof.
  intros Hp Hv.
  assert (Hn : (n < length values)%nat) by (apply nth_error_Some; congruence).
  assert (Hnv : nth n values 0 = v) by (now apply nth_error_nth).
  assert (HP : ~ inject_Z period == 0) by (apply inject_Z_nonzero; lia).
  assert (Hsucc : (Z.of_nat n + 1)%Z = Z.of_nat (S n)) by lia.
  unfold sma_body. cbn [running_sum]. rewrite Hnv.
  destruct (Z.leb_spec period (Z.of_nat n)) as [Hle|Hlt].
  - destruct (index_in_range values (Z.of_nat n - period)%Z) as (x & Hx & Hxn);
      [unfold len; lia|].
    rewrite Hx. cbn [bind]. rewrite div_Ok by exact HP. cbn [bind].
    replace (Z.to_nat (Z.of_nat n - period)) with (n - Z.to_nat period)%nat
      in Hxn by lia.
    apply (nth_error_nth _ _ 0) in Hxn. rewrite Hxn, Hsucc.
    do 2 f_equal. unfold sma_outputs.
    replace (S n - (Z.to_nat period - 1))%nat
      with (S (n - (Z.to_nat period - 1))) by lia.
    rewrite seq_S, map_app. f_equal. cbn [map].
    replace (Z.to_nat period - 1 + (n - (Z.to_nat period - 1)))%nat with n by lia.
    cbn [running_sum]. rewrite Hnv, Hxn.
    destruct (Z.leb_spec period (Z.of_nat n)); [reflexivity|lia].
  - destruct (Z.eqb_spec (Z.of_nat n) (period - 1)) as [Heq|Hne].
    + rewrite div_Ok by exact HP. cbn [bind]. rewrite Hsucc.
      do 2 f_equal. unfold sma_outputs.
      replace (S n - (Z.to_nat period - 1))%nat with 1%nat by lia.
      replace (n - (Z.to_nat period - 1))%nat with 0%nat by lia.
      cbn [seq map app].
      replace (Z.to_nat period - 1)%nat with n by lia.
      cbn [running_sum]. rewrite Hnv.
      destruct (Z.leb_spec period (Z.of_nat n)); [lia|reflexivity].
    + rewrite Hsucc. do 2 f_equal. unfold sma_outputs.
      replace (S n - (Z.to_nat period - 1))%nat with 0%nat by lia.
      now replace (n - (Z.to_nat period - 1))%nat with 0%nat by lia.
Qed.

Lemma sma_loop_running (values : list Q) (period : Z) :
  (1 <= period)%Z ->
  forall suf pre : list Q,
    values = pre ++ suf ->
    for_each (sma_body values period) suf
      (Z.of_nat (length pre), running_sum values period (length pre),
       sma_outputs values period (length pre))
    = Ok (Z.of_nat (length values), running_sum values period (length values),
          sma_outputs values period (length values)).
Proof.
  intros Hp. induction suf as [|v suf IH]; intros pre Hval.
  - rewrite app_nil_r in Hval. now rewrite Hval.
  - cbn [for_each]. rewrite sma_body_running; [|exact Hp|].
    + cbn [bind]. specialize (IH (pre ++ [v])).
      rewrite length_app in IH. cbn [length] in IH.
      replace (length pre + 1)%nat with (S (length pre)) in IH by lia.
      apply IH. now rewrite <- app_assoc.
    + rewrite Hval, nth_error_app2, Nat.sub_diag by lia. reflexivity.
Qed.

(** For a period of at least 1, [sma] returns the quotients of its
    running sum. *)
Lemma sma_returns (values : list Q) (period : Z) :
  (1 <= period)%Z ->
  sma values period = Ok (sma_outputs values period (length values)).
Proof.
  intros Hp. unfold sma.
  pose proof (sma_loop_running values period Hp values [] eq_refl) as H.
  cbn [length running_sum] in H.
  assert (H0 : sma_outputs values period 0 = []).
  { unfold sma_outputs. now replace (0 - (Z.to_nat period - 1))%nat with 0%nat by lia. }
  rewrite H0 in H. cbn [Z.of_nat] in H. now rewrite H.
Qed.

Lemma sma_outputs_length (values : list Q) (period : Z) (n : nat) :
  length (sma_outputs values period n) = (n - (Z.to_nat period - 1))%nat.
Proof. unfold sma_outputs. now rewrite length_map, length_seq. Qed.




(* ================================================================= *)
(** ** RSI *)

Lemma sum_from_nonneg (l : list Q) (a : Q) :
  Forall (Qle 0) l -> 0 <= a -> 0 <= fold_left Qplus l a.
Proof.
  revert a; induction l as [|x l IH]; intros a Hl Ha; simpl; [exact Ha|].
  inversion Hl; subst. apply IH; [assumption | lra].
Qed.

Lemma sum_nonneg (l : list Q) : Forall (Qle 0) l -> 0 <= sum l.
Proof. intros Hl. apply sum_from_nonneg; [exact Hl | lra]. Qed.

Lemma Forall_firstn_skipn {A : Type} (P : A -> Prop) (n : nat) (l : list A) :
  Forall P l -> Forall P (firstn n l) /\ Forall P (skipn n l).
Proof.
  intros Hl. rewrite <- (firstn_skipn n l) in Hl.
  now apply Forall_app in Hl.
Qed.

Lemma ups_nonneg (ds : list Q) :
  Forall (Qle 0) (map (fun d => if ltb 0 d then d else 0) ds).
Proof.
  apply Forall_map, Forall_forall. intros d _.
  destruct (ltb 0 d) eqn:E; [apply ltb_spec in E; lra | lra].
Qed.

Lemma downs_nonneg (ds : list Q) :
  Forall (Qle 0) (map (fun d => if ltb d 0 then - d else 0) ds).
Proof.
  apply Forall_map, Forall_forall. intros d _.
  destruct (ltb d 0) eqn:E; [apply ltb_spec in E; lra | lra].
Qed.

Lemma deltas_length (values : list Q) :
  length (deltas values) = (length values - 1)%nat.
Proof.
  induction values as [|a [|b rest] IH]; try reflexivity.
  change (deltas (a :: b :: rest)) with ((b - a) :: deltas (b :: rest)).
  simpl length in *. lia.
Qed.

Lemma inject_Z_pos (z : Z) : (0 < z)%Z -> 0 < inject_Z z.
Proof. intros H. change 0 with (inject_Z 0). now rewrite <- Zlt_Qlt. Qed.

Lemma inject_Z_nonneg (z : Z) : (0 <= z)%Z -> 0 <= inject_Z z.
Proof. intros H. change 0 with (inject_Z 0). now rewrite <- Zle_Qle. Qed.

Lemma Qdiv_nonneg (a b : Q) : 0 <= a -> 0 < b -> 0 <= a / b.
Proof. intros Ha Hb. apply Qle_shift_div_l; [exact Hb | lra]. Qed.

(** One smoothing step keeps the averages non-negative, divides by
    non-zero numbers only and appends a value of [[0, 100]]. *)
Lemma rsi_body_inv (period : Z) (st : Q * Q * list Q) (d : Q * Q) :
  (1 <= period)%Z ->
  0 <= fst d -> 0 <= snd d ->
  rsi_inv st ->
  exists st', rsi_body period st d = Ok st' /\ rsi_inv st' /\
              length (snd st') = S (length (snd st)).
Proof.
  intros Hp Hu Hd Hinv.
  destruct st as [[up_avg down_avg] out], d as [d_up d_down]; simpl in Hu, Hd.
  destruct Hinv as (Hup & Hdown & Hout).
  pose proof (inject_Z_pos period ltac:(lia)) as HP.
  pose proof (inject_Z_nonneg (period - 1) ltac:(lia)) as HP1.
  unfold rsi_body.
  rewrite div_Ok by lra. simpl bind.
  rewrite div_Ok by lra. simpl bind.
  set (ua := (up_avg * inject_Z (period - 1) + d_up) / inject_Z period).
  set (da := (down_avg * inject_Z (period - 1) + d_down) / inject_Z period).
  assert (Hua : 0 <= ua).
  { apply Qdiv_nonneg; [|exact HP].
    pose proof (Qmult_le_0_compat _ _ Hup HP1). lra. }
  assert (Hda : 0 <= da).
  { apply Qdiv_nonneg; [|exact HP].
    pose proof (Qmult_le_0_compat _ _ Hdown HP1). lra. }
  assert (Heps : 0 < 1e-12) by reflexivity.
  assert (Hden : 0 < da + 1e-12) by lra.
  rewrite div_Ok by lra. simpl bind.
  set (rs := ua / (da + 1e-12)).
  assert (Hrs : 0 <= rs) by (apply Qdiv_nonneg; assumption).
  rewrite div_Ok by lra. simpl bind.
  eexists; split; [reflexivity|]. split.
  - split; [exact Hua|]. split; [exact Hda|].
    apply Forall_app. split; [exact Hout|].
    constructor; [|constructor].
    assert (Hx : 0 <= 100 / (1 + rs)) by (apply Qdiv_nonneg; lra).
    assert (Hx' : 100 / (1 + rs) <= 100).
    { apply Qle_shift_div_r; [lra|].
      assert (0 <= 100 * rs) by (apply Qmult_le_0_compat; lra). lra. }
    split; lra.
  - simpl. rewrite length_app. simpl. lia.
Qed.

Lemma rsi_loop_inv (period : Z) :
  (1 <= period)%Z ->
  forall (ds : list (Q * Q)) (st : Q * Q * list Q),
    Forall (fun d => 0 <= fst d /\ 0 <= snd d) ds ->
    rsi_inv st ->
    exists st', for_each (rsi_body period) ds st = Ok st' /\ rsi_inv st' /\
                length (snd st') = (length (snd st) + length ds)%nat.
Proof.
  intros Hp. induction ds as [|d ds IH]; intros st Hds Hinv.
  - exists st. repeat split; [exact Hinv | simpl; lia].
  - inversion Hds as [|? ? [Hu Hd] Hds']; subst.
    destruct (rsi_body_inv period st d Hp Hu Hd Hinv) as (st1 & H1 & Hinv1 & Hl1).
    destruct (IH st1 Hds' Hinv1) as (st' & H' & Hinv' & Hl').
    exists st'. simpl for_each. rewrite H1. simpl bind.
    repeat split; [exact H' | exact Hinv' | simpl length; lia].
Qed.

Lemma replicate_length {A : Type} (x : A) (k : Z) :
  length (replicate x k) = Z.to_nat k.
Proof. apply repeat_length. Qed.

Lemma replicate_len {A : Type} (x : A) (l : list Q) :
  replicate x (len l) = repeat x (length l).
Proof. unfold replicate, len. now rewrite Nat2Z.id. Qed.

Lemma Forall_replicate {A : Type} (P : A -> Prop) (x : A) (k : Z) :
  P x -> Forall P (replicate x k).
Proof.
  intros Hx. apply Forall_forall. intros y Hy.
  now rewrite (repeat_spec _ _ _ Hy).
Qed.

Lemma Forall_combine {A B : Type} (P : A -> Prop) (R : B -> Prop)
  (l1 : list A) (l2 : list B) :
  Forall P l1 -> Forall R l2 ->
  Forall (fun d => P (fst d) /\ R (snd d)) (combine l1 l2).
Proof.
  intros H1 H2. apply Forall_forall. intros [a b] Hab. simpl. split.
  - apply in_combine_l in Hab. now apply (proj1 (Forall_forall P l1) H1).
  - apply in_combine_r in Hab. now apply (proj1 (Forall_forall R l2) H2).
Qed.

(** [rsi] with a period of at least 1 never raises, returns as many
    values as it was given and only values of [[0, 100]]. *)
Lemma rsi_total (values : list Q) (period : Z) :
  (1 <= period)%Z ->
  exists out : list Q,
    rsi values period = Ok out /\
    length out = length values /\
    Forall in_0_100 out.
Proof.
  intros Hp. unfold rsi.
  assert (H50 : in_0_100 50) by (split; lra).
  destruct (Z.ltb_spec (len values) (period + 1)) as [Hshort|Hlong].
  - exists (replicate 50 (len values)). split; [reflexivity|]. split.
    + rewrite replicate_length. unfold len. lia.
    + now apply Forall_replicate.
  - set (ds := deltas values).
    set (ups := map (fun d => if ltb 0 d then d else 0) ds).
    set (downs := map (fun d => if ltb d 0 then - d else 0) ds).
    pose proof (ups_nonneg ds) as Hups. fold ups in Hups.
    pose proof (downs_nonneg ds) as Hdowns. fold downs in Hdowns.
    pose proof (inject_Z_pos period ltac:(lia)) as HP.
    rewrite div_Ok by lra. simpl bind.
    rewrite div_Ok by lra. simpl bind.
    set (up_avg := sum (slice_to ups period) / inject_Z period).
    set (down0 := sum (slice_to downs period) / inject_Z period).
    assert (Hup : 0 <= up_avg).
    { apply Qdiv_nonneg; [|exact HP]. apply sum_nonneg.
      now apply Forall_firstn_skipn. }
    assert (Hdown0 : 0 <= down0).
    { apply Qdiv_nonneg; [|exact HP]. apply sum_nonneg.
      now apply Forall_firstn_skipn. }
    assert (Hdown : 0 <= or_else down0 1e-9).
    { unfold or_else. destruct (Qeq_bool down0 0); [discriminate | exact Hdown0]. }
    destruct (rsi_loop_inv period Hp
                (combine (slice_from ups period) (slice_from downs period))
                (up_avg, or_else down0 1e-9, replicate 50 (period + 1)))
      as (st' & Hrun & Hinv & Hlen).
    + apply Forall_combine; now apply Forall_firstn_skipn.
    + split; [exact Hup|]. split; [exact Hdown|]. now apply Forall_replicate.
    + rewrite Hrun. destruct st' as [[u d] out]. simpl bind.
      exists out. split; [reflexivity|]. split; [|exact (proj2 (proj2 Hinv))].
      simpl in Hlen. rewrite Hlen, replicate_length, length_combine.
      unfold slice_from, bound.
      destruct (Z.ltb_spec period 0); [lia|].
      rewrite !length_skipn. unfold ups, downs. rewrite !length_map.
      unfold ds. rewrite deltas_length. unfold len in Hlong. lia.
Qed.

(** C6, as the code has it: for every input list and every period of
    at least 1, [rsi] returns a list, and no element of it is below 0
    or above 100.  (An element for which both comparisons are false is
    inside [[0, 100]], unless it is a NaN.) *)
Theorem rsi_bounds (values : list Q) (period : Z) :
  (1 <= period)%Z ->
  exists out : list Q,
    rsi values period = Ok out /\
    forall x : Q, In x out -> ~ x < 0 /\ ~ 100 < x.
Proof.
  intros Hp. destruct (rsi_total values period Hp) as (out & Hrun & _ & Hout).
  exists out. split; [exact Hrun|].
  intros x Hx. destruct (proj1 (Forall_forall _ _) Hout x Hx) as [H0 H100].
  split; lra.
Qed.

Lemma rsi_bounds_witness :
  (1 <= 2)%Z /\
  exists out : list Q,
    rsi [1; 2; 4; 3] 2 = Ok out /\
    forall x : Q, In x out -> ~ x < 0 /\ ~ 100 < x.
Proof.
  split; [lia | apply (rsi_bounds [1; 2; 4; 3] 2); lia].
Defined.

(** C6 as stated fails in the code's arithmetic: on the finite input
    [1e308, -1e308, 1e308, -1e308] with period 2 the differences
    overflow to infinities, the quotient of the two averages is
    [inf/inf], and the last output is a NaN, which is neither at least 0
    nor at most 100. *)
Lemma rsi_overflow_gives_nan :
  B64.rsi [1e308; -1e308; 1e308; -1e308]%float 2
  = Ok [50; 50; 50; nan]%float /\
  PrimFloat.leb 0 nan = false /\ PrimFloat.leb nan 100 = false.
Proof.
  repeat split; vm_compute; reflexivity.
Qed.

(** In binary64 the bound holds on the grid: for periods 1 to 3 and
    every list of four values of [rsi_grid], [rsi] returns and no
    output is below 0 or above 100. *)
Example rsi_bounded_on_grid :
  forallb (fun period => forallb (fun l => B64.rsi_bounded l period)
                           (B64.lists_over B64.rsi_grid 4))
    [1; 2; 3]%Z = true.
Proof. vm_compute. reflexivity. Qed.

(** C7: with fewer than [period+1] values, [rsi] returns 50 for every
    input element and raises nothing. *)
Theorem rsi_insufficient_data (values : list Q) (period : Z) :
  (len values < period + 1)%Z ->
  rsi values period = Ok (repeat 50 (length values)).
Proof.
  intros H. unfold rsi.
  destruct (Z.ltb_spec (len values) (period + 1)); [|lia].
  now rewrite replicate_len.
Qed.

Lemma rsi_insufficient_data_witness :
  (len [1; 2; 3] < 14 + 1)%Z /\
  rsi [1; 2; 3] 14 = Ok (repeat 50 (length [1; 2; 3])).
Proof.
  split; [unfold len; simpl; lia|].
  apply (rsi_insufficient_data [1; 2; 3] 14). unfold len; simpl; lia.
Defined.

(* ================================================================= *)
(** ** The engine *)

Lemma bind_Ok {A B : Type} (c : res A) (k : A -> res B) (b : B) :
  bind c k = Ok b -> exists a : A, c = Ok a /\ k a = Ok b.
Proof. destruct c as [a|e]; simpl; [now exists a | discriminate]. Qed.

Section LoopFacts.

Variable cfg : config.
Variables risk_per_trade stop_loss_pct : Q.
Variables closes lows volumes : list Q.
Variable times : list Z.
Variables ema_fast ema_slow rsi_list : list Q.

Local Abbreviation body :=
  (loop_body cfg risk_per_trade stop_loss_pct closes lows volumes times
     ema_fast ema_slow rsi_list).
Local Abbreviation step :=
  (transition risk_per_trade stop_loss_pct closes lows times
     ema_fast ema_slow rsi_list).

(** Every iteration that returns is one of the four transitions. *)
Lemma loop_body_transition (st st' : state) (i : Z) :
  body st i = Ok st' -> step st i st'.
Proof.
  unfold loop_body. intros H.
  apply bind_Ok in H. destruct H as (price & Hprice & H).
  destruct (skipped ema_fast ema_slow rsi_list i) eqn:Hskip.
  { injection H as <-. apply T_idle. }
  apply bind_Ok in H. destruct H as (f_now & Hfn & H).
  apply bind_Ok in H. destruct H as (f_prev & Hfp & H).
  apply bind_Ok in H. destruct H as (s_now & Hsn & H).
  apply bind_Ok in H. destruct H as (s_prev & Hsp & H).
  apply bind_Ok in H. destruct H as (vok & Hvok & H).
  apply bind_Ok in H. destruct H as (rv & Hrv & H).
  destruct (position st) as [p|] eqn:Hpos.
  - apply bind_Ok in H. destruct H as (l & Hl & H).
    destruct (leb l (stop p)) eqn:Hstop.
    + unfold close_position in H.
      apply bind_Ok in H. destruct H as (t & Ht & H). injection H as <-.
      apply (T_stop _ _ _ _ _ _ _ _ st i p l t); try assumption.
      now apply leb_spec.
    + assert (Hlt : stop p < l).
      { apply Qnot_le_lt. intros Hle. apply leb_spec in Hle. congruence. }
      destruct (leb s_prev f_prev && ltb f_now s_now) eqn:Hx.
      * unfold close_position in H.
        apply bind_Ok in H. destruct H as (t & Ht & H). injection H as <-.
        apply andb_true_iff in Hx. destruct Hx as [Hx1 Hx2].
        apply (T_signal _ _ _ _ _ _ _ _ st i p l price t); try assumption.
        exists f_now, f_prev, s_now, s_prev.
        repeat split; try assumption;
          [now apply leb_spec | now apply ltb_spec].
      * injection H as <-. apply T_idle.
  - destruct (leb f_prev s_prev && ltb s_now f_now && vok
              && (ltb 25 rv && ltb rv 75)).
    + unfold open_position in H.
      apply bind_Ok in H. destruct H as (q & Hq & H).
      apply bind_Ok in H. destruct H as (t & Ht & H). injection H as <-.
      now apply (T_entry _ _ _ _ _ _ _ _ st i price q t).
    + injection H as <-. apply T_idle.
Qed.

End LoopFacts.

Section RunFacts.

Variable cfg : config.
Variable candles : list Candle.
Variables ib risk_per_trade stop_loss_pct : Q.

Local Abbreviation prefix :=
  (run_prefix cfg candles ib risk_per_trade stop_loss_pct).
Local Abbreviation body := (body_of cfg candles risk_per_trade stop_loss_pct).

Lemma run_prefix_eq (k : nat) :
  prefix k =
  (ind <- indicators cfg candles ;;
   for_each (body ind) (firstn k (scan_range candles)) (initial_state ib)).
Proof. reflexivity. Qed.

(** [run_backtest] is the loop run to its end, packed into the result. *)
Lemma run_backtest_eq :
  run_backtest cfg candles ib risk_per_trade stop_loss_pct =
  (st <- prefix (length (scan_range candles)) ;;
   Ok {| initial_balance := ib; final_balance := equity st;
         trades := trades_bt st; equity_curve := None |}).
Proof.
  unfold run_prefix, run_backtest, indicators, body_of, initial_state.
  rewrite firstn_all. unfold scan_range.
  destruct (ema (map close candles) (EMA_FAST cfg)); simpl; [|reflexivity].
  destruct (ema (map close candles) (EMA_SLOW cfg)); simpl; [|reflexivity].
  destruct (rsi (map close candles) (RSI_PERIOD cfg)); simpl; [|reflexivity].
  destruct (if (20 <? len (map close candles))%Z
            then atr (map high candles) (map low candles) (map close candles) 14
            else Ok (replicate 0 (len (map close candles)))); reflexivity.
Qed.

Lemma run_prefix_0 (st : state) :
  prefix 0 = Ok st -> st = initial_state ib.
Proof.
  rewrite run_prefix_eq. simpl firstn.
  destruct (indicators cfg candles); simpl; [now intros [= <-] | discriminate].
Qed.

(** From one prefix to the next: either the range is exhausted and the
    state stays, or the loop body runs on the [k]-th index. *)
Lemma run_prefix_S (k : nat) (st st' : state) :
  prefix k = Ok st ->
  prefix (S k) = Ok st' ->
  (nth_error (scan_range candles) k = None /\ st' = st) \/
  (exists (ind : list Q * list Q * list Q) (i : Z),
      indicators cfg candles = Ok ind /\
      nth_error (scan_range candles) k = Some i /\
      body ind st i = Ok st').
Proof.
  rewrite !run_prefix_eq.
  destruct (indicators cfg candles) as [ind|]; cbn [bind]; [|discriminate].
  rewrite for_each_firstn_S.
  destruct (nth_error (scan_range candles) k) as [i|].
  - intros -> H. simpl in H. right. now exists ind, i.
  - intros -> [= <-]. now left.
Qed.

(** Conversely, an iteration that returns extends the prefix. *)
Lemma run_prefix_extend (k : nat) (st st' : state)
  (ind : list Q * list Q * list Q) (i : Z) :
  prefix k = Ok st ->
  indicators cfg candles = Ok ind ->
  nth_error (scan_range candles) k = Some i ->
  body ind st i = Ok st' ->
  prefix (S k) = Ok st'.
Proof.
  rewrite !run_prefix_eq. intros H Hind Hi Hb.
  rewrite Hind in *. cbn [bind] in *.
  rewrite for_each_firstn_S, Hi, H. exact Hb.
Qed.

(** Each prefix of a run that returns, returns. *)
Lemma run_prefix_defined (k : nat) (st : state) :
  prefix (S k) = Ok st -> exists st0 : state, prefix k = Ok st0.
Proof.
  rewrite !run_prefix_eq.
  destruct (indicators cfg candles) as [ind|]; cbn [bind]; [|discriminate].
  rewrite for_each_firstn_S.
  destruct (nth_error (scan_range candles) k) as [i|].
  - destruct (for_each (body ind) (firstn k (scan_range candles))
                (initial_state ib)) as [st0|]; [|discriminate].
    intros _. now exists st0.
  - intros H. now exists st.
Qed.

(** The transitions of a run, with the run's own lists. *)
Lemma run_prefix_transition (k : nat) (st st' : state) :
  prefix k = Ok st ->
  prefix (S k) = Ok st' ->
  st' = st \/
  exists (ema_fast ema_slow rsi_list : list Q) (i : Z),
    indicators cfg candles = Ok (ema_fast, ema_slow, rsi_list) /\
    nth_error (scan_range candles) k = Some i /\
    transition risk_per_trade stop_loss_pct
      (map close candles) (map low candles) (map time candles)
      ema_fast ema_slow rsi_list st i st'.
Proof.
  intros H H'. destruct (run_prefix_S k st st' H H') as [[_ ->]|(ind & i & Hind & Hi & Hb)].
  - now left.
  - right. destruct ind as [[ef es] rl]. exists ef, es, rl, i.
    split; [exact Hind|]. split; [exact Hi|].
    unfold body_of in Hb. now apply loop_body_transition in Hb.
Qed.

(** Induction on the number of iterations of a run. *)
Lemma run_prefix_ind (P : nat -> state -> Prop) :
  P 0%nat (initial_state ib) ->
  (forall (k : nat) (st st' : state),
      prefix k = Ok st -> prefix (S k) = Ok st' -> P k st -> P (S k) st') ->
  forall (k : nat) (st : state), prefix k = Ok st -> P k st.
Proof.
  intros H0 HS. induction k as [|k IH]; intros st Hst.
  - now rewrite (run_prefix_0 st Hst).
  - destruct (run_prefix_defined k st Hst) as (st0 & Hst0).
    exact (HS k st0 st Hst0 Hst (IH st0 Hst0)).
Qed.

(** The equity is the balance recorded by the last closed trade, or
    the initial balance when no trade has closed. *)
Lemma equity_is_last_balance (k : nat) (st : state) :
  prefix k = Ok st ->
  equity st = last (map balance_after (trades_bt st)) ib.
Proof.
  revert k st. apply run_prefix_ind; [reflexivity|].
  intros k st st' Hst Hst' IH.
  destruct (run_prefix_transition k st st' Hst Hst')
    as [Heq|(ef & es & rl & i & _ & _ & Ht)]; [now rewrite Heq|].
  inversion Ht; subst; simpl; try exact IH.
  - rewrite map_app. simpl map. now rewrite last_last.
  - rewrite map_app. simpl map. now rewrite last_last.
Qed.

End RunFacts.

(** C2: the loop state has one position slot; from a state that holds
    a position, an iteration either leaves the state as it is or closes
    that position and appends its trade, so that a position is only ever
    created from the flat state. *)
Theorem single_position_invariant (cfg : config) (candles : list Candle)
  (ib risk_per_trade stop_loss_pct : Q) (k : nat) (st st' : state) :
  run_prefix cfg candles ib risk_per_trade stop_loss_pct k = Ok st ->
  run_prefix cfg candles ib risk_per_trade stop_loss_pct (S k) = Ok st' ->
  match position st with
  | Some p =>
      st' = st \/
      (position st' = None /\
       exists t : Trade, trades_bt st' = trades_bt st ++ [t])
  | None =>
      st' = st \/
      (exists p' : Position,
          position st' = Some p' /\
          trades_bt st' = trades_bt st /\ equity st' = equity st)
  end.
Proof.
  intros Hst Hst'.
  destruct (run_prefix_transition _ _ _ _ _ k st st' Hst Hst')
    as [Heq|(ef & es & rl & i & _ & _ & Ht)].
  - destruct (position st); now left.
  - inversion Ht as [ | ? ? ? ? ? Hp | ? ? ? ? ? Hp | ? ? ? ? ? ? Hp ]; subst.
    + destruct (position st'); now left.
    + rewrite Hp. right. eexists. simpl. repeat split.
    + rewrite Hp. right. split; [reflexivity|]. eexists. reflexivity.
    + rewrite Hp. right. split; [reflexivity|]. eexists. reflexivity.
Qed.

Lemma single_position_invariant_witness :
  exists st st' : state,
    run_prefix example_config example_candles 10 0.02 0.01 1 = Ok st /\
    run_prefix example_config example_candles 10 0.02 0.01 2 = Ok st' /\
    match position st with
    | Some p =>
        st' = st \/
        (position st' = None /\
         exists t : Trade, trades_bt st' = trades_bt st ++ [t])
    | None =>
        st' = st \/
        (exists p' : Position,
            position st' = Some p' /\
            trades_bt st' = trades_bt st /\ equity st' = equity st)
    end.
Proof.
  eexists. eexists.
  split; [vm_compute; reflexivity|].
  split; [vm_compute; reflexivity|].
  apply (single_position_invariant example_config example_candles 10 0.02 0.01 1);
    vm_compute; reflexivity.
Defined.

(** C3: what one iteration does to equity and ledger is decided by the
    position before and after it.  When the iteration closes the held
    position (a position before, none after), exactly one trade is
    appended, the equity becomes [qty * exit], which the trade records
    as its balance, and the trade records [profit = qty*exit -
    qty*entry] for the entry price of the position.  In every other
    case (no position before: a flat bar or an entry; a position that
    is still held after) the ledger and the equity are what they were.
    The final balance is the equity after the loop: the balance of the
    last closed trade, or the initial balance if none closed, whether or
    not a position is still open. *)
Theorem equity_frame_rule (cfg : config) (candles : list Candle)
  (ib risk_per_trade stop_loss_pct : Q) :
  (forall (k : nat) (st st' : state),
      run_prefix cfg candles ib risk_per_trade stop_loss_pct k = Ok st ->
      run_prefix cfg candles ib risk_per_trade stop_loss_pct (S k) = Ok st' ->
      match position st, position st' with
      | Some p, None =>
          exists t : Trade,
            trades_bt st' = trades_bt st ++ [t] /\
            t_entry t = entry p /\
            profit t = qty p * t_exit t - qty p * entry p /\
            equity st' = qty p * t_exit t /\
            balance_after t = equity st'
      | _, _ => trades_bt st' = trades_bt st /\ equity st' = equity st
      end) /\
  (forall res : Result,
      run_backtest cfg candles ib risk_per_trade stop_loss_pct = Ok res ->
      initial_balance res = ib /\
      final_balance res = last (map balance_after (trades res)) ib /\
      exists st : state,
        run_prefix cfg candles ib risk_per_trade stop_loss_pct
          (length (scan_range candles)) = Ok st /\
        final_balance res = equity st /\ trades res = trades_bt st).
Proof.
  split.
  - intros k st st' Hst Hst'.
    destruct (run_prefix_transition _ _ _ _ _ k st st' Hst Hst')
      as [Heq|(ef & es & rl & i & _ & _ & Ht)].
    { subst st'. destruct (position st); now split. }
    inversion Ht as [ | ? ? ? ? ? Hp | ? ? p ? ? Hp | ? ? p ? ? ? Hp ]; subst.
    + destruct (position st'); now split.
    + rewrite Hp. simpl. now split.
    + rewrite Hp. simpl. eexists. repeat split; reflexivity.
    + rewrite Hp. simpl. eexists. repeat split; reflexivity.
  - intros res Hres. rewrite run_backtest_eq in Hres.
    apply bind_Ok in Hres. destruct Hres as (st & Hst & [= <-]). simpl.
    split; [reflexivity|]. split.
    + exact (equity_is_last_balance _ _ _ _ _ _ st Hst).
    + now exists st.
Qed.

Lemma equity_frame_rule_witness :
  exists (st st' : state) (res : Result),
    run_prefix example_config example_candles 10 0.02 0.01 1 = Ok st /\
    run_prefix example_config example_candles 10 0.02 0.01 2 = Ok st' /\
    run_backtest example_config example_candles 10 0.02 0.01 = Ok res /\
    match position st, position st' with
    | Some p, None =>
        exists t : Trade,
          trades_bt st' = trades_bt st ++ [t] /\
          t_entry t = entry p /\
          profit t = qty p * t_exit t - qty p * entry p /\
          equity st' = qty p * t_exit t /\
          balance_after t = equity st'
    | _, _ => trades_bt st' = trades_bt st /\ equity st' = equity st
    end /\
    final_balance res = last (map balance_after (trades res)) 10.
Proof.
  eexists. eexists. eexists.
  split; [vm_compute; reflexivity|].
  split; [vm_compute; reflexivity|].
  split; [vm_compute; reflexivity|].
  split.
  - apply (proj1 (equity_frame_rule example_config example_candles 10 0.02 0.01) 1%nat);
      vm_compute; reflexivity.
  - apply (proj2 (equity_frame_rule example_config example_candles 10 0.02 0.01)).
    vm_compute; reflexivity.
Defined.

(** The step of that run from the second to the third iteration is a
    close: a position before, none after. *)
Example example_run_closes :
  exists (st st' : state) (p : Position),
    run_prefix example_config example_candles 10 0.02 0.01 1 = Ok st /\
    run_prefix example_config example_candles 10 0.02 0.01 2 = Ok st' /\
    position st = Some p /\ position st' = None.
Proof.
  do 3 eexists. repeat split; vm_compute; reflexivity.
Qed.

Section RiskFacts.

Variable cfg : config.
Variable candles : list Candle.
Variables ib risk_per_trade stop_loss_pct : Q.

Local Abbreviation prefix :=
  (run_prefix cfg candles ib risk_per_trade stop_loss_pct).

(** A held position was opened from the flat state at the equity the
    run still has, and was sized at that equity. *)
Lemma held_position_sized (k : nat) (st : state) :
  prefix k = Ok st ->
  forall p : Position,
    position st = Some p ->
    exists j : nat,
      (j < k)%nat /\
      opened_at prefix j k (equity st) p /\
      sized risk_per_trade stop_loss_pct (equity st) p.
Proof.
  revert k st.
  apply (run_prefix_ind cfg candles ib risk_per_trade stop_loss_pct
           (fun k st => forall p, position st = Some p ->
              exists j, (j < k)%nat /\ opened_at prefix j k (equity st) p /\
                        sized risk_per_trade stop_loss_pct (equity st) p)).
  - intros p Hp. discriminate Hp.
  - intros k st st' Hst Hst' IH p Hp.
    assert (Hsame : st' = st ->
              exists j, (j < S k)%nat /\ opened_at prefix j (S k) (equity st') p /\
                        sized risk_per_trade stop_loss_pct (equity st') p).
    { intros Heq. rewrite Heq in Hp |- *.
      destruct (IH p Hp) as (j & Hj & [Hopen Hheld] & Hsized).
      exists j. split; [lia|]. split; [|exact Hsized].
      split; [exact Hopen|].
      intros m stm Hm Hstm.
      destruct (Nat.eq_dec m (S k)) as [->|Hne].
      - rewrite Hst', Heq in Hstm. injection Hstm as <-.
        now split.
      - apply (Hheld m stm); [lia | exact Hstm]. }
    destruct (run_prefix_transition _ _ _ _ _ k st st' Hst Hst')
      as [Heq|(ef & es & rl & i & _ & _ & Ht)]; [now apply Hsame|].
    inversion Ht as [ | ? ? price q t Hflat _ _ Hq _ | | ]; subst.
    + now apply Hsame.
    + simpl in Hp. injection Hp as <-. simpl equity.
      exists k. split; [lia|]. split.
      * split; [now exists st|].
        intros m stm Hm Hstm. assert (m = S k) by lia. subst m.
        rewrite Hst' in Hstm. injection Hstm as <-.
        now split.
      * split; [reflexivity|]. now exists q.
    + discriminate Hp.
    + discriminate Hp.
Qed.

End RiskFacts.



(** Over the rationals, where nothing rounds, the profit computed for
    a stop-out at a quantity above the floor is [-(E * risk_per_trade)]:
    this is the law the sizing is built on. *)
Remark exact_sizing_identity (E risk_per_trade price stop_loss_pct : Q) :
  ~ price * stop_loss_pct == 0 ->
  E * risk_per_trade / (price * stop_loss_pct) * (price * (1 - stop_loss_pct))
  - E * risk_per_trade / (price * stop_loss_pct) * price
  == - (E * risk_per_trade).
Proof.
  intros H. field. split; intros H0; apply H; rewrite H0; ring.
Qed.


(* ================================================================= *)
(** ** Exits *)

Section ExitFacts.

Variable cfg : config.
Variables risk_per_trade stop_loss_pct : Q.
Variables closes lows volumes : list Q.
Variable times : list Z.
Variables ema_fast ema_slow rsi_list : list Q.

(** The iteration on a held position, once every subscript is known
    to be in range. *)
Lemma loop_body_holding (st : state) (i : Z) (p : Position)
  (price f_now f_prev s_now s_prev rv l : Q) (vok : bool) (t : Z) :
  index closes i = Ok price ->
  skipped ema_fast ema_slow rsi_list i = false ->
  index ema_fast (i - 1) = Ok f_now ->
  index ema_fast (i - 2) = Ok f_prev ->
  index ema_slow (i - 1) = Ok s_now ->
  index ema_slow (i - 2) = Ok s_prev ->
  vol_ok cfg volumes i = Ok vok ->
  index rsi_list (i - 1) = Ok rv ->
  position st = Some p ->
  index lows i = Ok l ->
  index times i = Ok t ->
  loop_body cfg risk_per_trade stop_loss_pct closes lows volumes times
    ema_fast ema_slow rsi_list st i
  = if leb l (stop p) then Ok (closed st p (stop p) SL t)
    else if leb s_prev f_prev && ltb f_now s_now
         then Ok (closed st p price X t)
         else Ok st.
Proof.
  intros Hc Hskip Hfn Hfp Hsn Hsp Hv Hr Hp Hl Ht. unfold loop_body.
  rewrite Hc; cbn [bind]. rewrite Hskip, Hfn; cbn [bind].
  rewrite Hfp; cbn [bind]. rewrite Hsn; cbn [bind]. rewrite Hsp; cbn [bind].
  rewrite Hv; cbn [bind]. rewrite Hr; cbn [bind]. rewrite Hp, Hl; cbn [bind].
  unfold close_position. rewrite Ht; cbn [bind].
  destruct (leb l (stop p)); [reflexivity|].
  destruct (leb s_prev f_prev && ltb f_now s_now); reflexivity.
Qed.

Lemma vol_ok_defined (i : Z) :
  (1 <= i <= len volumes)%Z -> exists b : bool, vol_ok cfg volumes i = Ok b.
Proof.
  intros Hi. unfold vol_ok. destruct (21 <? i)%Z; [|now exists true].
  destruct (index_in_range volumes (i - 1)) as (v & Hv & _); [lia|].
  rewrite Hv. cbn [bind]. now eexists.
Qed.

End ExitFacts.

Lemma index_map {A B : Type} (f : A -> B) (l : list A) (k : Z) (x : A) :
  (0 <= k)%Z -> nth_error l (Z.to_nat k) = Some x -> index (map f l) k = Ok (f x).
Proof.
  intros Hk Hx. apply index_Ok; [exact Hk|].
  now rewrite nth_error_map, Hx.
Qed.

Lemma scan_range_bounds (candles : list Candle) (k : nat) (i : Z) :
  nth_error (scan_range candles) k = Some i ->
  (2 <= i < len candles - 1)%Z.
Proof.
  unfold scan_range. intros H. apply range_nth_inv in H.
  unfold len in *. rewrite length_map in H. lia.
Qed.

(** The lengths of the indicator lists of a run. *)
Lemma indicators_lengths (cfg : config) (candles : list Candle)
  (ema_fast ema_slow rsi_list : list Q) :
  indicators cfg candles = Ok (ema_fast, ema_slow, rsi_list) ->
  length ema_fast = length candles /\
  length ema_slow = length candles /\
  ((1 <= RSI_PERIOD cfg)%Z -> length rsi_list = length candles).
Proof.
  unfold indicators. intros H.
  apply bind_Ok in H. destruct H as (ef & Hef & H).
  apply bind_Ok in H. destruct H as (es & Hes & H).
  apply bind_Ok in H. destruct H as (rl & Hrl & H).
  apply bind_Ok in H. destruct H as (al & _ & H).
  injection H as <- <- <-.
  apply ema_length in Hef, Hes. rewrite length_map in Hef, Hes.
  split; [exact Hef|]. split; [exact Hes|].
  intros Hp. destruct (rsi_total (map close candles) (RSI_PERIOD cfg) Hp)
    as (out & Hout & Hlen & _).
  rewrite Hout in Hrl. injection Hrl as <-. now rewrite Hlen, length_map.
Qed.

(** With an RSI period of at least 1 the guard of line 155 lets every
    index of the scan through. *)
Lemma never_skipped (cfg : config) (candles : list Candle)
  (ema_fast ema_slow rsi_list : list Q) (k : nat) (i : Z) :
  indicators cfg candles = Ok (ema_fast, ema_slow, rsi_list) ->
  (1 <= RSI_PERIOD cfg)%Z ->
  nth_error (scan_range candles) k = Some i ->
  skipped ema_fast ema_slow rsi_list i = false.
Proof.
  intros Hind Hp Hi.
  destruct (indicators_lengths _ _ _ _ _ Hind) as (Hf & Hs & Hr).
  specialize (Hr Hp). apply scan_range_bounds in Hi.
  unfold skipped, len in *. rewrite Hf, Hs, Hr.
  destruct (Z.leb_spec (Z.of_nat (length candles)) i); [lia|].
  destruct (Z.leb_spec (Z.of_nat (length candles)) (i - 1)); [lia|].
  reflexivity.
Qed.

(** C4, as the code has it: on a bar that the guard of line 155 does
    not skip (no bar is skipped when RSI_PERIOD is at least 1), a held
    position whose stop is at or above the low of the bar is closed in
    this iteration at the stop price with reason SL, whether or not the
    averages crossed down; when the low stays above the stop and the
    averages crossed down, it is closed at the close of the bar with
    reason X. *)
Theorem stop_priority_and_fill (cfg : config) (candles : list Candle)
  (ib risk_per_trade stop_loss_pct : Q) (k : nat) (st : state)
  (p : Position) (i : Z) (c : Candle) (ema_fast ema_slow rsi_list : list Q) :
  run_prefix cfg candles ib risk_per_trade stop_loss_pct k = Ok st ->
  position st = Some p ->
  nth_error (scan_range candles) k = Some i ->
  nth_error candles (Z.to_nat i) = Some c ->
  indicators cfg candles = Ok (ema_fast, ema_slow, rsi_list) ->
  skipped ema_fast ema_slow rsi_list i = false \/ (1 <= RSI_PERIOD cfg)%Z ->
  (low c <= stop p ->
   run_prefix cfg candles ib risk_per_trade stop_loss_pct (S k)
   = Ok (closed st p (stop p) SL (time c))) /\
  (stop p < low c ->
   crossed_down ema_fast ema_slow i ->
   run_prefix cfg candles ib risk_per_trade stop_loss_pct (S k)
   = Ok (closed st p (close c) X (time c))).
Proof.
  intros Hst Hp Hi Hc Hind Hguard.
  assert (Hskip : skipped ema_fast ema_slow rsi_list i = false).
  { destruct Hguard as [H|H]; [exact H|].
    exact (never_skipped _ _ _ _ _ k i Hind H Hi). }
  pose proof (scan_range_bounds _ _ _ Hi) as Hb.
  destruct (indicators_lengths _ _ _ _ _ Hind) as (Hf & Hs & _).
  assert (Hrl : (i - 1 < len rsi_list)%Z).
  { unfold skipped in Hskip. apply orb_false_iff in Hskip.
    destruct Hskip as [_ H]. apply Z.leb_gt in H. exact H. }
  destruct (index_in_range ema_fast (i - 1)) as (f_now & Hfn & _);
    [unfold len in *; lia|].
  destruct (index_in_range ema_fast (i - 2)) as (f_prev & Hfp & _);
    [unfold len in *; lia|].
  destruct (index_in_range ema_slow (i - 1)) as (s_now & Hsn & _);
    [unfold len in *; lia|].
  destruct (index_in_range ema_slow (i - 2)) as (s_prev & Hsp & _);
    [unfold len in *; lia|].
  destruct (index_in_range rsi_list (i - 1)) as (rv & Hrv & _); [lia|].
  destruct (vol_ok_defined cfg (map volume candles) i) as (vok & Hv).
  { unfold len in *. rewrite length_map. lia. }
  assert (Hbody : body_of cfg candles risk_per_trade stop_loss_pct
                    (ema_fast, ema_slow, rsi_list) st i
                  = if leb (low c) (stop p)
                    then Ok (closed st p (stop p) SL (time c))
                    else if leb s_prev f_prev && ltb f_now s_now
                         then Ok (closed st p (close c) X (time c))
                         else Ok st).
  { unfold body_of.
    apply (loop_body_holding cfg risk_per_trade stop_loss_pct
             (map close candles) (map low candles) (map volume candles)
             (map time candles) ema_fast ema_slow rsi_list st i p
             (close c) f_now f_prev s_now s_prev rv (low c) vok (time c));
      try assumption; apply index_map; (lia || assumption). }
  split.
  - intros Hlow.
    apply (run_prefix_extend _ _ _ _ _ k st _ _ i Hst Hind Hi).
    rewrite Hbody. apply leb_spec in Hlow. now rewrite Hlow.
  - intros Hlow (f_now' & f_prev' & s_now' & s_prev' & H1 & H2 & H3 & H4 & H5 & H6).
    apply (run_prefix_extend _ _ _ _ _ k st _ _ i Hst Hind Hi).
    rewrite Hbody.
    assert (Hleb : leb (low c) (stop p) = false).
    { destruct (leb (low c) (stop p)) eqn:E; [|reflexivity].
      apply leb_spec in E. lra. }
    rewrite Hleb.
    assert (f_now' = f_now) by congruence.
    assert (f_prev' = f_prev) by congruence.
    assert (s_now' = s_now) by congruence.
    assert (s_prev' = s_prev) by congruence. subst.
    apply leb_spec in H5. apply ltb_spec in H6. now rewrite H5, H6.
Qed.

Lemma stop_priority_and_fill_witness :
  (exists (st : state) (p : Position) (c : Candle)
          (ema_fast ema_slow rsi_list : list Q),
      run_prefix example_config example_candles 10 0.02 0.01 1 = Ok st /\
      position st = Some p /\
      nth_error (scan_range example_candles) 1 = Some 3%Z /\
      nth_error example_candles (Z.to_nat 3) = Some c /\
      indicators example_config example_candles
      = Ok (ema_fast, ema_slow, rsi_list) /\
      low c <= stop p /\
      run_prefix example_config example_candles 10 0.02 0.01 2
      = Ok (closed st p (stop p) SL (time c))) /\
  (exists (st : state) (p : Position) (c : Candle)
          (ema_fast ema_slow rsi_list : list Q),
      run_prefix example_config drifting_candles 10 0.02 0.01 6 = Ok st /\
      position st = Some p /\
      nth_error (scan_range drifting_candles) 6 = Some 8%Z /\
      nth_error drifting_candles (Z.to_nat 8) = Some c /\
      indicators example_config drifting_candles
      = Ok (ema_fast, ema_slow, rsi_list) /\
      stop p < low c /\
      crossed_down ema_fast ema_slow 8 /\
      run_prefix example_config drifting_candles 10 0.02 0.01 7
      = Ok (closed st p (close c) X (time c))).
Proof.
  split.
  - do 6 eexists.
    split; [vm_compute; reflexivity|].
    split; [vm_compute; reflexivity|].
    split; [vm_compute; reflexivity|].
    split; [vm_compute; reflexivity|].
    split; [vm_compute; reflexivity|].
    split; [vm_compute; discriminate|].
    eapply (proj1 (stop_priority_and_fill example_config example_candles
                     10 0.02 0.01 1 _ _ 3 _ _ _ _
                     ltac:(vm_compute; reflexivity)
                     ltac:(vm_compute; reflexivity)
                     ltac:(vm_compute; reflexivity)
                     ltac:(vm_compute; reflexivity)
                     ltac:(vm_compute; reflexivity)
                     ltac:(right; vm_compute; discriminate))).
    vm_compute; discriminate.
  - do 6 eexists.
    split; [vm_compute; reflexivity|].
    split; [vm_compute; reflexivity|].
    split; [vm_compute; reflexivity|].
    split; [vm_compute; reflexivity|].
    split; [vm_compute; reflexivity|].
    assert (Hlow : stop {| entry := 10; qty := 2.000; stop := 9.90;
                           entry_time := 2 |} < low (bar 8 10 10))
      by reflexivity.
    split; [exact Hlow|].
    assert (Hx : crossed_down
                   (match ema (map close drifting_candles) 8 with
                    | Ok l => l | Raise _ => [] end)
                   (match ema (map close drifting_candles) 21 with
                    | Ok l => l | Raise _ => [] end) 8).
    { do 4 eexists.
      split; [vm_compute; reflexivity|].
      split; [vm_compute; reflexivity|].
      split; [vm_compute; reflexivity|].
      split; [vm_compute; reflexivity|].
      split; [vm_compute; discriminate | vm_compute; reflexivity]. }
    split; [exact Hx|].
    exact (proj2 (stop_priority_and_fill example_config drifting_candles
                    10 0.02 0.01 6 _ _ 8 _ _ _ _
                    ltac:(vm_compute; reflexivity)
                    ltac:(vm_compute; reflexivity)
                    ltac:(vm_compute; reflexivity)
                    ltac:(vm_compute; reflexivity)
                    ltac:(vm_compute; reflexivity)
                    ltac:(right; vm_compute; discriminate))
                 Hlow Hx).
Defined.

(** C4 as stated fails when the guard of line 155 skips a bar: with
    RSI_PERIOD = -2 [rsi] returns two values, the position opened at
    index 2 is held at index 3, the low of that bar is below the stop,
    and the iteration leaves the position open and the ledger empty. *)
Lemma stop_skipped_by_guard :
  exists (st : state) (p : Position) (c : Candle),
    run_prefix negative_rsi_config example_candles 10 0.02 0.01 1 = Ok st /\
    position st = Some p /\
    nth_error (scan_range example_candles) 1 = Some 3%Z /\
    nth_error example_candles 3 = Some c /\
    low c <= stop p /\
    run_prefix negative_rsi_config example_candles 10 0.02 0.01 2 = Ok st /\
    trades_bt st = [] /\
    run_backtest negative_rsi_config example_candles 10 0.02 0.01
    = Ok {| initial_balance := 10; final_balance := 10; trades := [];
            equity_curve := None |}.
Proof.
  do 3 eexists.
  split; [vm_compute; reflexivity|].
  split; [vm_compute; reflexivity|].
  split; [vm_compute; reflexivity|].
  split; [vm_compute; reflexivity|].
  split; [vm_compute; discriminate|].
  split; [vm_compute; reflexivity|].
  split; vm_compute; reflexivity.
Qed.

(* ================================================================= *)
(** ** Volume filter *)

Lemma sum_from_total (l : list Q) (a : Q) : fold_left Qplus l a == a + total l.
Proof.
  revert a; induction l as [|x l IH]; intros a; simpl; [lra|].
  rewrite IH. lra.
Qed.

Lemma sum_total (l : list Q) : sum l == total l.
Proof. unfold sum. rewrite sum_from_total. lra. Qed.

Lemma skipn_nth_cons {A : Type} (d : A) (l : list A) (a : nat) :
  (a < length l)%nat -> skipn a l = nth a l d :: skipn (S a) l.
Proof.
  revert a; induction l as [|x l IH]; intros a Ha; simpl in Ha; [lia|].
  destruct a as [|a]; [reflexivity|].
  simpl. apply IH. lia.
Qed.

Lemma firstn_skipn_seq {A : Type} (d : A) (l : list A) (m a : nat) :
  (a + m <= length l)%nat ->
  firstn m (skipn a l) = map (fun k => nth k l d) (seq a m).
Proof.
  revert a; induction m as [|m IH]; intros a Ha; [reflexivity|].
  rewrite (skipn_nth_cons d) by lia.
  cbn [firstn seq map]. f_equal. apply IH. lia.
Qed.

(** [volumes[i-21:i-1]] holds the 20 bars before bar [i-1]. *)
Lemma slice_is_window (volumes : list Q) (i : Z) :
  (21 < i <= len volumes + 1)%Z ->
  slice volumes (i - 21) (i - 1) = window volumes 20 (Z.to_nat (i - 2)).
Proof.
  intros Hi. unfold slice, bound, window, len in *.
  destruct (Z.ltb_spec (i - 21) 0); [lia|].
  destruct (Z.ltb_spec (i - 1) 0); [lia|].
  replace (Z.to_nat (i - 1) - Z.to_nat (i - 21))%nat with 20%nat by lia.
  replace (Z.to_nat (i - 2) + 1 - 20)%nat with (Z.to_nat (i - 21)) by lia.
  apply firstn_skipn_seq. lia.
Qed.

Lemma window_length (values : list Q) (p i : nat) :
  length (window values p i) = p.
Proof. unfold window. now rewrite length_map, length_seq. Qed.

(** C5, as the code has it: at a processed index [i] the evaluated bar
    is [i-1].  Unless at least 21 bars precede it, [vol_ok] is true;
    when they do, [vol_ok] is the comparison the code computes: the
    volumes of the 20 bars [i-21] to [i-2] are summed by [sum], the sum
    is divided by [20.0] and multiplied by VOLUME_MULTIPLIER, and
    [vol_ok] tells whether the result is strictly below the volume of
    bar [i-1]. *)
Theorem volume_filter (cfg : config) (candles : list Candle) (i : Z) :
  In i (scan_range candles) ->
  let volumes := map volume candles in
  ((i - 1 < 21)%Z -> vol_ok cfg volumes i = Ok true) /\
  ((21 <= i - 1)%Z ->
   exists (v : Q) (w : list Q),
     index volumes (i - 1) = Ok v /\
     length w = 20%nat /\
     (forall k : nat,
         (k < 20)%nat -> index volumes (i - 21 + Z.of_nat k) = index w (Z.of_nat k)) /\
     vol_ok cfg volumes i
     = Ok (ltb (sum w / 20.0 * VOLUME_MULTIPLIER cfg) v)).
Proof.
  intros Hi volumes.
  apply In_nth_error in Hi. destruct Hi as (k & Hk).
  apply scan_range_bounds in Hk.
  assert (Hlen : len volumes = len candles)
    by (unfold volumes, len; now rewrite length_map).
  unfold vol_ok. split.
  - intros Hshort. destruct (Z.ltb_spec 21 i); [lia | reflexivity].
  - intros Hlong. destruct (Z.ltb_spec 21 i); [|lia].
    destruct (index_in_range volumes (i - 1)) as (v & Hv & _); [lia|].
    rewrite Hv. cbn [bind].
    exists v, (window volumes 20 (Z.to_nat (i - 2))).
    split; [reflexivity|]. split; [apply window_length|]. split.
    + intros j Hj.
      destruct (index_in_range volumes (i - 21 + Z.of_nat j)) as (x & -> & Hx);
        [lia|].
      symmetry. rewrite index_nat. unfold window.
      rewrite nth_error_map, nth_error_seq.
      destruct (Nat.ltb_spec j 20); [|lia]. cbn [option_map].
      f_equal. apply (nth_error_nth _ _ 0) in Hx. rewrite <- Hx.
      f_equal. lia.
    + now rewrite slice_is_window by lia.
Qed.

Lemma volume_filter_witness :
  In 22%Z (scan_range flat_candles) /\
  exists (v : Q) (w : list Q),
    index (map volume flat_candles) (22 - 1) = Ok v /\
    length w = 20%nat /\
    (forall k : nat,
        (k < 20)%nat ->
        index (map volume flat_candles) (22 - 21 + Z.of_nat k)
        = index w (Z.of_nat k)) /\
    vol_ok default_config (map volume flat_candles) 22
    = Ok (ltb (sum w / 20.0 * VOLUME_MULTIPLIER default_config) v).
Proof.
  assert (H : In 22%Z (scan_range flat_candles))
    by (apply (nth_error_In _ 20); vm_compute; reflexivity).
  split; [exact H|].
  apply (proj2 (volume_filter default_config flat_candles 22 H)). lia.
Defined.

(** C5 as stated fails in the code's arithmetic.  The volumes of bars 1
    to 20 are nineteen times 1.0 and once the float just below 1.0, so
    their mean is below 1.0 and the volume 1.0 of bar 21 strictly exceeds
    1.0 times that mean; but the float sum of the twenty volumes is
    20.0, with and without the compensation of CPython 3.12, the
    quotient is 1.0, and [vol_ok] at index 22 is false. *)
Lemma volume_filter_rounds_to_false :
  index B64.uneven_volumes (22 - 1) = Ok 1%float /\
  B64.VOLUME_MULTIPLIER B64.example_config = 1%float /\
  B64.to_Q 1
  * mean (window (map B64.to_Q B64.uneven_volumes) 20 (Z.to_nat (22 - 2)))
  < B64.to_Q 1 /\
  B64.vol_ok B64.example_config B64.uneven_volumes 22 = Ok false /\
  B64.sum_compensated (slice B64.uneven_volumes (22 - 21) (22 - 1))
  = B64.sum (slice B64.uneven_volumes (22 - 21) (22 - 1)).
Proof.
  repeat split; vm_compute; reflexivity.
Qed.

(* ================================================================= *)
(** ** Short inputs *)

Lemma scan_range_short (candles : list Candle) :
  (length candles < 4)%nat -> scan_range candles = [].
Proof.
  intros H. unfold scan_range, range, len. rewrite length_map.
  now replace (Z.to_nat (Z.of_nat (length candles) - 1 - 2)) with 0%nat by lia.
Qed.

Lemma ema_defined (values : list Q) (span : Z) :
  span <> (-1)%Z -> fits_float (span + 1) ->
  exists out : list Q, ema values span = Ok out.
Proof.
  intros Hs Hf. destruct values as [|v0 rest]; [now exists []|].
  rewrite ema_unfold by assumption. now eexists.
Qed.

Lemma indicators_defined_short (cfg : config) (candles : list Candle) :
  (length candles <= 20)%nat ->
  EMA_FAST cfg <> (-1)%Z -> fits_float (EMA_FAST cfg + 1) ->
  EMA_SLOW cfg <> (-1)%Z -> fits_float (EMA_SLOW cfg + 1) ->
  (1 <= RSI_PERIOD cfg)%Z ->
  exists ind : list Q * list Q * list Q, indicators cfg candles = Ok ind.
Proof.
  intros Hlen Hf Hff Hs Hsf Hp. unfold indicators.
  destruct (ema_defined (map close candles) _ Hf Hff) as (ef & ->).
  destruct (ema_defined (map close candles) _ Hs Hsf) as (es & ->).
  destruct (rsi_total (map close candles) _ Hp) as (rl & -> & _).
  cbn [bind].
  destruct (Z.ltb_spec 20 (len (map close candles))) as [H|H].
  - unfold len in H. rewrite length_map in H. lia.
  - cbn [bind]. now eexists.
Qed.

(** C10, as the code has it: with fewer than 4 candles the index range
    of the loop is empty, so a run that returns has the initial balance
    as final balance and an empty ledger; and the run does return when
    neither span is [-1], the successor of each span converts to a float
    and RSI_PERIOD is at least 1, whatever the balance, the risk
    fraction, the stop distance and the volume multiplier. *)
Theorem short_input_no_iteration (cfg : config) (candles : list Candle)
  (ib risk_per_trade stop_loss_pct : Q) :
  (length candles < 4)%nat ->
  scan_range candles = [] /\
  (forall res : Result,
      run_backtest cfg candles ib risk_per_trade stop_loss_pct = Ok res ->
      res = {| initial_balance := ib; final_balance := ib; trades := [];
               equity_curve := None |}) /\
  (EMA_FAST cfg <> (-1)%Z -> fits_float (EMA_FAST cfg + 1) ->
   EMA_SLOW cfg <> (-1)%Z -> fits_float (EMA_SLOW cfg + 1) ->
   (1 <= RSI_PERIOD cfg)%Z ->
   run_backtest cfg candles ib risk_per_trade stop_loss_pct
   = Ok {| initial_balance := ib; final_balance := ib; trades := [];
           equity_curve := None |}).
Proof.
  intros Hlen. pose proof (scan_range_short candles Hlen) as Hr.
  split; [exact Hr|].
  assert (Heq : run_backtest cfg candles ib risk_per_trade stop_loss_pct
                = (ind <- indicators cfg candles ;;
                   Ok {| initial_balance := ib; final_balance := ib;
                         trades := []; equity_curve := None |})).
  { rewrite run_backtest_eq, run_prefix_eq, Hr. simpl firstn.
    now destruct (indicators cfg candles). }
  rewrite Heq. split.
  - intros res H. apply bind_Ok in H. destruct H as (ind & _ & H).
    now injection H as <-.
  - intros Hf Hff Hs Hsf Hp.
    destruct (indicators_defined_short cfg candles ltac:(lia) Hf Hff Hs Hsf Hp)
      as (ind & ->).
    reflexivity.
Qed.

Lemma short_input_no_iteration_witness :
  (length [bar 0 10 10; bar 1 20 20; bar 2 10 10] < 4)%nat /\
  run_backtest default_config [bar 0 10 10; bar 1 20 20; bar 2 10 10]
    10 0.02 0.01
  = Ok {| initial_balance := 10; final_balance := 10; trades := [];
          equity_curve := None |}.
Proof.
  split; [simpl; lia|].
  apply (proj2 (proj2 (short_input_no_iteration default_config
                         [bar 0 10 10; bar 1 20 20; bar 2 10 10]
                         10 0.02 0.01 ltac:(simpl; lia))));
    try (simpl; lia); vm_compute; reflexivity.
Defined.

(** The same short input under a span of [10**400]: the conversion in
    [alpha = 2.0/(span+1)] overflows before the loop is reached. *)
Example short_input_huge_span :
  run_backtest {| EMA_FAST := 10 ^ 400; EMA_SLOW := 21; RSI_PERIOD := 14;
                  VOLUME_MULTIPLIER := 1.0 |} [bar 0 10 10] 10 0.02 0.01
  = Raise OverflowError.
Proof. vm_compute. reflexivity. Qed.

(** C10 as stated fails for a configuration value: with EMA_FAST = -1
    and one candle, [ema] divides by zero before the loop is reached and
    [run_backtest] returns nothing. *)
Lemma short_input_raises :
  run_backtest zero_alpha_config [bar 0 10 10] 10 0.02 0.01
  = Raise ZeroDivisionError /\
  ~ (exists res : Result,
        run_backtest zero_alpha_config [bar 0 10 10] 10 0.02 0.01 = Ok res /\
        final_balance res == 10 /\ trades res = []).
Proof.
  split; [reflexivity|].
  intros (res & H & _). discriminate H.
Qed.

(* ================================================================= *)
(** ** More facts on the Python layer *)

Lemma for_each_app {A S : Type} (body : S -> A -> res S) (l1 l2 : list A) (s : S) :
  for_each body (l1 ++ l2) s = bind (for_each body l1 s) (for_each body l2).
Proof.
  revert s; induction l1 as [|x l1 IH]; intros s; simpl; [reflexivity|].
  destruct (body s x); simpl; [apply IH | reflexivity].
Qed.

(** Two loop bodies that agree on the elements of the list run alike. *)
Lemma for_each_ext_in {A S : Type} (f g : S -> A -> res S) (l : list A) (s : S) :
  (forall (s' : S) (x : A), In x l -> f s' x = g s' x) ->
  for_each f l s = for_each g l s.
Proof.
  revert s; induction l as [|x l IH]; intros s H; simpl; [reflexivity|].
  rewrite (H s x (or_introl eq_refl)).
  destruct (g s x) as [s1|e]; simpl; [|reflexivity].
  apply IH. intros s' y Hy. apply H. now right.
Qed.

(** A subscript within the first list of an append reads that list. *)
Lemma index_app_l {A : Type} (l1 l2 : list A) (k : Z) :
  (0 <= k < len l1)%Z -> index (l1 ++ l2) k = index l1 k.
Proof.
  intros Hk. destruct (index_in_range l1 k Hk) as (x & Hx & Hn).
  rewrite Hx. apply index_Ok; [lia|].
  rewrite nth_error_app1; [exact Hn|]. unfold len in Hk. lia.
Qed.

Lemma index_past_end {A : Type} (l : list A) (k : Z) :
  (len l <= k)%Z -> index l k = Raise IndexError.
Proof.
  intros Hk. pose proof (len_nonneg l).
  rewrite <- (Z2Nat.id k) by lia. rewrite index_nat.
  destruct (nth_error l (Z.to_nat k)) eqn:E; [|reflexivity].
  assert (Z.to_nat k < length l)%nat by (apply nth_error_Some; congruence).
  unfold len in Hk. lia.
Qed.

Lemma range_bounds (a b i : Z) : In i (range a b) -> (a <= i < b)%Z.
Proof.
  intros Hi. apply In_nth_error in Hi. destruct Hi as (k & Hk).
  now apply range_nth_inv in Hk.
Qed.

Lemma max_ge_l (a b : Q) : a <= max a b.
Proof.
  unfold max. destruct (ltb a b) eqn:E; [apply ltb_spec in E; lra | lra].
Qed.

(* ================================================================= *)
(** ** ATR *)

(** The true-range loop over indices within the three lists. *)
Lemma atr_loop (highs lows closes : list Q) :
  forall (idxs : list Z) (acc : list Q),
    Forall (fun i => 1 <= i < len highs /\ i < len lows /\ i <= len closes)%Z idxs ->
    for_each (atr_body highs lows closes) idxs acc
    = Ok (acc ++ map (true_range highs lows closes) idxs).
Proof.
  induction idxs as [|i idxs IH]; intros acc Hi.
  - simpl. now rewrite app_nil_r.
  - inversion Hi as [|? ? (H1 & H2 & H3) Hi']; subst.
    destruct (index_in_range highs i) as (h & Hh & Hh'); [lia|].
    destruct (index_in_range lows i) as (l & Hl & Hl'); [lia|].
    destruct (index_in_range closes (i - 1)) as (c & Hc & Hc'); [lia|].
    simpl for_each. unfold atr_body at 1.
    rewrite Hh; cbn [bind]. rewrite Hl; cbn [bind]. rewrite Hc; cbn [bind].
    rewrite (IH _ Hi'), <- app_assoc. cbn [app map]. do 3 f_equal.
    unfold true_range.
    now rewrite (nth_error_nth _ _ 0 Hh'), (nth_error_nth _ _ 0 Hl'),
      (nth_error_nth _ _ 0 Hc').
Qed.

(** X1: on three lists of one length (the columns of one candle list)
    and a period of at least 1, [atr] raises nothing; what it returns
    is [sma] of the true ranges of the bars from index 1 on, which has
    [len(closes) - period] values (none when that is negative). *)
Theorem atr_defined_length (highs lows closes : list Q) (period : Z) :
  length highs = length closes ->
  length lows = length closes ->
  (1 <= period)%Z ->
  exists out : list Q,
    atr highs lows closes period = Ok out /\
    sma (map (true_range highs lows closes) (range 1 (len closes))) period
    = Ok out /\
    len out = Z.max 0 (len closes - period).
Proof.
  intros Hh Hl Hp. unfold atr.
  rewrite (atr_loop highs lows closes (range 1 (len closes)) []).
  - cbn [bind app]. rewrite (sma_returns _ _ Hp). eexists.
    split; [reflexivity|]. split; [reflexivity|].
    unfold len. rewrite sma_outputs_length, length_map, range_length.
    unfold len. lia.
  - apply Forall_forall. intros i Hi. apply range_bounds in Hi.
    unfold len in *. lia.
Qed.

Lemma atr_defined_length_witness :
  exists out : list Q,
    atr [3; 4; 6] [1; 2; 3] [2; 3; 5] 2 = Ok out /\
    sma (map (true_range [3; 4; 6] [1; 2; 3] [2; 3; 5])
           (range 1 (len [2; 3; 5]))) 2
    = Ok out /\
    len out = Z.max 0 (len [2; 3; 5] - 2).
Proof.
  apply (atr_defined_length [3; 4; 6] [1; 2; 3] [2; 3; 5] 2);
    [reflexivity | reflexivity | lia].
Defined.

Lemma range_cons (a b : Z) : (a < b)%Z -> range a b = a :: range (a + 1) b.
Proof.
  intros H. unfold range.
  replace (Z.to_nat (b - a)) with (S (Z.to_nat (b - (a + 1)))) by lia.
  simpl. f_equal; [lia|].
  rewrite <- seq_shift, map_map. apply map_ext. intros k. lia.
Qed.

Lemma range_empty (a b : Z) : (b <= a)%Z -> range a b = [].
Proof.
  intros H. unfold range. now replace (Z.to_nat (b - a)) with 0%nat by lia.
Qed.

Lemma range_split (a c b : Z) :
  (a <= c <= b)%Z -> range a b = range a c ++ range c b.
Proof.
  intros H. remember (Z.to_nat (c - a)) as n eqn:Hn.
  revert a H Hn. induction n as [|n IH]; intros a H Hn.
  - assert (c = a) by lia. subst c. now rewrite (range_empty a a) by lia.
  - rewrite (range_cons a b), (range_cons a c) by lia.
    simpl. f_equal. apply IH; lia.
Qed.

(** X2: [atr] subscripts [highs] and [lows] with the indices of
    [closes]: when one of them is shorter than [closes], and [closes]
    has at least two elements, the true-range loop raises IndexError. *)
Theorem atr_ragged_raises (highs lows closes : list Q) (period : Z) :
  (2 <= len closes)%Z ->
  (len highs < len closes \/ len lows < len closes)%Z ->
  atr highs lows closes period = Raise IndexError.
Proof.
  intros Hc Hshort. unfold atr.
  pose proof (len_nonneg highs) as Hh0. pose proof (len_nonneg lows) as Hl0.
  set (i0 := Z.max 1 (Z.min (len highs) (len lows))).
  assert (Hi0 : (1 <= i0 < len closes)%Z) by (unfold i0; lia).
  rewrite (range_split 1 i0 (len closes)) by lia.
  rewrite (range_cons i0 (len closes)) by lia.
  rewrite for_each_app.
  rewrite (atr_loop highs lows closes (range 1 i0) []).
  - cbn [bind for_each]. unfold atr_body at 1.
    destruct (Z.le_gt_cases (len highs) i0) as [Hh|Hh].
    + now rewrite (index_past_end highs i0 Hh).
    + destruct (index_in_range highs i0) as (h & -> & _); [lia|]. cbn [bind].
      assert (Hl : (len lows <= i0)%Z) by (unfold i0 in *; lia).
      now rewrite (index_past_end lows i0 Hl).
  - apply Forall_forall. intros i Hi. apply range_bounds in Hi.
    unfold i0 in *. lia.
Qed.

Lemma atr_ragged_raises_witness :
  atr [3; 4] [1; 2; 3] [2; 3; 5] 14 = Raise IndexError.
Proof.
  apply (atr_ragged_raises [3; 4] [1; 2; 3] [2; 3; 5] 14);
    [unfold len; simpl; lia | left; unfold len; simpl; lia].
Defined.

(* ================================================================= *)
(** ** SMA at the edges *)

(** X3: a period longer than the input yields the empty list, not an
    error. *)
Theorem sma_short_input (values : list Q) (period : Z) :
  (len values < period)%Z -> sma values period = Ok [].
Proof.
  intros H. pose proof (len_nonneg values).
  rewrite sma_returns by lia. f_equal.
  pose proof (sma_outputs_length values period (length values)) as Hl.
  unfold len in H.
  destruct (sma_outputs values period (length values));
    [reflexivity | simpl in Hl; lia].
Qed.

Lemma sma_short_input_witness : sma [1; 2] 3 = Ok [].
Proof. apply (sma_short_input [1; 2] 3). unfold len; simpl; lia. Defined.

(** With a negative period every element takes the branch
    [i >= period], and the subscript [i - period] runs past the end
    before the input is exhausted. *)
Lemma sma_negative_loop (values : list Q) (period : Z) :
  (period < 0)%Z ->
  forall (suf pre : list Q) (s : Q) (out : list Q),
    values = pre ++ suf -> suf <> [] ->
    for_each (sma_body values period) suf (len pre, s, out) = Raise IndexError.
Proof.
  intros Hp. induction suf as [|v suf IH]; intros pre s out Hval Hne;
    [contradiction|].
  pose proof (len_nonneg pre) as Hpre.
  simpl for_each. unfold sma_body at 1.
  destruct (Z.leb_spec period (len pre)); [|lia].
  destruct (Z.le_gt_cases (len values) (len pre - period)) as [Hout|Hin].
  - now rewrite (index_past_end values _ Hout).
  - destruct (index_in_range values (len pre - period)) as (x & -> & _); [lia|].
    cbn [bind]. rewrite div_Ok by (apply inject_Z_nonzero; lia). cbn [bind].
    replace (len pre + 1)%Z with (len (pre ++ [v]))
      by (rewrite len_app; reflexivity).
    apply IH.
    + now rewrite <- app_assoc.
    + intros ->. rewrite Hval, len_app in Hin. unfold len in Hin.
      simpl in Hin. lia.
Qed.

(** X4: on a non-empty input, a period of 0 raises ZeroDivisionError
    and a negative period raises IndexError. *)
Theorem sma_nonpositive_period (values : list Q) (period : Z) :
  values <> [] ->
  (period = 0%Z -> sma values period = Raise ZeroDivisionError) /\
  ((period < 0)%Z -> sma values period = Raise IndexError).
Proof.
  intros Hne. split.
  - intros ->. destruct values as [|v rest]; [contradiction|]. reflexivity.
  - intros Hp. unfold sma.
    pose proof (sma_negative_loop values period Hp values [] 0 [] eq_refl Hne)
      as H.
    change (len (@nil Q)) with 0%Z in H. now rewrite H.
Qed.

Lemma sma_nonpositive_period_witness :
  sma [1; 2; 3] 0 = Raise ZeroDivisionError /\
  sma [1; 2; 3] (-2) = Raise IndexError.
Proof.
  assert (Hne : [1; 2; 3] <> @nil Q) by discriminate.
  split.
  - apply (proj1 (sma_nonpositive_period [1; 2; 3] 0 Hne)). reflexivity.
  - apply (proj2 (sma_nonpositive_period [1; 2; 3] (-2) Hne)). lia.
Defined.

(* ================================================================= *)
(** ** EMA: causality *)

Lemma last_nonempty_default {A : Type} (x : A) (l : list A) (d1 d2 : A) :
  last (x :: l) d1 = last (x :: l) d2.
Proof.
  revert x; induction l as [|y l IH]; intros x; [reflexivity|].
  change (last (y :: l) d1 = last (y :: l) d2). apply IH.
Qed.

Lemma ema_from_app (alpha prev : Q) (l1 l2 : list Q) :
  ema_from alpha prev (l1 ++ l2)
  = ema_from alpha prev l1
    ++ ema_from alpha (last (prev :: ema_from alpha prev l1) prev) l2.
Proof.
  revert prev; induction l1 as [|v l1 IH]; intros prev; [reflexivity|].
  simpl ema_from. set (o := (v - prev) * alpha + prev).
  rewrite IH. simpl app. f_equal. f_equal. f_equal.
  change (last (prev :: o :: ema_from alpha o l1) prev)
    with (last (o :: ema_from alpha o l1) prev).
  apply last_nonempty_default.
Qed.

(** The outputs for a prefix of the input are a prefix of the outputs. *)
Lemma ema_prefix (l1 l2 out : list Q) (span : Z) :
  ema (l1 ++ l2) span = Ok out ->
  ema l1 span = Ok (firstn (length l1) out).
Proof.
  destruct l1 as [|v0 rest]; [reflexivity|].
  simpl app. unfold ema.
  destruct (float_of_int (span + 1)) as [d|]; [|discriminate].
  cbn [bind].
  destruct (div 2.0 d) as [alpha|]; [|discriminate].
  cbn [bind]. change [v0] with ([] ++ [v0]).
  rewrite !ema_loop_from. intros [= <-]. f_equal.
  rewrite ema_from_app. simpl. f_equal.
  rewrite firstn_app, ema_from_length, Nat.sub_diag, firstn_all2
    by (rewrite ema_from_length; lia).
  simpl. now rewrite app_nil_r.
Qed.

(** X6: [ema] does not look ahead: when it returns on an input, it
    returns on every prefix of that input, and what it returns there is
    the matching prefix of the outputs. *)
Theorem ema_causal (values out : list Q) (span : Z) (n : nat) :
  ema values span = Ok out ->
  ema (firstn n values) span = Ok (firstn n out).
Proof.
  intros H. rewrite <- (firstn_skipn n values) in H.
  pose proof (ema_length _ _ _ H) as Hlen.
  apply ema_prefix in H. rewrite H. f_equal.
  rewrite length_app in Hlen.
  destruct (Nat.le_gt_cases n (length values)) as [Hn|Hn].
  - now rewrite length_firstn, Nat.min_l by lia.
  - rewrite !firstn_all2; try reflexivity; rewrite ?length_firstn, ?length_skipn in *; lia.
Qed.

Lemma ema_causal_witness :
  exists out : list Q,
    ema [1; 4; 2; 8] 3 = Ok out /\
    ema (firstn 2 [1; 4; 2; 8]) 3 = Ok (firstn 2 out).
Proof.
  eexists. split; [vm_compute; reflexivity|].
  apply (ema_causal [1; 4; 2; 8] _ 3 2). vm_compute; reflexivity.
Defined.

(* ================================================================= *)
(** ** RSI: length, warm-up and falling prices *)

Lemma rsi_body_appends (period : Z) (st st' : Q * Q * list Q) (d : Q * Q) :
  rsi_body period st d = Ok st' ->
  exists x : Q, snd st' = snd st ++ [x].
Proof.
  destruct st as [[u dn] out], d as [d_up d_down]. unfold rsi_body. intros H.
  apply bind_Ok in H. destruct H as (ua & _ & H).
  apply bind_Ok in H. destruct H as (da & _ & H).
  apply bind_Ok in H. destruct H as (rs & _ & H).
  apply bind_Ok in H. destruct H as (x & _ & H).
  injection H as <-. now eexists.
Qed.

Lemma rsi_loop_appends (period : Z) (ds : list (Q * Q)) :
  forall st st' : Q * Q * list Q,
    for_each (rsi_body period) ds st = Ok st' ->
    exists ext : list Q, snd st' = snd st ++ ext /\ length ext = length ds.
Proof.
  induction ds as [|d ds IH]; intros st st' H.
  - injection H as <-. exists []. now rewrite app_nil_r.
  - simpl in H. apply bind_Ok in H. destruct H as (st1 & H1 & H).
    apply rsi_body_appends in H1. destruct H1 as (x & Hx).
    destruct (IH st1 st' H) as (ext & Hext & Hlen).
    exists (x :: ext). split; [|simpl; now rewrite Hlen].
    now rewrite Hext, Hx, <- app_assoc.
Qed.

(** The shape of the result on an input of at least [period+1]
    values: the placeholder block, then one value per remaining delta. *)
Lemma rsi_long_shape (values : list Q) (period : Z) :
  (1 <= period)%Z ->
  (period + 1 <= len values)%Z ->
  exists ext : list Q,
    rsi values period = Ok (replicate 50 (period + 1) ++ ext) /\
    (Z.to_nat (period + 1) + length ext = length values)%nat.
Proof.
  intros Hp Hlong.
  destruct (rsi_total values period Hp) as (out & Hrun & Hlen & _).
  unfold rsi in Hrun |- *.
  destruct (Z.ltb_spec (len values) (period + 1)); [lia|].
  apply bind_Ok in Hrun. destruct Hrun as (u & Hu & Hrun). rewrite Hu.
  apply bind_Ok in Hrun. destruct Hrun as (d0 & Hd0 & Hrun). rewrite Hd0.
  cbn [bind] in *.
  apply bind_Ok in Hrun. destruct Hrun as (st' & Hloop & Hrun).
  rewrite Hloop. cbn [bind].
  destruct (rsi_loop_appends _ _ _ _ Hloop) as (ext & Hext & _).
  destruct st' as [[u' d'] out']. simpl in Hext, Hrun. injection Hrun as <-.
  subst out'. exists ext. split; [reflexivity|].
  rewrite length_app, replicate_length in Hlen. exact Hlen.
Qed.

(** X7: for a period of at least 1, [rsi] returns one value per input
    value, and the first [period+1] of them (all of them on a shorter
    input) are the placeholder 50. *)
Theorem rsi_length_and_warm_up (values : list Q) (period : Z) :
  (1 <= period)%Z ->
  exists out : list Q,
    rsi values period = Ok out /\
    length out = length values /\
    forall i : nat,
      (Z.of_nat i < period + 1)%Z -> (i < length values)%nat ->
      nth_error out i = Some 50.
Proof.
  intros Hp. destruct (Z.lt_ge_cases (len values) (period + 1)) as [Hs|Hl].
  - exists (replicate 50 (len values)). split; [|split].
    + unfold rsi. destruct (Z.ltb_spec (len values) (period + 1)); [reflexivity | lia].
    + rewrite replicate_length. unfold len. lia.
    + intros i _ Hi. rewrite replicate_len.
      apply nth_error_repeat. exact Hi.
  - destruct (rsi_long_shape values period Hp Hl) as (ext & Hrun & Hlen).
    eexists. split; [exact Hrun|]. split.
    + rewrite length_app, replicate_length. exact Hlen.
    + intros i Hi _. rewrite nth_error_app1 by (rewrite replicate_length; lia).
      apply nth_error_repeat. lia.
Qed.

Lemma rsi_length_and_warm_up_witness :
  exists out : list Q,
    rsi [1; 2; 4; 3; 5] 2 = Ok out /\
    length out = length [1; 2; 4; 3; 5] /\
    forall i : nat,
      (Z.of_nat i < 2 + 1)%Z -> (i < length [1; 2; 4; 3; 5])%nat ->
      nth_error out i = Some 50.
Proof. apply (rsi_length_and_warm_up [1; 2; 4; 3; 5] 2). lia. Defined.

Lemma deltas_never_rises (values : list Q) :
  never_rises values -> Forall (fun d => d <= 0) (deltas values).
Proof.
  induction values as [|a [|b rest] IH]; intros H; try constructor.
  - pose proof (H 0%nat a b eq_refl eq_refl). lra.
  - apply IH. intros i x y Hx Hy. exact (H (S i) x y Hx Hy).
Qed.

Lemma sum_zeros (l : list Q) : Forall (fun u => u = 0) l -> sum l == 0.
Proof.
  intros H. rewrite sum_total.
  induction H as [|x l -> _ IH]; simpl; [reflexivity | lra].
Qed.

(** One smoothing step from a zero average of gains on a bar without
    gain: the average stays zero and the value appended is zero. *)
Lemma rsi_body_zero (period : Z) (st st' : Q * Q * list Q) (dd : Q) :
  (1 <= period)%Z ->
  rsi_inv st -> fst (fst st) == 0 -> 0 <= dd ->
  rsi_body period st (0, dd) = Ok st' ->
  rsi_inv st' /\ fst (fst st') == 0 /\
  exists x : Q, snd st' = snd st ++ [x] /\ x == 0.
Proof.
  intros Hp Hinv Hu Hdd Hrun.
  destruct (rsi_body_inv period st (0, dd) Hp (Qle_refl 0) Hdd Hinv)
    as (st1 & H1 & Hinv1 & _).
  assert (st1 = st') by congruence. subst st1. split; [exact Hinv1|].
  destruct st as [[u dn] out]. simpl in Hu. unfold rsi_body in Hrun.
  apply bind_Ok in Hrun. destruct Hrun as (ua & Hua & Hrun).
  apply bind_Ok in Hrun. destruct Hrun as (da & Hda & Hrun).
  apply bind_Ok in Hrun. destruct Hrun as (rs & Hrs & Hrun).
  apply bind_Ok in Hrun. destruct Hrun as (x & Hx & Hrun).
  injection Hrun as <-. simpl.
  apply div_inv in Hua, Hrs, Hx.
  destruct Hua as [_ ->], Hrs as [_ ->], Hx as [_ ->].
  assert (E1 : (u * inject_Z (period - 1) + 0) / inject_Z period == 0).
  { rewrite Hu. unfold Qdiv. ring. }
  split; [exact E1|]. eexists. split; [reflexivity|].
  rewrite E1.
  assert (E2 : 0 / (da + 1e-12) == 0) by (unfold Qdiv; ring).
  rewrite E2. reflexivity.
Qed.

Lemma rsi_loop_zero (period : Z) :
  (1 <= period)%Z ->
  forall (ds : list (Q * Q)) (st st' : Q * Q * list Q),
    Forall (fun d => fst d = 0 /\ 0 <= snd d) ds ->
    rsi_inv st -> fst (fst st) == 0 ->
    for_each (rsi_body period) ds st = Ok st' ->
    exists ext : list Q,
      snd st' = snd st ++ ext /\ Forall (fun x => x == 0) ext.
Proof.
  intros Hp. induction ds as [|[du dd] ds IH]; intros st st' Hds Hinv Hu Hrun.
  - injection Hrun as <-. exists []. now rewrite app_nil_r.
  - inversion Hds as [|? ? [Hdu Hdd] Hds']; subst. simpl in Hdu, Hdd. subst du.
    simpl in Hrun. apply bind_Ok in Hrun. destruct Hrun as (st1 & H1 & Hrun).
    destruct (rsi_body_zero period st st1 dd Hp Hinv Hu Hdd H1)
      as (Hinv1 & Hu1 & x & Hx & Hx0).
    destruct (IH st1 st' Hds' Hinv1 Hu1 Hrun) as (ext & Hext & Hzero).
    exists (x :: ext). split; [now rewrite Hext, Hx, <- app_assoc|].
    now constructor.
Qed.

(** X8: when the input never rises, no value [rsi] returns after the
    [period+1] placeholders is above or below 0: it is 0, unless it is
    a NaN (so a flat series gives 0, not the neutral 50). *)
Theorem rsi_falling_is_zero (values : list Q) (period : Z) :
  (1 <= period)%Z ->
  never_rises values ->
  exists out : list Q,
    rsi values period = Ok out /\
    forall (i : nat) (x : Q),
      (period + 1 <= Z.of_nat i)%Z -> nth_error out i = Some x ->
      ~ x < 0 /\ ~ 0 < x.
Proof.
  intros Hp Hfall.
  destruct (rsi_total values period Hp) as (out & Hrun & Hlen & _).
  exists out. split; [exact Hrun|].
  unfold rsi in Hrun.
  destruct (Z.ltb_spec (len values) (period + 1)) as [Hs|Hl].
  - injection Hrun as Hout. intros i x Hi Hx.
    assert (Hlt : (i < length out)%nat) by (apply nth_error_Some; congruence).
    rewrite <- Hout, replicate_length in Hlt. unfold len in *. lia.
  - set (ds := deltas values) in *.
    set (ups := map (fun d => if ltb 0 d then d else 0) ds) in *.
    set (downs := map (fun d => if ltb d 0 then - d else 0) ds) in *.
    assert (Hups : Forall (fun u => u = 0) ups).
    { apply Forall_map. apply deltas_never_rises in Hfall.
      apply (Forall_impl _ (P := fun d => d <= 0)); [|exact Hfall].
      intros d Hd. destruct (ltb 0 d) eqn:E; [|reflexivity].
      apply ltb_spec in E. lra. }
    pose proof (downs_nonneg ds) as Hdowns. fold downs in Hdowns.
    pose proof (inject_Z_pos period ltac:(lia)) as HP.
    apply bind_Ok in Hrun. destruct Hrun as (u & Hu & Hrun).
    apply bind_Ok in Hrun. destruct Hrun as (d0 & Hd0 & Hrun).
    cbn [bind] in Hrun.
    apply bind_Ok in Hrun. destruct Hrun as (st' & Hloop & Hrun).
    apply div_inv in Hu, Hd0. destruct Hu as [_ ->], Hd0 as [_ ->].
    assert (Hu0 : sum (slice_to ups period) / inject_Z period == 0).
    { rewrite sum_zeros; [unfold Qdiv; ring|]. now apply Forall_firstn_skipn. }
    assert (Hinv0 : rsi_inv (sum (slice_to ups period) / inject_Z period,
                             or_else (sum (slice_to downs period) / inject_Z period) 1e-9,
                             replicate 50 (period + 1))).
    { split; [lra|]. split.
      - unfold or_else.
        destruct (Qeq_bool (sum (slice_to downs period) / inject_Z period) 0);
          [discriminate|].
        apply Qdiv_nonneg; [|exact HP]. apply sum_nonneg.
        now apply Forall_firstn_skipn.
      - apply Forall_replicate. split; discriminate. }
    destruct (rsi_loop_zero period Hp _ _ st'
                (Forall_combine _ _ _ _
                   (proj2 (Forall_firstn_skipn _ (bound (length ups) period) _ Hups))
                   (proj2 (Forall_firstn_skipn _ (bound (length downs) period) _ Hdowns)))
                Hinv0 Hu0 Hloop)
      as (ext & Hext & Hzero).
    destruct st' as [[u' d'] out']. simpl in Hext, Hrun. injection Hrun as <-.
    subst out'. intros i x Hi Hx.
    rewrite nth_error_app2 in Hx by (rewrite replicate_length; lia).
    apply nth_error_In in Hx.
    pose proof (proj1 (Forall_forall _ _) Hzero x Hx) as Hx0.
    cbv beta in Hx0. split; lra.
Qed.

Lemma rsi_falling_is_zero_witness :
  exists out : list Q,
    rsi [5; 4; 4; 3; 3] 2 = Ok out /\
    forall (i : nat) (x : Q),
      (2 + 1 <= Z.of_nat i)%Z -> nth_error out i = Some x ->
      ~ x < 0 /\ ~ 0 < x.
Proof.
  apply (rsi_falling_is_zero [5; 4; 4; 3; 3] 2); [lia|].
  intros [|[|[|[|[|i]]]]] a b Ha Hb; simpl in Ha, Hb; try discriminate;
    injection Ha as <-; injection Hb as <-; discriminate.
Defined.

(** In binary64 the same holds on the grid: for periods 1 to 3 and
    every list of four values of [rsi_grid] that never rises. *)
Example rsi_falling_on_grid :
  forallb (fun period =>
             forallb (fun l => implb (B64.falling l)
                                 (B64.rsi_zero_after_warm_up l period))
               (B64.lists_over B64.rsi_grid 4))
    [1; 2; 3]%Z = true.
Proof. vm_compute. reflexivity. Qed.

(* ================================================================= *)
(** ** Positions and the ledger of a run *)

Lemma index_map_inv {A B : Type} (f : A -> B) (l : list A) (k : Z) (y : B) :
  (0 <= k)%Z -> index (map f l) k = Ok y ->
  exists x : A, nth_error l (Z.to_nat k) = Some x /\ y = f x.
Proof.
  intros Hk H. rewrite <- (Z2Nat.id k Hk), index_nat, nth_error_map in H.
  destruct (nth_error l (Z.to_nat k)) as [x|]; [|discriminate].
  injection H as <-. now exists x.
Qed.

(** The candle a scanned index denotes. *)
Lemma scanned_candle (candles : list Candle) (k : nat) (i : Z) :
  nth_error (scan_range candles) k = Some i ->
  i = (2 + Z.of_nat k)%Z /\
  exists c : Candle, nth_error candles (Z.to_nat i) = Some c.
Proof.
  intros Hi. pose proof (scan_range_bounds _ _ _ Hi) as Hb.
  unfold scan_range in Hi. apply range_nth_inv in Hi. split; [tauto|].
  destruct (nth_error candles (Z.to_nat i)) as [c|] eqn:E; [now exists c|].
  apply nth_error_None in E. unfold len in Hb. lia.
Qed.

Section LedgerFacts.

Variable cfg : config.
Variable candles : list Candle.
Variables ib risk_per_trade stop_loss_pct : Q.

Local Abbreviation prefix :=
  (run_prefix cfg candles ib risk_per_trade stop_loss_pct).

(** A held position was entered on a scanned candle, at its close and
    its time. *)
Lemma held_position_entry (k : nat) (st : state) :
  prefix k = Ok st ->
  forall p : Position,
    position st = Some p ->
    exists (j : nat) (i : Z) (c : Candle),
      (j < k)%nat /\
      nth_error (scan_range candles) j = Some i /\
      nth_error candles (Z.to_nat i) = Some c /\
      entry p = close c /\ entry_time p = time c.
Proof.
  revert k st.
  apply (run_prefix_ind cfg candles ib risk_per_trade stop_loss_pct
           (fun k st => forall p, position st = Some p ->
              exists j i c, (j < k)%nat /\
                nth_error (scan_range candles) j = Some i /\
                nth_error candles (Z.to_nat i) = Some c /\
                entry p = close c /\ entry_time p = time c)).
  - intros p Hp. discriminate Hp.
  - intros k st st' Hst Hst' IH p Hp.
    assert (Hsame : st' = st ->
              exists j i c, (j < S k)%nat /\
                nth_error (scan_range candles) j = Some i /\
                nth_error candles (Z.to_nat i) = Some c /\
                entry p = close c /\ entry_time p = time c).
    { intros Heq. rewrite Heq in Hp.
      destruct (IH p Hp) as (j & i & c & Hj & H).
      exists j, i, c. split; [lia | exact H]. }
    destruct (run_prefix_transition _ _ _ _ _ k st st' Hst Hst')
      as [Heq|(ef & es & rl & i & _ & Hi & Ht)]; [now apply Hsame|].
    pose proof (scan_range_bounds _ _ _ Hi) as Hb.
    inversion Ht as [ | ? ? price q t _ _ Hprice _ Htime | | ]; subst.
    + now apply Hsame.
    + simpl in Hp. injection Hp as <-. simpl.
      apply index_map_inv in Hprice; [|lia].
      apply index_map_inv in Htime; [|lia].
      destruct Hprice as (c & Hc & ->). destruct Htime as (c' & Hc' & ->).
      assert (c' = c) by congruence. subst c'.
      exists k, i, c. repeat split; [lia | exact Hi | exact Hc].
    + discriminate Hp.
    + discriminate Hp.
Qed.

End LedgerFacts.

Lemma sized_qty_divisor (r slp E price q : Q) :
  sized_qty r slp E price = Ok q -> ~ sizing_divisor slp price == 0.
Proof.
  unfold sized_qty, sizing_divisor. destruct (leb slp 0); intros H;
    apply div_inv in H; now destruct H.
Qed.

(** X9: every position a run holds has a quantity of at least [1e-8]
    (so a positive one), its stop is [entry * (1 - stop_loss_pct)], the
    divisor of its sizing was not zero (so neither was its entry price,
    for a finite stop distance), and entry price and entry time are the
    close and the time of one scanned candle. *)
Theorem position_invariant (cfg : config) (candles : list Candle)
  (ib risk_per_trade stop_loss_pct : Q) (k : nat) (st : state) (p : Position) :
  run_prefix cfg candles ib risk_per_trade stop_loss_pct k = Ok st ->
  position st = Some p ->
  1e-8 <= qty p /\
  stop p = entry p * (1 - stop_loss_pct) /\
  ~ sizing_divisor stop_loss_pct (entry p) == 0 /\
  exists (j : nat) (i : Z) (c : Candle),
    (j < k)%nat /\
    nth_error (scan_range candles) j = Some i /\
    nth_error candles (Z.to_nat i) = Some c /\
    entry p = close c /\ entry_time p = time c.
Proof.
  intros Hst Hp.
  destruct (held_position_sized _ _ _ _ _ k st Hst p Hp)
    as (_ & _ & _ & Hstop & q & Hq & Hqty).
  split; [rewrite Hqty; apply max_ge_l|].
  split; [exact Hstop|].
  split; [exact (sized_qty_divisor _ _ _ _ _ Hq)|].
  exact (held_position_entry _ _ _ _ _ k st Hst p Hp).
Qed.

Lemma position_invariant_witness :
  exists (st : state) (p : Position),
    run_prefix example_config example_candles 10 0.02 0.01 1 = Ok st /\
    position st = Some p /\
    1e-8 <= qty p /\
    stop p = entry p * (1 - 0.01) /\
    ~ sizing_divisor 0.01 (entry p) == 0 /\
    exists (j : nat) (i : Z) (c : Candle),
      (j < 1)%nat /\
      nth_error (scan_range example_candles) j = Some i /\
      nth_error example_candles (Z.to_nat i) = Some c /\
      entry p = close c /\ entry_time p = time c.
Proof.
  do 2 eexists.
  split; [vm_compute; reflexivity|].
  split; [vm_compute; reflexivity|].
  eapply (position_invariant example_config example_candles 10 0.02 0.01 1);
    vm_compute; reflexivity.
Defined.

Section LedgerShape.

Variable cfg : config.
Variable candles : list Candle.
Variables ib risk_per_trade stop_loss_pct : Q.

Local Abbreviation prefix :=
  (run_prefix cfg candles ib risk_per_trade stop_loss_pct).

Lemma ledger_well_formed (k : nat) (st : state) :
  prefix k = Ok st ->
  Forall (well_formed_trade candles stop_loss_pct) (trades_bt st).
Proof.
  revert k st.
  apply (run_prefix_ind cfg candles ib risk_per_trade stop_loss_pct
           (fun _ st => Forall (well_formed_trade candles stop_loss_pct)
                          (trades_bt st))).
  - constructor.
  - intros k st st' Hst Hst' IH.
    destruct (run_prefix_transition _ _ _ _ _ k st st' Hst Hst')
      as [Heq|(ef & es & rl & i & _ & Hi & Ht)]; [now rewrite Heq|].
    pose proof (scan_range_bounds _ _ _ Hi) as Hb.
    assert (Hclose : forall (p : Position) (ex : Q) (why : Reason) (t : Z),
               position st = Some p ->
               index (map time candles) i = Ok t ->
               match why with
               | SL => ex = stop p
               | X => index (map close candles) i = Ok ex
               end ->
               Forall (well_formed_trade candles stop_loss_pct)
                 (trades_bt (closed st p ex why t))).
    { intros p ex why t Hp Htime Hex. simpl. apply Forall_app.
      split; [exact IH|]. constructor; [|constructor].
      destruct (held_position_sized _ _ _ _ _ k st Hst p Hp)
        as (_ & _ & _ & Hstop & q & _ & Hqty).
      destruct (held_position_entry _ _ _ _ _ k st Hst p Hp)
        as (j & i0 & c_in & _ & _ & Hcin & Hentry & _).
      apply index_map_inv in Htime; [|lia].
      destruct Htime as (c_out & Hcout & ->).
      exists (qty p), c_in, c_out. simpl.
      split; [rewrite Hqty; apply max_ge_l|].
      split; [exact (nth_error_In _ _ Hcin)|].
      split; [exact (nth_error_In _ _ Hcout)|].
      split; [exact Hentry|]. split; [reflexivity|].
      split; [reflexivity|]. split; [reflexivity|].
      destruct why.
      - now rewrite Hex, Hstop.
      - apply index_map_inv in Hex; [|lia].
        destruct Hex as (c' & Hc' & ->). congruence. }
    inversion Ht as [ | | ? ? p l t Hp _ _ _ Htime
                      | ? ? p l price t Hp _ _ _ _ Hprice Htime ]; subst.
    + exact IH.
    + exact IH.
    + now apply (Hclose p (stop p) SL t).
    + now apply (Hclose p price X t).
Qed.

End LedgerShape.

(** X10: every trade [run_backtest] returns is well formed: entered at
    the close of a candle with a quantity of at least [1e-8], stamped
    with the time of the candle it was closed on, with
    [profit = q*exit - q*entry] and [balance_after = q*exit], and exited
    at [entry * (1 - stop_loss_pct)] (SL) or at the close of the exit
    candle (X). *)
Theorem ledger_trades_well_formed (cfg : config) (candles : list Candle)
  (ib risk_per_trade stop_loss_pct : Q) (res : Result) (t : Trade) :
  run_backtest cfg candles ib risk_per_trade stop_loss_pct = Ok res ->
  In t (trades res) ->
  well_formed_trade candles stop_loss_pct t.
Proof.
  intros Hres Ht. rewrite run_backtest_eq in Hres.
  apply bind_Ok in Hres. destruct Hres as (st & Hst & [= <-]). simpl in Ht.
  exact (proj1 (Forall_forall _ _)
           (ledger_well_formed _ _ _ _ _ _ st Hst) t Ht).
Qed.

Lemma ledger_trades_well_formed_witness :
  exists (res : Result) (t : Trade),
    run_backtest example_config example_candles 10 0.02 0.01 = Ok res /\
    In t (trades res) /\
    well_formed_trade example_candles 0.01 t.
Proof.
  do 2 eexists.
  split; [vm_compute; reflexivity|].
  split; [left; reflexivity|].
  eapply (ledger_trades_well_formed example_config example_candles 10 0.02 0.01);
    [vm_compute; reflexivity | left; reflexivity].
Defined.

(** X11: the profit recorded for a trade never has the sign opposite
    to [exit - entry]: a trade that exits at or above its entry price
    records no loss, and a trade that exits at or below it records no
    gain. *)
Theorem ledger_profit_sign (cfg : config) (candles : list Candle)
  (ib risk_per_trade stop_loss_pct : Q) (res : Result) (t : Trade) :
  run_backtest cfg candles ib risk_per_trade stop_loss_pct = Ok res ->
  In t (trades res) ->
  (t_entry t <= t_exit t -> ~ profit t < 0) /\
  (t_exit t <= t_entry t -> ~ 0 < profit t).
Proof.
  intros Hres Ht. rewrite run_backtest_eq in Hres.
  apply bind_Ok in Hres. destruct Hres as (st & Hst & [= <-]). simpl in Ht.
  destruct (proj1 (Forall_forall _ _)
              (ledger_well_formed _ _ _ _ _ _ st Hst) t Ht)
    as (q & c_in & c_out & Hq & _ & _ & _ & _ & Hprofit & _).
  rewrite Hprofit. assert (H8 : 0 < 1e-8) by reflexivity.
  split; intros Hle.
  - assert (0 <= q * (t_exit t - t_entry t))
      by (apply Qmult_le_0_compat; lra).
    lra.
  - assert (0 <= q * (t_entry t - t_exit t))
      by (apply Qmult_le_0_compat; lra).
    lra.
Qed.

Lemma ledger_profit_sign_witness :
  exists (res : Result) (t : Trade),
    run_backtest example_config example_candles 10 0.02 0.01 = Ok res /\
    In t (trades res) /\
    t_exit t <= t_entry t /\
    ~ 0 < profit t.
Proof.
  do 2 eexists.
  split; [vm_compute; reflexivity|].
  split; [left; reflexivity|].
  split; [vm_compute; discriminate|].
  eapply (proj2 (ledger_profit_sign example_config example_candles 10 0.02 0.01
                   _ _ ltac:(vm_compute; reflexivity) ltac:(left; reflexivity))).
  vm_compute; discriminate.
Defined.

(** X12: with a positive stop distance and no negative close, no
    stop-loss trade is recorded with a gain. *)
Theorem stop_loss_trades_never_gain (cfg : config) (candles : list Candle)
  (ib risk_per_trade stop_loss_pct : Q) (res : Result) (t : Trade) :
  0 < stop_loss_pct ->
  (forall c : Candle, In c candles -> 0 <= close c) ->
  run_backtest cfg candles ib risk_per_trade stop_loss_pct = Ok res ->
  In t (trades res) ->
  reason t = SL ->
  ~ 0 < profit t.
Proof.
  intros Hslp Hpos Hres Ht Hsl. rewrite run_backtest_eq in Hres.
  apply bind_Ok in Hres. destruct Hres as (st & Hst & [= <-]). simpl in Ht.
  destruct (proj1 (Forall_forall _ _)
              (ledger_well_formed _ _ _ _ _ _ st Hst) t Ht)
    as (q & c_in & c_out & Hq & Hin & _ & Hentry & _ & Hprofit & _ & Hexit).
  rewrite Hsl in Hexit. rewrite Hprofit, Hexit, Hentry.
  specialize (Hpos c_in Hin). assert (H8 : 0 < 1e-8) by reflexivity.
  assert (0 <= close c_in * stop_loss_pct) by (apply Qmult_le_0_compat; lra).
  assert (0 <= q * (close c_in * stop_loss_pct))
    by (apply Qmult_le_0_compat; lra).
  lra.
Qed.

Lemma stop_loss_trades_never_gain_witness :
  exists (res : Result) (t : Trade),
    run_backtest example_config example_candles 10 0.02 0.01 = Ok res /\
    In t (trades res) /\ reason t = SL /\ ~ 0 < profit t.
Proof.
  do 2 eexists.
  split; [vm_compute; reflexivity|].
  split; [left; reflexivity|].
  split; [reflexivity|].
  eapply (stop_loss_trades_never_gain example_config example_candles 10 0.02 0.01);
    [reflexivity | | vm_compute; reflexivity | left; reflexivity | reflexivity].
  intros c Hc. repeat (destruct Hc as [<-|Hc]; [discriminate|]). destruct Hc.
Defined.

(** X26: with an initial balance, closes and a stop price that are not
    negative (a stop distance of at most 1), the balance never goes
    below zero: neither a recorded [balance_after] nor the final
    balance is negative. *)
Theorem balance_never_negative (cfg : config) (candles : list Candle)
  (ib risk_per_trade stop_loss_pct : Q) (res : Result) :
  0 <= ib -> stop_loss_pct <= 1 ->
  (forall c : Candle, In c candles -> 0 <= close c) ->
  run_backtest cfg candles ib risk_per_trade stop_loss_pct = Ok res ->
  ~ final_balance res < 0 /\
  forall t : Trade, In t (trades res) -> ~ balance_after t < 0.
Proof.
  intros Hib Hslp Hpos Hres.
  assert (Hbal : forall t : Trade, In t (trades res) -> 0 <= balance_after t).
  { rewrite run_backtest_eq in Hres.
    apply bind_Ok in Hres. destruct Hres as (st & Hst & [= <-]). simpl.
    intros t Ht.
    destruct (proj1 (Forall_forall _ _)
                (ledger_well_formed _ _ _ _ _ _ st Hst) t Ht)
      as (q & c_in & c_out & Hq & Hin & Hout & Hentry & _ & _ & Hb & Hexit).
    assert (H8 : 0 < 1e-8) by reflexivity.
    rewrite Hb. apply Qmult_le_0_compat; [lra|].
    destruct (reason t).
    - rewrite Hexit, Hentry. apply Qmult_le_0_compat; [now apply Hpos | lra].
    - rewrite Hexit. now apply Hpos. }
  split.
  - assert (Hfin : final_balance res = last (map balance_after (trades res)) ib).
    { rewrite run_backtest_eq in Hres.
      apply bind_Ok in Hres. destruct Hres as (st & Hst & [= <-]). simpl.
      exact (equity_is_last_balance _ _ _ _ _ _ st Hst). }
    rewrite Hfin.
    destruct (trades res) as [|t0 ts] eqn:E; [simpl; lra|].
    assert (Hin : In (last (map balance_after (t0 :: ts)) ib)
                     (map balance_after (t0 :: ts))).
    { destruct (exists_last (l := map balance_after (t0 :: ts)) ltac:(discriminate))
        as (l' & x & Hl). rewrite Hl, last_last. apply in_or_app. right. now left. }
    apply in_map_iff in Hin. destruct Hin as (t & <- & Ht).
    pose proof (Hbal t Ht). lra.
  - intros t Ht. pose proof (Hbal t Ht). lra.
Qed.

Lemma balance_never_negative_witness :
  exists res : Result,
    run_backtest example_config example_candles 10 0.02 0.01 = Ok res /\
    ~ final_balance res < 0 /\
    forall t : Trade, In t (trades res) -> ~ balance_after t < 0.
Proof.
  eexists. split; [vm_compute; reflexivity|].
  apply (balance_never_negative example_config example_candles 10 0.02 0.01);
    [discriminate | discriminate | | vm_compute; reflexivity].
  intros c Hc. repeat (destruct Hc as [<-|Hc]; [discriminate|]). destruct Hc.
Defined.

(** In binary64 the three statements on signs hold on the grid: for
    each setting of [engine_params] and every list of five closes of
    [engine_grid]. *)
Example run_signs_on_grid :
  forallb (fun p => forallb (B64.run_signs_ok p)
                      (B64.lists_over B64.engine_grid 5))
    B64.engine_params = true.
Proof. vm_compute. reflexivity. Qed.

Section LedgerOrder.

Variable cfg : config.
Variable candles : list Candle.
Variables ib risk_per_trade stop_loss_pct : Q.

Local Abbreviation prefix :=
  (run_prefix cfg candles ib risk_per_trade stop_loss_pct).

(** After [k] iterations every trade is stamped by a candle below
    [2 + k], and a later ledger entry by a later candle. *)
Lemma ledger_order (k : nat) (st : state) :
  prefix k = Ok st ->
  (forall (a : nat) (t : Trade),
      nth_error (trades_bt st) a = Some t ->
      exists n : nat, (n < 2 + k)%nat /\ stamped_by candles n t) /\
  (forall (a b : nat) (ta tb : Trade),
      (a < b)%nat ->
      nth_error (trades_bt st) a = Some ta ->
      nth_error (trades_bt st) b = Some tb ->
      exists na nb : nat,
        (na < nb)%nat /\ stamped_by candles na ta /\ stamped_by candles nb tb).
Proof.
  revert k st.
  apply (run_prefix_ind cfg candles ib risk_per_trade stop_loss_pct
           (fun k st =>
              (forall a t, nth_error (trades_bt st) a = Some t ->
                 exists n, (n < 2 + k)%nat /\ stamped_by candles n t) /\
              (forall a b ta tb, (a < b)%nat ->
                 nth_error (trades_bt st) a = Some ta ->
                 nth_error (trades_bt st) b = Some tb ->
                 exists na nb, (na < nb)%nat /\ stamped_by candles na ta /\
                               stamped_by candles nb tb))).
  - split; intros; destruct a; discriminate.
  - intros k st st' Hst Hst' [IH1 IH2].
    assert (Hweak : forall a t, nth_error (trades_bt st) a = Some t ->
              exists n, (n < 2 + S k)%nat /\ stamped_by candles n t).
    { intros a t Ha. destruct (IH1 a t Ha) as (n & Hn & Hs).
      exists n. split; [lia | exact Hs]. }
    destruct (run_prefix_transition _ _ _ _ _ k st st' Hst Hst')
      as [Heq|(ef & es & rl & i & _ & Hi & Ht)];
      [rewrite Heq; split; [exact Hweak | exact IH2]|].
    destruct (scanned_candle _ _ _ Hi) as (Hik & _).
    assert (Hclose : forall (p : Position) (ex : Q) (why : Reason) (t : Z),
               index (map time candles) i = Ok t ->
               (forall a t0, nth_error (trades_bt (closed st p ex why t)) a = Some t0 ->
                  exists n, (n < 2 + S k)%nat /\ stamped_by candles n t0) /\
               (forall a b ta tb, (a < b)%nat ->
                  nth_error (trades_bt (closed st p ex why t)) a = Some ta ->
                  nth_error (trades_bt (closed st p ex why t)) b = Some tb ->
                  exists na nb, (na < nb)%nat /\ stamped_by candles na ta /\
                                stamped_by candles nb tb)).
    { intros p ex why t Htime.
      apply index_map_inv in Htime; [|lia].
      destruct Htime as (c & Hc & ->).
      replace (Z.to_nat i) with (2 + k)%nat in Hc by lia.
      set (new := {| t_time := time c; t_symbol := String.EmptyString;
                     t_entry := entry p; t_exit := ex;
                     profit := qty p * ex - qty p * entry p;
                     balance_after := qty p * ex; reason := why |}).
      assert (Hnew : stamped_by candles (2 + k) new) by (now exists c).
      assert (Hlook : forall a t0,
                 nth_error (trades_bt st ++ [new]) a = Some t0 ->
                 (a < length (trades_bt st))%nat /\
                 nth_error (trades_bt st) a = Some t0 \/
                 a = length (trades_bt st) /\ t0 = new).
      { intros a t0 Ha.
        destruct (Nat.lt_ge_cases a (length (trades_bt st))) as [Hlt|Hge].
        - left. rewrite nth_error_app1 in Ha by exact Hlt. now split.
        - right. rewrite nth_error_app2 in Ha by exact Hge.
          destruct (a - length (trades_bt st))%nat as [|m] eqn:E.
          + injection Ha as <-. split; [lia | reflexivity].
          + destruct m; discriminate. }
      simpl trades_bt. fold new. split.
      - intros a t0 Ha. destruct (Hlook a t0 Ha) as [[_ Hold]|[_ ->]].
        + now apply (Hweak a).
        + exists (2 + k)%nat. split; [lia | exact Hnew].
      - intros a b ta tb Hab Ha Hb.
        destruct (Hlook b tb Hb) as [[Hblt Hbold]|[Hbeq ->]].
        + destruct (Hlook a ta Ha) as [[_ Haold]|[Haeq _]]; [|lia].
          exact (IH2 a b ta tb Hab Haold Hbold).
        + destruct (Hlook a ta Ha) as [[_ Haold]|[Haeq _]]; [|lia].
          destruct (IH1 a ta Haold) as (na & Hna & Hsa).
          exists na, (2 + k)%nat. split; [lia|]. now split. }
    inversion Ht as [ | | ? ? p l t _ _ _ _ Htime
                      | ? ? p l price t _ _ _ _ _ _ Htime ]; subst.
    + split; [exact Hweak | exact IH2].
    + split; [exact Hweak | exact IH2].
    + now apply Hclose.
    + now apply Hclose.
Qed.

(** Entering and leaving take a bar each. *)
Lemma ledger_count (k : nat) (st : state) :
  prefix k = Ok st ->
  (2 * length (trades_bt st) + holding st
   <= Nat.min k (length (scan_range candles)))%nat.
Proof.
  revert k st.
  apply (run_prefix_ind cfg candles ib risk_per_trade stop_loss_pct
           (fun k st => (2 * length (trades_bt st) + holding st
                         <= Nat.min k (length (scan_range candles)))%nat)).
  - unfold holding. simpl. lia.
  - intros k st st' Hst Hst' IH.
    destruct (run_prefix_transition _ _ _ _ _ k st st' Hst Hst')
      as [Heq|(ef & es & rl & i & _ & Hi & Ht)]; [rewrite Heq; lia|].
    assert (Hk : (k < length (scan_range candles))%nat)
      by (apply nth_error_Some; congruence).
    rewrite Nat.min_l in IH |- * by lia.
    unfold holding in *.
    inversion Ht as [ | ? ? ? ? ? Hp | ? ? ? ? ? Hp | ? ? ? ? ? ? Hp ]; subst;
      try rewrite Hp in IH; cbn [closed position trades_bt];
      rewrite ?length_app; cbn [length]; lia.
Qed.

(** The ledger only grows. *)
Lemma ledger_grows (k m : nat) (st st' : state) :
  prefix k = Ok st ->
  prefix (k + m) = Ok st' ->
  exists ext : list Trade, trades_bt st' = trades_bt st ++ ext.
Proof.
  intros Hst. revert st'. induction m as [|m IH]; intros st' Hst'.
  - rewrite Nat.add_0_r in Hst'. assert (st' = st) by congruence. subst.
    exists []. now rewrite app_nil_r.
  - rewrite Nat.add_succ_r in Hst'.
    destruct (run_prefix_defined _ _ _ _ _ (k + m) st' Hst') as (st1 & Hst1).
    destruct (IH st1 Hst1) as (ext & Hext).
    destruct (run_prefix_transition _ _ _ _ _ (k + m) st1 st' Hst1 Hst')
      as [Heq|(ef & es & rl & i & _ & _ & Ht)]; [rewrite Heq; now exists ext|].
    inversion Ht; subst; simpl; try (now exists ext).
    + eexists. rewrite Hext, <- app_assoc. reflexivity.
    + eexists. rewrite Hext, <- app_assoc. reflexivity.
Qed.

End LedgerOrder.

Lemma scan_range_length (candles : list Candle) :
  length (scan_range candles) = (length candles - 3)%nat.
Proof.
  unfold scan_range. rewrite range_length. unfold len.
  rewrite length_map. lia.
Qed.

(** X13: the ledger follows the order of the bars: of two recorded
    trades, the later one carries the time of a later candle; so when
    the candle times never go back, neither do the trade times. *)
Theorem ledger_follows_bar_order (cfg : config) (candles : list Candle)
  (ib risk_per_trade stop_loss_pct : Q) (res : Result) :
  run_backtest cfg candles ib risk_per_trade stop_loss_pct = Ok res ->
  (forall (a b : nat) (ta tb : Trade),
      (a < b)%nat ->
      nth_error (trades res) a = Some ta ->
      nth_error (trades res) b = Some tb ->
      exists na nb : nat,
        (na < nb)%nat /\ stamped_by candles na ta /\ stamped_by candles nb tb) /\
  (nondecreasing (map time candles) ->
   nondecreasing (map t_time (trades res))).
Proof.
  intros Hres. rewrite run_backtest_eq in Hres.
  apply bind_Ok in Hres. destruct Hres as (st & Hst & [= <-]). simpl.
  destruct (ledger_order _ _ _ _ _ _ st Hst) as [_ Hpairs].
  split; [exact Hpairs|].
  intros Hsorted a b x y Hab Hx Hy.
  rewrite nth_error_map in Hx, Hy.
  destruct (nth_error (trades_bt st) a) as [ta|] eqn:Ea; [|discriminate].
  destruct (nth_error (trades_bt st) b) as [tb|] eqn:Eb; [|discriminate].
  injection Hx as <-. injection Hy as <-.
  destruct (Nat.eq_dec a b) as [->|Hne].
  - assert (ta = tb) by congruence. subst. lia.
  - destruct (Hpairs a b ta tb ltac:(lia) Ea Eb)
      as (na & nb & Hn & (ca & Hca & ->) & (cb & Hcb & ->)).
    apply (Hsorted na nb); [lia | |]; rewrite nth_error_map.
    + now rewrite Hca.
    + now rewrite Hcb.
Qed.

Lemma ledger_follows_bar_order_witness :
  exists (res : Result) (ta tb : Trade),
    run_backtest default_config two_trade_candles 10 0.02 0.01 = Ok res /\
    nth_error (trades res) 0 = Some ta /\
    nth_error (trades res) 1 = Some tb /\
    (exists na nb : nat,
        (na < nb)%nat /\
        stamped_by two_trade_candles na ta /\
        stamped_by two_trade_candles nb tb) /\
    nondecreasing (map time two_trade_candles) /\
    nondecreasing (map t_time (trades res)).
Proof.
  do 3 eexists.
  split; [vm_compute; reflexivity|].
  split; [vm_compute; reflexivity|].
  split; [vm_compute; reflexivity|].
  assert (Hs : nondecreasing (map time two_trade_candles)).
  { assert (Ht : forall n x, nth_error (map time two_trade_candles) n = Some x ->
                             x = Z.of_nat n).
    { intros n x Hx.
      do 10 (destruct n as [|n]; [now injection Hx as <-|]).
      destruct n; discriminate. }
    intros a b x y Hab Hx Hy.
    apply Ht in Hx, Hy. lia. }
  split.
  - apply (proj1 (ledger_follows_bar_order default_config two_trade_candles
                    10 0.02 0.01 _ ltac:(vm_compute; reflexivity))
             0%nat 1%nat); [lia | vm_compute; reflexivity | vm_compute; reflexivity].
  - split; [exact Hs|].
    apply (proj2 (ledger_follows_bar_order default_config two_trade_candles
                    10 0.02 0.01 _ ltac:(vm_compute; reflexivity))).
    exact Hs.
Defined.

(** X14: entering and leaving take one bar each and only bars 2 to
    [len-2] are scanned, so a run over [n] candles records at most
    [(n-3)/2] trades. *)
Theorem trade_count_bound (cfg : config) (candles : list Candle)
  (ib risk_per_trade stop_loss_pct : Q) (res : Result) :
  run_backtest cfg candles ib risk_per_trade stop_loss_pct = Ok res ->
  (2 * length (trades res) <= length candles - 3)%nat.
Proof.
  intros Hres. rewrite run_backtest_eq in Hres.
  apply bind_Ok in Hres. destruct Hres as (st & Hst & [= <-]). simpl.
  pose proof (ledger_count _ _ _ _ _ _ st Hst) as H.
  rewrite scan_range_length in H. lia.
Qed.

Lemma trade_count_bound_witness :
  exists res : Result,
    run_backtest example_config example_candles 10 0.02 0.01 = Ok res /\
    (2 * length (trades res) <= length example_candles - 3)%nat.
Proof.
  eexists. split; [vm_compute; reflexivity|].
  apply (trade_count_bound example_config example_candles 10 0.02 0.01).
  vm_compute; reflexivity.
Defined.

(** X15: the ledger is append-only: what is recorded after [k]
    iterations is a prefix of what is recorded after any later
    iteration, and of the ledger the run returns. *)
Theorem ledger_append_only (cfg : config) (candles : list Candle)
  (ib risk_per_trade stop_loss_pct : Q) (k : nat) (st : state) :
  run_prefix cfg candles ib risk_per_trade stop_loss_pct k = Ok st ->
  (forall (k' : nat) (st' : state),
      (k <= k')%nat ->
      run_prefix cfg candles ib risk_per_trade stop_loss_pct k' = Ok st' ->
      exists ext : list Trade, trades_bt st' = trades_bt st ++ ext) /\
  (forall res : Result,
      (k <= length (scan_range candles))%nat ->
      run_backtest cfg candles ib risk_per_trade stop_loss_pct = Ok res ->
      exists ext : list Trade, trades res = trades_bt st ++ ext).
Proof.
  intros Hst.
  assert (H1 : forall k' st', (k <= k')%nat ->
             run_prefix cfg candles ib risk_per_trade stop_loss_pct k' = Ok st' ->
             exists ext, trades_bt st' = trades_bt st ++ ext).
  { intros k' st' Hk Hst'.
    replace k' with (k + (k' - k))%nat in Hst' by lia.
    exact (ledger_grows _ _ _ _ _ k (k' - k) st st' Hst Hst'). }
  split; [exact H1|].
  intros res Hk Hres. rewrite run_backtest_eq in Hres.
  apply bind_Ok in Hres. destruct Hres as (st' & Hst' & [= <-]). simpl.
  exact (H1 _ st' Hk Hst').
Qed.

Lemma ledger_append_only_witness :
  exists (st : state) (res : Result),
    run_prefix example_config example_candles 10 0.02 0.01 2 = Ok st /\
    run_backtest example_config example_candles 10 0.02 0.01 = Ok res /\
    exists ext : list Trade, trades res = trades_bt st ++ ext.
Proof.
  do 2 eexists.
  split; [vm_compute; reflexivity|].
  split; [vm_compute; reflexivity|].
  apply (proj2 (ledger_append_only example_config example_candles
                  10 0.02 0.01 2 _ ltac:(vm_compute; reflexivity)));
    [vm_compute; lia | vm_compute; reflexivity].
Defined.

(* ================================================================= *)
(** ** Exceptions of a run *)

Lemma no_index_error_bind {A B : Type} (c : res A) (k : A -> res B) :
  no_index_error c ->
  (forall a : A, c = Ok a -> no_index_error (k a)) ->
  no_index_error (bind c k).
Proof.
  unfold no_index_error. intros Hc Hk. destruct c as [a|e]; simpl.
  - now apply Hk.
  - intros [= ->]. now apply Hc.
Qed.

Lemma no_index_error_for_each {A S : Type} (body : S -> A -> res S) (l : list A) :
  (forall (s : S) (x : A), In x l -> no_index_error (body s x)) ->
  forall s : S, no_index_error (for_each body l s).
Proof.
  induction l as [|x l IH]; intros H s; simpl; [discriminate|].
  apply no_index_error_bind; [apply H; now left|].
  intros s1 _. apply IH. intros s' y Hy. apply H. now right.
Qed.

Lemma no_index_error_div (a b : Q) : no_index_error (div a b).
Proof. unfold no_index_error, div. destruct (Qeq_bool b 0); discriminate. Qed.

Lemma no_index_error_Ok {A : Type} (a : A) : no_index_error (Ok a).
Proof. discriminate. Qed.

Lemma ema_no_index_error (values : list Q) (span : Z) :
  no_index_error (ema values span).
Proof.
  destruct values as [|v0 rest]; [discriminate|]. unfold ema.
  apply no_index_error_bind.
  { unfold no_index_error, float_of_int.
    destruct (float_max_int <=? Z.abs (span + 1))%Z; discriminate. }
  intros d _.
  apply no_index_error_bind; [apply no_index_error_div|].
  intros alpha _. change [v0] with ([] ++ [v0]).
  rewrite ema_loop_from. discriminate.
Qed.

Lemma rsi_no_index_error (values : list Q) (period : Z) :
  no_index_error (rsi values period).
Proof.
  unfold rsi. destruct (len values <? period + 1)%Z; [discriminate|].
  apply no_index_error_bind; [apply no_index_error_div|]. intros u _.
  apply no_index_error_bind; [apply no_index_error_div|]. intros d0 _.
  apply no_index_error_bind.
  - apply no_index_error_for_each. intros [[ua da] out] [du dd] _.
    unfold rsi_body.
    apply no_index_error_bind; [apply no_index_error_div|]. intros ? _.
    apply no_index_error_bind; [apply no_index_error_div|]. intros ? _.
    apply no_index_error_bind; [apply no_index_error_div|]. intros ? _.
    apply no_index_error_bind; [apply no_index_error_div|]. intros ? _.
    discriminate.
  - intros [[ua da] out] _. discriminate.
Qed.

(** The ATR of a run is always computed. *)
Lemma atr_of_run_defined (candles : list Candle) :
  exists atr_list : list Q,
    (if (20 <? len (map close candles))%Z
     then atr (map high candles) (map low candles) (map close candles) 14
     else Ok (replicate 0 (len (map close candles)))) = Ok atr_list.
Proof.
  destruct (20 <? len (map close candles))%Z; [|now eexists].
  unfold atr.
  rewrite (atr_loop (map high candles) (map low candles) (map close candles)
             (range 1 (len (map close candles))) []).
  - cbn [bind]. rewrite sma_returns by lia. now eexists.
  - apply Forall_forall. intros i Hi. apply range_bounds in Hi.
    unfold len in *. rewrite !length_map in *. lia.
Qed.

Section BodyFacts.

Variable cfg : config.
Variables risk_per_trade stop_loss_pct : Q.
Variables closes lows volumes : list Q.
Variable times : list Z.
Variables ema_fast ema_slow rsi_list : list Q.

(** The iteration from the flat state, once every subscript is known
    to be in range. *)
Lemma loop_body_flat (st : state) (i : Z)
  (price f_now f_prev s_now s_prev rv : Q) (vok : bool) :
  index closes i = Ok price ->
  skipped ema_fast ema_slow rsi_list i = false ->
  index ema_fast (i - 1) = Ok f_now ->
  index ema_fast (i - 2) = Ok f_prev ->
  index ema_slow (i - 1) = Ok s_now ->
  index ema_slow (i - 2) = Ok s_prev ->
  vol_ok cfg volumes i = Ok vok ->
  index rsi_list (i - 1) = Ok rv ->
  position st = None ->
  loop_body cfg risk_per_trade stop_loss_pct closes lows volumes times
    ema_fast ema_slow rsi_list st i
  = if leb f_prev s_prev && ltb s_now f_now && vok && (ltb 25 rv && ltb rv 75)
    then open_position risk_per_trade stop_loss_pct times st price i
    else Ok st.
Proof.
  intros Hc Hskip Hfn Hfp Hsn Hsp Hv Hr Hp. unfold loop_body.
  rewrite Hc; cbn [bind]. rewrite Hskip, Hfn; cbn [bind].
  rewrite Hfp; cbn [bind]. rewrite Hsn; cbn [bind]. rewrite Hsp; cbn [bind].
  rewrite Hv; cbn [bind]. rewrite Hr; cbn [bind]. now rewrite Hp.
Qed.

Lemma loop_body_skipped (st : state) (i : Z) (price : Q) :
  index closes i = Ok price ->
  skipped ema_fast ema_slow rsi_list i = true ->
  loop_body cfg risk_per_trade stop_loss_pct closes lows volumes times
    ema_fast ema_slow rsi_list st i = Ok st.
Proof.
  intros Hc Hskip. unfold loop_body. rewrite Hc; cbn [bind]. now rewrite Hskip.
Qed.

End BodyFacts.

(** The subscripts of an iteration the guard lets through are all in
    range. *)
Lemma scan_lookups (cfg : config) (candles : list Candle)
  (ema_fast ema_slow rsi_list : list Q) (k : nat) (i : Z) :
  indicators cfg candles = Ok (ema_fast, ema_slow, rsi_list) ->
  nth_error (scan_range candles) k = Some i ->
  skipped ema_fast ema_slow rsi_list i = false ->
  exists (c : Candle) (f_now f_prev s_now s_prev rv : Q) (vok : bool),
    nth_error candles (Z.to_nat i) = Some c /\
    index ema_fast (i - 1) = Ok f_now /\
    index ema_fast (i - 2) = Ok f_prev /\
    index ema_slow (i - 1) = Ok s_now /\
    index ema_slow (i - 2) = Ok s_prev /\
    vol_ok cfg (map volume candles) i = Ok vok /\
    index rsi_list (i - 1) = Ok rv.
Proof.
  intros Hind Hi Hskip.
  pose proof (scan_range_bounds _ _ _ Hi) as Hb.
  destruct (scanned_candle _ _ _ Hi) as (_ & c & Hc).
  destruct (indicators_lengths _ _ _ _ _ Hind) as (Hf & Hs & _).
  assert (Hrl : (i - 1 < len rsi_list)%Z).
  { unfold skipped in Hskip. apply orb_false_iff in Hskip.
    destruct Hskip as [_ H]. apply Z.leb_gt in H. exact H. }
  destruct (index_in_range ema_fast (i - 1)) as (f_now & Hfn & _);
    [unfold len in *; lia|].
  destruct (index_in_range ema_fast (i - 2)) as (f_prev & Hfp & _);
    [unfold len in *; lia|].
  destruct (index_in_range ema_slow (i - 1)) as (s_now & Hsn & _);
    [unfold len in *; lia|].
  destruct (index_in_range ema_slow (i - 2)) as (s_prev & Hsp & _);
    [unfold len in *; lia|].
  destruct (index_in_range rsi_list (i - 1)) as (rv & Hrv & _); [lia|].
  destruct (vol_ok_defined cfg (map volume candles) i) as (vok & Hv).
  { unfold len in *. rewrite length_map. lia. }
  now exists c, f_now, f_prev, s_now, s_prev, rv, vok.
Qed.

Lemma for_each_defined {A S : Type} (body : S -> A -> res S) (l : list A) :
  (forall (s : S) (x : A), In x l -> exists s' : S, body s x = Ok s') ->
  forall s : S, exists s' : S, for_each body l s = Ok s'.
Proof.
  induction l as [|x l IH]; intros H s; simpl; [now exists s|].
  destruct (H s x (or_introl eq_refl)) as (s1 & ->). cbn [bind].
  apply IH. intros s' y Hy. apply H. now right.
Qed.

Lemma open_position_cases (risk_per_trade stop_loss_pct : Q) (times : list Z)
  (st : state) (price : Q) (i t : Z) :
  index times i = Ok t ->
  (exists st' : state,
      open_position risk_per_trade stop_loss_pct times st price i = Ok st') \/
  (open_position risk_per_trade stop_loss_pct times st price i
   = Raise ZeroDivisionError /\ sizing_divisor stop_loss_pct price == 0).
Proof.
  intros Ht. unfold open_position, sizing_divisor.
  destruct (leb stop_loss_pct 0); unfold div.
  - destruct (Qeq_bool price 0) eqn:E.
    + right. split; [reflexivity | now apply Qeq_bool_iff].
    + left. cbn [bind]. rewrite Ht. cbn [bind]. now eexists.
  - destruct (Qeq_bool (price * stop_loss_pct) 0) eqn:E.
    + right. split; [reflexivity | now apply Qeq_bool_iff].
    + left. cbn [bind]. rewrite Ht. cbn [bind]. now eexists.
Qed.

(** An iteration of a run returns, unless it sizes a position with a
    zero divisor. *)
Lemma body_of_cases (cfg : config) (candles : list Candle)
  (risk_per_trade stop_loss_pct : Q) (ema_fast ema_slow rsi_list : list Q)
  (k : nat) (i : Z) (st : state) :
  indicators cfg candles = Ok (ema_fast, ema_slow, rsi_list) ->
  nth_error (scan_range candles) k = Some i ->
  (exists st' : state,
      body_of cfg candles risk_per_trade stop_loss_pct
        (ema_fast, ema_slow, rsi_list) st i = Ok st') \/
  (body_of cfg candles risk_per_trade stop_loss_pct
     (ema_fast, ema_slow, rsi_list) st i = Raise ZeroDivisionError /\
   exists c : Candle,
     nth_error candles (Z.to_nat i) = Some c /\
     sizing_divisor stop_loss_pct (close c) == 0).
Proof.
  intros Hind Hi. unfold body_of.
  pose proof (scan_range_bounds _ _ _ Hi) as Hb.
  destruct (scanned_candle _ _ _ Hi) as (_ & c0 & Hc0).
  assert (Hprice : index (map close candles) i = Ok (close c0))
    by (apply index_map; [lia | exact Hc0]).
  destruct (skipped ema_fast ema_slow rsi_list i) eqn:Hskip.
  { left. exists st. now apply (loop_body_skipped _ _ _ _ _ _ _ _ _ _ _ _ (close c0)). }
  destruct (scan_lookups _ _ _ _ _ k i Hind Hi Hskip)
    as (c & f_now & f_prev & s_now & s_prev & rv & vok
        & Hc & Hfn & Hfp & Hsn & Hsp & Hv & Hrv).
  assert (c = c0) by congruence. subst c0.
  assert (Hlow : index (map low candles) i = Ok (low c))
    by (apply index_map; [lia | exact Hc]).
  assert (Htime : index (map time candles) i = Ok (time c))
    by (apply index_map; [lia | exact Hc]).
  destruct (position st) as [p|] eqn:Hp.
  - left.
    rewrite (loop_body_holding cfg risk_per_trade stop_loss_pct _ _ _ _ _ _ _
               st i p (close c) f_now f_prev s_now s_prev rv (low c) vok (time c));
      try assumption.
    destruct (leb (low c) (stop p)); [now eexists|].
    destruct (leb s_prev f_prev && ltb f_now s_now); now eexists.
  - rewrite (loop_body_flat cfg risk_per_trade stop_loss_pct _ _ _ _ _ _ _
               st i (close c) f_now f_prev s_now s_prev rv vok);
      try assumption.
    destruct (leb f_prev s_prev && ltb s_now f_now && vok
              && (ltb 25 rv && ltb rv 75)); [|left; now exists st].
    destruct (open_position_cases risk_per_trade stop_loss_pct
                (map time candles) st (close c) i (time c) Htime)
      as [H|[H H0]]; [now left|].
    right. split; [exact H|]. now exists c.
Qed.

Lemma indicators_no_index_error (cfg : config) (candles : list Candle) :
  no_index_error (indicators cfg candles).
Proof.
  unfold indicators.
  apply no_index_error_bind; [apply ema_no_index_error|]. intros ef _.
  apply no_index_error_bind; [apply ema_no_index_error|]. intros es _.
  apply no_index_error_bind; [apply rsi_no_index_error|]. intros rl _.
  destruct (atr_of_run_defined candles) as (al & ->). discriminate.
Qed.

(** X16: whatever the configuration and the candles, [run_backtest]
    never raises IndexError: every subscript of the loop is within the
    lists, also when the guard of line 155 is what keeps it there. *)
Theorem run_backtest_never_index_error (cfg : config) (candles : list Candle)
  (ib risk_per_trade stop_loss_pct : Q) :
  run_backtest cfg candles ib risk_per_trade stop_loss_pct
  <> Raise IndexError.
Proof.
  rewrite run_backtest_eq.
  apply (no_index_error_bind
           (run_prefix cfg candles ib risk_per_trade stop_loss_pct
              (length (scan_range candles)))); [|discriminate].
  unfold run_prefix.
  apply no_index_error_bind; [apply indicators_no_index_error|].
  intros [[ef es] rl] Hind. rewrite firstn_all.
  apply no_index_error_for_each. intros st i Hi.
  apply In_nth_error in Hi. destruct Hi as (k & Hk).
  destruct (body_of_cases cfg candles risk_per_trade stop_loss_pct
              ef es rl k i st Hind Hk) as [(st' & ->)|[-> _]]; discriminate.
Qed.

Lemma indicators_defined (cfg : config) (candles : list Candle) :
  EMA_FAST cfg <> (-1)%Z -> fits_float (EMA_FAST cfg + 1) ->
  EMA_SLOW cfg <> (-1)%Z -> fits_float (EMA_SLOW cfg + 1) ->
  (1 <= RSI_PERIOD cfg)%Z ->
  exists ind : list Q * list Q * list Q, indicators cfg candles = Ok ind.
Proof.
  intros Hf Hff Hs Hsf Hp. unfold indicators.
  destruct (ema_defined (map close candles) _ Hf Hff) as (ef & ->).
  destruct (ema_defined (map close candles) _ Hs Hsf) as (es & ->).
  destruct (rsi_total (map close candles) _ Hp) as (rl & -> & _).
  cbn [bind]. destruct (atr_of_run_defined candles) as (al & ->).
  cbn [bind]. now eexists.
Qed.

(** X17: when neither span is [-1], the successor of each span converts
    to a float, RSI_PERIOD is at least 1 and the divisor of the sizing
    (the close when the stop distance is not positive, else the product
    of the close and the stop distance, as computed) is zero at no
    candle, [run_backtest] raises nothing: it returns a result for every
    balance and risk fraction. *)
Theorem run_backtest_returns (cfg : config) (candles : list Candle)
  (ib risk_per_trade stop_loss_pct : Q) :
  EMA_FAST cfg <> (-1)%Z -> fits_float (EMA_FAST cfg + 1) ->
  EMA_SLOW cfg <> (-1)%Z -> fits_float (EMA_SLOW cfg + 1) ->
  (1 <= RSI_PERIOD cfg)%Z ->
  (forall c : Candle,
      In c candles -> ~ sizing_divisor stop_loss_pct (close c) == 0) ->
  exists res : Result,
    run_backtest cfg candles ib risk_per_trade stop_loss_pct = Ok res /\
    initial_balance res = ib.
Proof.
  intros Hf Hff Hs Hsf Hp Hnz.
  destruct (indicators_defined cfg candles Hf Hff Hs Hsf Hp)
    as ([[ef es] rl] & Hind).
  rewrite run_backtest_eq. unfold run_prefix. rewrite Hind, firstn_all.
  cbn [bind].
  destruct (for_each_defined
              (body_of cfg candles risk_per_trade stop_loss_pct (ef, es, rl))
              (scan_range candles)) with (s := initial_state ib) as (st & ->).
  - intros st i Hi. apply In_nth_error in Hi. destruct Hi as (k & Hk).
    destruct (body_of_cases cfg candles risk_per_trade stop_loss_pct
                ef es rl k i st Hind Hk) as [H|[_ (c & Hc & H0)]];
      [exact H|].
    exfalso. exact (Hnz c (nth_error_In _ _ Hc) H0).
  - cbn [bind]. now eexists.
Qed.

Lemma run_backtest_returns_witness :
  exists res : Result,
    run_backtest default_config flat_candles 10 0.02 0.01 = Ok res /\
    initial_balance res = 10.
Proof.
  apply (run_backtest_returns default_config flat_candles 10 0.02 0.01);
    try (simpl; lia); try (vm_compute; reflexivity).
  intros c Hc. unfold flat_candles in Hc. apply in_map_iff in Hc.
  destruct Hc as (n & <- & _). discriminate.
Defined.

Lemma index_inv_nth {A : Type} (l : list A) (k : Z) (x : A) :
  index l k = Ok x -> (0 <= k)%Z -> nth_error l (Z.to_nat k) = Some x.
Proof.
  intros H Hk. rewrite <- (Z2Nat.id k Hk), index_nat in H.
  destruct (nth_error l (Z.to_nat k)); [now injection H as -> | discriminate].
Qed.

(* ================================================================= *)
(** ** Runs without a crossover *)

Lemma for_each_fixed {A S : Type} (body : S -> A -> res S) (l : list A) (s : S) :
  (forall x : A, In x l -> body s x = Ok s) -> for_each body l s = Ok s.
Proof.
  induction l as [|x l IH]; intros H; simpl; [reflexivity|].
  rewrite (H x (or_introl eq_refl)). cbn [bind].
  apply IH. intros y Hy. apply H. now right.
Qed.

(** When the two averages agree at every index, no iteration leaves
    the flat state. *)
Lemma no_cross_no_entry (cfg : config) (candles : list Candle)
  (ib risk_per_trade stop_loss_pct : Q) (ema_fast ema_slow rsi_list : list Q) :
  indicators cfg candles = Ok (ema_fast, ema_slow, rsi_list) ->
  (forall (j : nat) (x y : Q),
      nth_error ema_fast j = Some x -> nth_error ema_slow j = Some y -> x == y) ->
  run_backtest cfg candles ib risk_per_trade stop_loss_pct
  = Ok {| initial_balance := ib; final_balance := ib; trades := [];
          equity_curve := None |}.
Proof.
  intros Hind Hsame.
  rewrite run_backtest_eq. unfold run_prefix. rewrite Hind, firstn_all.
  cbn [bind]. rewrite for_each_fixed; [reflexivity|].
  intros i Hi. apply In_nth_error in Hi. destruct Hi as (k & Hk).
  pose proof (scan_range_bounds _ _ _ Hk) as Hb.
  destruct (scanned_candle _ _ _ Hk) as (_ & c0 & Hc0).
  assert (Hprice : index (map close candles) i = Ok (close c0))
    by (apply index_map; [lia | exact Hc0]).
  unfold body_of.
  destruct (skipped ema_fast ema_slow rsi_list i) eqn:Hskip.
  { now apply (loop_body_skipped _ _ _ _ _ _ _ _ _ _ _ _ (close c0)). }
  destruct (scan_lookups _ _ _ _ _ k i Hind Hk Hskip)
    as (c & f_now & f_prev & s_now & s_prev & rv & vok
        & Hc & Hfn & Hfp & Hsn & Hsp & Hv & Hrv).
  rewrite (loop_body_flat cfg risk_per_trade stop_loss_pct _ _ _ _ _ _ _
             (initial_state ib) i (close c0) f_now f_prev s_now s_prev rv vok);
    try assumption; try reflexivity.
  apply index_inv_nth in Hfn; [|lia]. apply index_inv_nth in Hsn; [|lia].
  assert (Heq : f_now == s_now) by exact (Hsame _ _ _ Hfn Hsn).
  assert (Hlt : ltb s_now f_now = false).
  { destruct (ltb s_now f_now) eqn:E; [|reflexivity].
    apply ltb_spec in E. lra. }
  now rewrite Hlt, andb_false_r.
Qed.

Lemma indicators_inv (cfg : config) (candles : list Candle)
  (ema_fast ema_slow rsi_list : list Q) :
  indicators cfg candles = Ok (ema_fast, ema_slow, rsi_list) ->
  ema (map close candles) (EMA_FAST cfg) = Ok ema_fast /\
  ema (map close candles) (EMA_SLOW cfg) = Ok ema_slow /\
  rsi (map close candles) (RSI_PERIOD cfg) = Ok rsi_list.
Proof.
  unfold indicators. intros H.
  apply bind_Ok in H. destruct H as (ef & Hef & H).
  apply bind_Ok in H. destruct H as (es & Hes & H).
  apply bind_Ok in H. destruct H as (rl & Hrl & H).
  apply bind_Ok in H. destruct H as (al & _ & H).
  injection H as <- <- <-. now repeat split.
Qed.

Lemma run_backtest_indicators (cfg : config) (candles : list Candle)
  (ib risk_per_trade stop_loss_pct : Q) (res : Result) :
  run_backtest cfg candles ib risk_per_trade stop_loss_pct = Ok res ->
  exists ema_fast ema_slow rsi_list : list Q,
    indicators cfg candles = Ok (ema_fast, ema_slow, rsi_list).
Proof.
  rewrite run_backtest_eq. unfold run_prefix. intros H.
  apply bind_Ok in H. destruct H as (st & H & _).
  apply bind_Ok in H. destruct H as ([[ef es] rl] & H & _).
  now exists ef, es, rl.
Qed.

(** X18: when EMA_FAST and EMA_SLOW are the same span the two averages
    coincide and never cross: a run that returns has recorded no trade
    and kept the initial balance, and the run does return when the span
    is not [-1], its successor converts to a float and RSI_PERIOD is at
    least 1. *)
Theorem equal_spans_never_trade (cfg : config) (candles : list Candle)
  (ib risk_per_trade stop_loss_pct : Q) :
  EMA_FAST cfg = EMA_SLOW cfg ->
  (forall res : Result,
      run_backtest cfg candles ib risk_per_trade stop_loss_pct = Ok res ->
      res = {| initial_balance := ib; final_balance := ib; trades := [];
               equity_curve := None |}) /\
  (EMA_FAST cfg <> (-1)%Z -> fits_float (EMA_FAST cfg + 1) ->
   (1 <= RSI_PERIOD cfg)%Z ->
   run_backtest cfg candles ib risk_per_trade stop_loss_pct
   = Ok {| initial_balance := ib; final_balance := ib; trades := [];
           equity_curve := None |}).
Proof.
  intros Hspan.
  assert (Hflat : forall ef es rl,
             indicators cfg candles = Ok (ef, es, rl) ->
             run_backtest cfg candles ib risk_per_trade stop_loss_pct
             = Ok {| initial_balance := ib; final_balance := ib; trades := [];
                     equity_curve := None |}).
  { intros ef es rl Hind. apply (no_cross_no_entry _ _ _ _ _ ef es rl Hind).
    destruct (indicators_inv _ _ _ _ _ Hind) as (Hef & Hes & _).
    rewrite Hspan in Hef. assert (ef = es) by congruence. subst es.
    intros j x y Hx Hy. assert (x = y) by congruence. subst. reflexivity. }
  split.
  - intros res Hres.
    destruct (run_backtest_indicators _ _ _ _ _ _ Hres) as (ef & es & rl & Hind).
    rewrite (Hflat ef es rl Hind) in Hres. now injection Hres as <-.
  - intros Hf Hff Hp.
    destruct (indicators_defined cfg candles Hf Hff
                ltac:(congruence) ltac:(now rewrite <- Hspan) Hp)
      as ([[ef es] rl] & Hind).
    exact (Hflat ef es rl Hind).
Qed.

Lemma equal_spans_never_trade_witness :
  run_backtest equal_span_config example_candles 10 0.02 0.01
  = Ok {| initial_balance := 10; final_balance := 10; trades := [];
          equity_curve := None |}.
Proof.
  apply (proj2 (equal_spans_never_trade equal_span_config example_candles
                  10 0.02 0.01 eq_refl));
    try (simpl; lia); vm_compute; reflexivity.
Defined.

Lemma ema_from_const (alpha c : Q) (vs : list Q) :
  Forall (fun v => v == c) vs ->
  forall prev : Q, prev == c ->
    Forall (fun x => x == c) (ema_from alpha prev vs).
Proof.
  induction 1 as [|v vs Hv _ IH]; intros prev Hp; [constructor|].
  simpl. assert (Ho : (v - prev) * alpha + prev == c) by (rewrite Hv, Hp; ring).
  constructor; [exact Ho | now apply IH].
Qed.

Lemma ema_const (values out : list Q) (span : Z) (c : Q) :
  Forall (fun v => v == c) values ->
  ema values span = Ok out ->
  Forall (fun x => x == c) out.
Proof.
  intros Hv. destruct values as [|v0 rest]; simpl.
  - intros [= <-]. constructor.
  - destruct (float_of_int (span + 1)) as [d|]; [|discriminate].
    cbn [bind].
    destruct (div 2.0 d) as [alpha|]; [|discriminate].
    cbn [bind]. change [v0] with ([] ++ [v0]). rewrite ema_loop_from.
    intros [= <-]. inversion Hv; subst. simpl.
    constructor; [assumption | now apply ema_from_const].
Qed.

(** X19: on a flat market (every close equal to one price) both
    averages stay at that price and never cross: a run that returns has
    recorded no trade and kept the initial balance, and the run does
    return when neither span is [-1], the successor of each span
    converts to a float and RSI_PERIOD is at least 1. *)
Theorem flat_market_never_trades (cfg : config) (candles : list Candle)
  (ib risk_per_trade stop_loss_pct price : Q) :
  (forall c : Candle, In c candles -> close c == price) ->
  (forall res : Result,
      run_backtest cfg candles ib risk_per_trade stop_loss_pct = Ok res ->
      res = {| initial_balance := ib; final_balance := ib; trades := [];
               equity_curve := None |}) /\
  (EMA_FAST cfg <> (-1)%Z -> fits_float (EMA_FAST cfg + 1) ->
   EMA_SLOW cfg <> (-1)%Z -> fits_float (EMA_SLOW cfg + 1) ->
   (1 <= RSI_PERIOD cfg)%Z ->
   run_backtest cfg candles ib risk_per_trade stop_loss_pct
   = Ok {| initial_balance := ib; final_balance := ib; trades := [];
           equity_curve := None |}).
Proof.
  intros Hflat.
  assert (Hcloses : Forall (fun v => v == price) (map close candles)).
  { apply Forall_map, Forall_forall. exact Hflat. }
  assert (Hrun : forall ef es rl,
             indicators cfg candles = Ok (ef, es, rl) ->
             run_backtest cfg candles ib risk_per_trade stop_loss_pct
             = Ok {| initial_balance := ib; final_balance := ib; trades := [];
                     equity_curve := None |}).
  { intros ef es rl Hind. apply (no_cross_no_entry _ _ _ _ _ ef es rl Hind).
    destruct (indicators_inv _ _ _ _ _ Hind) as (Hef & Hes & _).
    pose proof (ema_const _ _ _ _ Hcloses Hef) as Hf.
    pose proof (ema_const _ _ _ _ Hcloses Hes) as Hs.
    intros j x y Hx Hy.
    apply nth_error_In in Hx, Hy.
    rewrite (proj1 (Forall_forall _ _) Hf x Hx).
    now rewrite (proj1 (Forall_forall _ _) Hs y Hy). }
  split.
  - intros res Hres.
    destruct (run_backtest_indicators _ _ _ _ _ _ Hres) as (ef & es & rl & Hind).
    rewrite (Hrun ef es rl Hind) in Hres. now injection Hres as <-.
  - intros Hf Hff Hs Hsf Hp.
    destruct (indicators_defined cfg candles Hf Hff Hs Hsf Hp)
      as ([[ef es] rl] & Hind).
    exact (Hrun ef es rl Hind).
Qed.

Lemma flat_market_never_trades_witness :
  run_backtest default_config flat_candles 10 0.02 0.01
  = Ok {| initial_balance := 10; final_balance := 10; trades := [];
          equity_curve := None |}.
Proof.
  apply (proj2 (flat_market_never_trades default_config flat_candles
                  10 0.02 0.01 10
                  ltac:(intros c Hc; unfold flat_candles in Hc;
                        apply in_map_iff in Hc;
                        destruct Hc as (n & <- & _); reflexivity)));
    try (simpl; lia); vm_compute; reflexivity.
Defined.

(* ================================================================= *)
(** ** Entries *)

(** X20: a run leaves the flat state only on a bar where the fast
    average crossed above the slow one, the volume filter passed and
    the RSI of the evaluated bar lies strictly between 25 and 75; the
    position is entered at the close and the time of that bar, and the
    equity is not touched. *)
Theorem entry_conditions (cfg : config) (candles : list Candle)
  (ib risk_per_trade stop_loss_pct : Q) (k : nat) (st st' : state)
  (p : Position) :
  run_prefix cfg candles ib risk_per_trade stop_loss_pct k = Ok st ->
  position st = None ->
  run_prefix cfg candles ib risk_per_trade stop_loss_pct (S k) = Ok st' ->
  position st' = Some p ->
  exists (i : Z) (c : Candle) (ema_fast ema_slow rsi_list : list Q) (rv : Q),
    nth_error (scan_range candles) k = Some i /\
    nth_error candles (Z.to_nat i) = Some c /\
    indicators cfg candles = Ok (ema_fast, ema_slow, rsi_list) /\
    crossed_up ema_fast ema_slow i /\
    vol_ok cfg (map volume candles) i = Ok true /\
    index rsi_list (i - 1) = Ok rv /\ 25 < rv /\ rv < 75 /\
    entry p = close c /\ entry_time p = time c /\
    equity st' = equity st /\ trades_bt st' = trades_bt st.
Proof.
  intros Hst Hflat Hst' Hp.
  destruct (run_prefix_S _ _ _ _ _ k st st' Hst Hst')
    as [[_ ->]|([[ef es] rl] & i & Hind & Hi & Hbody)]; [congruence|].
  pose proof (scan_range_bounds _ _ _ Hi) as Hb.
  destruct (scanned_candle _ _ _ Hi) as (_ & c0 & Hc0).
  assert (Hprice : index (map close candles) i = Ok (close c0))
    by (apply index_map; [lia | exact Hc0]).
  assert (Htime : index (map time candles) i = Ok (time c0))
    by (apply index_map; [lia | exact Hc0]).
  unfold body_of in Hbody.
  destruct (skipped ef es rl i) eqn:Hskip.
  { rewrite (loop_body_skipped _ _ _ _ _ _ _ _ _ _ _ _ (close c0)) in Hbody
      by assumption.
    injection Hbody as <-. congruence. }
  destruct (scan_lookups _ _ _ _ _ k i Hind Hi Hskip)
    as (c & f_now & f_prev & s_now & s_prev & rv & vok
        & Hc & Hfn & Hfp & Hsn & Hsp & Hv & Hrv).
  assert (c = c0) by congruence. subst c0.
  rewrite (loop_body_flat cfg risk_per_trade stop_loss_pct _ _ _ _ _ _ _
             st i (close c) f_now f_prev s_now s_prev rv vok) in Hbody
    by assumption.
  destruct (leb f_prev s_prev && ltb s_now f_now && vok
            && (ltb 25 rv && ltb rv 75)) eqn:Henter;
    [|injection Hbody as <-; congruence].
  apply andb_true_iff in Henter. destruct Henter as [Henter Hrsi].
  apply andb_true_iff in Henter. destruct Henter as [Hcross Hvok].
  apply andb_true_iff in Hcross. destruct Hcross as [Hc1 Hc2].
  apply andb_true_iff in Hrsi. destruct Hrsi as [Hr1 Hr2].
  subst vok.
  unfold open_position in Hbody.
  apply bind_Ok in Hbody. destruct Hbody as (q & _ & Hbody).
  rewrite Htime in Hbody. cbn [bind] in Hbody. injection Hbody as <-.
  simpl in Hp. injection Hp as <-. simpl.
  exists i, c, ef, es, rl, rv.
  repeat split; try assumption; try reflexivity.
  - exists f_now, f_prev, s_now, s_prev.
    repeat split; try assumption; [now apply leb_spec | now apply ltb_spec].
  - now apply ltb_spec.
  - now apply ltb_spec.
Qed.

Lemma entry_conditions_witness :
  exists (st st' : state) (p : Position),
    run_prefix example_config example_candles 10 0.02 0.01 0 = Ok st /\
    position st = None /\
    run_prefix example_config example_candles 10 0.02 0.01 1 = Ok st' /\
    position st' = Some p /\
    exists (i : Z) (c : Candle) (ema_fast ema_slow rsi_list : list Q) (rv : Q),
      nth_error (scan_range example_candles) 0 = Some i /\
      nth_error example_candles (Z.to_nat i) = Some c /\
      indicators example_config example_candles
      = Ok (ema_fast, ema_slow, rsi_list) /\
      crossed_up ema_fast ema_slow i /\
      vol_ok example_config (map volume example_candles) i = Ok true /\
      index rsi_list (i - 1) = Ok rv /\ 25 < rv /\ rv < 75 /\
      entry p = close c /\ entry_time p = time c /\
      equity st' = equity st /\ trades_bt st' = trades_bt st.
Proof.
  do 3 eexists.
  split; [vm_compute; reflexivity|].
  split; [reflexivity|].
  split; [vm_compute; reflexivity|].
  split; [vm_compute; reflexivity|].
  eapply (entry_conditions example_config example_candles 10 0.02 0.01 0);
    vm_compute; reflexivity.
Defined.

(* ================================================================= *)
(** ** No lookahead *)

Lemma deltas_app (l1 l2 : list Q) :
  l1 <> [] -> exists dl : list Q, deltas (l1 ++ l2) = deltas l1 ++ dl.
Proof.
  induction l1 as [|a [|b r] IH]; intros Hne; [contradiction| |].
  - exists (deltas (a :: l2)). reflexivity.
  - destruct (IH ltac:(discriminate)) as (dl & Hdl).
    exists dl. change (deltas ((a :: b :: r) ++ l2))
      with ((b - a) :: deltas ((b :: r) ++ l2)).
    now rewrite Hdl.
Qed.

Lemma combine_app_eq {A B : Type} (l1 l2 : list A) (m1 m2 : list B) :
  length l1 = length m1 ->
  combine (l1 ++ l2) (m1 ++ m2) = combine l1 m1 ++ combine l2 m2.
Proof.
  revert m1; induction l1 as [|x l1 IH]; intros [|y m1] H; simpl in *;
    try discriminate; [reflexivity|].
  f_equal. apply IH. lia.
Qed.

Lemma repeat_split {A : Type} (x : A) (n m : nat) :
  (n <= m)%nat -> repeat x m = repeat x n ++ repeat x (m - n).
Proof.
  intros H. rewrite <- repeat_app. f_equal. lia.
Qed.

(** [rsi] does not look ahead: its values on a prefix of the input are
    a prefix of its values on the whole input. *)
Lemma rsi_prefix (l1 l2 out : list Q) (period : Z) :
  (1 <= period)%Z ->
  rsi (l1 ++ l2) period = Ok out ->
  exists out1 ext : list Q, rsi l1 period = Ok out1 /\ out = out1 ++ ext.
Proof.
  intros Hp Hrun.
  destruct (Z.lt_ge_cases (len l1) (period + 1)) as [Hs1|Hl1].
  - (* the prefix is within the warm-up *)
    exists (repeat 50 (length l1)).
    assert (H1 : rsi l1 period = Ok (repeat 50 (length l1))).
    { unfold rsi. destruct (Z.ltb_spec (len l1) (period + 1)); [|lia].
      now rewrite replicate_len. }
    destruct (Z.lt_ge_cases (len (l1 ++ l2)) (period + 1)) as [Hs|Hl].
    + unfold rsi in Hrun.
      destruct (Z.ltb_spec (len (l1 ++ l2)) (period + 1)); [|lia].
      injection Hrun as <-. rewrite replicate_len, length_app, repeat_app.
      now eexists.
    + destruct (rsi_long_shape (l1 ++ l2) period Hp Hl) as (ext & Hshape & _).
      rewrite Hshape in Hrun. injection Hrun as <-.
      unfold replicate.
      rewrite (repeat_split 50 (length l1) (Z.to_nat (period + 1)))
        by (unfold len in Hs1; lia).
      rewrite <- app_assoc. now eexists.
  - (* the prefix is past the warm-up *)
    assert (Hne : l1 <> []) by (intros ->; unfold len in Hl1; simpl in Hl1; lia).
    destruct (deltas_app l1 l2 Hne) as (dl & Hdl).
    destruct (rsi_total l1 period Hp) as (out1 & Hrun1 & _).
    exists out1. pose proof Hrun1 as Hrsi1.
    unfold rsi in Hrun, Hrun1.
    assert (Hl12 : (period + 1 <= len (l1 ++ l2))%Z)
      by (rewrite len_app; pose proof (len_nonneg l2); lia).
    destruct (Z.ltb_spec (len (l1 ++ l2)) (period + 1)); [lia|].
    destruct (Z.ltb_spec (len l1) (period + 1)); [lia|].
    rewrite Hdl, !map_app in Hrun.
    set (ups1 := map (fun d => if ltb 0 d then d else 0) (deltas l1)) in *.
    set (downs1 := map (fun d => if ltb d 0 then - d else 0) (deltas l1)) in *.
    set (ups2 := map (fun d => if ltb 0 d then d else 0) dl) in *.
    set (downs2 := map (fun d => if ltb d 0 then - d else 0) dl) in *.
    assert (Hlu : length ups1 = (length l1 - 1)%nat)
      by (unfold ups1; now rewrite length_map, deltas_length).
    assert (Hld : length downs1 = (length l1 - 1)%nat)
      by (unfold downs1; now rewrite length_map, deltas_length).
    assert (Hb : forall (A : Type) (x y : list A),
               length x = (length l1 - 1)%nat ->
               slice_to (x ++ y) period = slice_to x period /\
               slice_from (x ++ y) period = slice_from x period ++ y).
    { intros A x y Hx. unfold slice_to, slice_from, bound.
      destruct (Z.ltb_spec period 0); [lia|].
      unfold len in Hl1.
      rewrite firstn_app, skipn_app.
      replace (Z.to_nat period - length x)%nat with 0%nat by lia.
      simpl. now rewrite app_nil_r. }
    destruct (Hb _ ups1 ups2 Hlu) as [Hu1 Hu2].
    destruct (Hb _ downs1 downs2 Hld) as [Hd1 Hd2].
    rewrite Hu1, Hu2, Hd1, Hd2 in Hrun.
    apply bind_Ok in Hrun1. destruct Hrun1 as (u & Hu & Hrun1).
    rewrite Hu in Hrun. cbn [bind] in Hrun.
    apply bind_Ok in Hrun1. destruct Hrun1 as (d0 & Hd0 & Hrun1).
    rewrite Hd0 in Hrun. cbn [bind] in Hrun, Hrun1.
    apply bind_Ok in Hrun1. destruct Hrun1 as (st1 & Hloop1 & Hrun1).
    rewrite combine_app_eq, for_each_app, Hloop1 in Hrun.
    + cbn [bind] in Hrun.
      apply bind_Ok in Hrun. destruct Hrun as (st2 & Hloop2 & Hrun).
      destruct (rsi_loop_appends _ _ _ _ Hloop2) as (ext & Hext & _).
      destruct st1 as [[u1 d1] o1], st2 as [[u2 d2] o2].
      simpl in Hext, Hrun, Hrun1.
      injection Hrun as <-. injection Hrun1 as ->.
      exists ext. split; [exact Hrsi1 | exact Hext].
    + unfold slice_from. now rewrite !length_skipn, Hlu, Hld.
Qed.

(** X23: for a period of at least 1, [rsi] does not look ahead: its
    values on the first [n] inputs are the first [n] of its values on
    the whole input. *)
Theorem rsi_causal (values out : list Q) (period : Z) (n : nat) :
  (1 <= period)%Z ->
  rsi values period = Ok out ->
  rsi (firstn n values) period = Ok (firstn n out).
Proof.
  intros Hp H. rewrite <- (firstn_skipn n values) in H.
  destruct (rsi_prefix _ _ _ _ Hp H) as (out1 & ext & H1 & ->).
  rewrite H1. f_equal.
  destruct (rsi_total (firstn n values) period Hp) as (o & Ho & Hlen & _).
  assert (o = out1) by congruence. subst o.
  destruct (rsi_total (firstn n values ++ skipn n values) period Hp)
    as (o' & Ho' & Hlen' & _).
  assert (o' = out1 ++ ext) by congruence. subst o'.
  rewrite !length_app, Hlen in Hlen'.
  destruct (Nat.le_gt_cases n (length values)) as [Hn|Hn].
  - rewrite length_firstn, Nat.min_l in Hlen by lia.
    rewrite <- Hlen at 1. now rewrite firstn_app, Nat.sub_diag, firstn_all, app_nil_r.
  - rewrite length_skipn in Hlen'.
    assert (ext = []) by (destruct ext; [reflexivity | simpl in Hlen'; lia]).
    subst ext. rewrite app_nil_r, firstn_all2; [reflexivity|].
    rewrite Hlen, length_firstn. lia.
Qed.

Lemma rsi_causal_witness :
  exists out : list Q,
    rsi [1; 2; 4; 3; 5] 2 = Ok out /\
    rsi (firstn 4 [1; 2; 4; 3; 5]) 2 = Ok (firstn 4 out).
Proof.
  eexists. split; [vm_compute; reflexivity|].
  apply (rsi_causal [1; 2; 4; 3; 5] _ 2 4); [lia | vm_compute; reflexivity].
Defined.

Lemma slice_app_l {A : Type} (l1 l2 : list A) (a b : Z) :
  (0 <= a)%Z -> (0 <= b <= len l1)%Z ->
  slice (l1 ++ l2) a b = slice l1 a b.
Proof.
  intros Ha Hb. unfold slice, bound, len in *.
  destruct (Z.ltb_spec a 0); [lia|]. destruct (Z.ltb_spec b 0); [lia|].
  rewrite skipn_app, firstn_app, length_skipn.
  replace (Z.to_nat b - Z.to_nat a - (length l1 - Z.to_nat a))%nat
    with 0%nat by lia.
  simpl. now rewrite app_nil_r.
Qed.

Lemma firstn_app_le {A : Type} (l1 l2 : list A) (k : nat) :
  (k <= length l1)%nat -> firstn k (l1 ++ l2) = firstn k l1.
Proof.
  intros H. rewrite firstn_app.
  replace (k - length l1)%nat with 0%nat by lia.
  simpl. now rewrite app_nil_r.
Qed.

Lemma In_firstn_In {A : Type} (l : list A) (k : nat) (x : A) :
  In x (firstn k l) -> In x l.
Proof.
  intros H. rewrite <- (firstn_skipn k l). apply in_or_app. now left.
Qed.

Section Extension.

Variable cfg : config.
Variables risk_per_trade stop_loss_pct : Q.
Variables closes lows volumes : list Q.
Variable times : list Z.
Variables ema_fast ema_slow rsi_list : list Q.
Variables closes' lows' volumes' : list Q.
Variable times' : list Z.
Variables ema_fast' ema_slow' rsi_list' : list Q.

(** An iteration whose subscripts lie within the lists does not see
    what is appended to them. *)
Lemma loop_body_app (st : state) (i : Z) :
  (2 <= i)%Z ->
  (i < len closes)%Z -> (i < len lows)%Z -> (i <= len volumes)%Z ->
  (i < len times)%Z ->
  (i < len ema_fast)%Z -> (i < len ema_slow)%Z -> (i <= len rsi_list)%Z ->
  loop_body cfg risk_per_trade stop_loss_pct
    (closes ++ closes') (lows ++ lows') (volumes ++ volumes') (times ++ times')
    (ema_fast ++ ema_fast') (ema_slow ++ ema_slow') (rsi_list ++ rsi_list') st i
  = loop_body cfg risk_per_trade stop_loss_pct closes lows volumes times
      ema_fast ema_slow rsi_list st i.
Proof.
  intros Hi Hc Hl Hv Ht Hf Hs Hr.
  assert (Hskip : skipped (ema_fast ++ ema_fast') (ema_slow ++ ema_slow')
                    (rsi_list ++ rsi_list') i
                  = skipped ema_fast ema_slow rsi_list i).
  { unfold skipped. rewrite !len_app.
    pose proof (len_nonneg ema_fast'). pose proof (len_nonneg ema_slow').
    pose proof (len_nonneg rsi_list').
    repeat match goal with
           | |- context [(?a <=? ?b)%Z] => destruct (Z.leb_spec a b); try lia
           end;
      try reflexivity. }
  assert (Hvol : vol_ok cfg (volumes ++ volumes') i = vol_ok cfg volumes i).
  { unfold vol_ok. destruct (21 <? i)%Z eqn:E; [|reflexivity].
    apply Z.ltb_lt in E.
    now rewrite slice_app_l, index_app_l by lia. }
  assert (Hopen : forall price,
             open_position risk_per_trade stop_loss_pct (times ++ times') st price i
             = open_position risk_per_trade stop_loss_pct times st price i).
  { intros price. unfold open_position.
    destruct (if leb stop_loss_pct 0 then div (equity st) price
              else div (equity st * risk_per_trade) (price * stop_loss_pct));
      [|reflexivity].
    cbn [bind]. now rewrite index_app_l by lia. }
  assert (Hclose : forall p ex why,
             close_position (times ++ times') st p ex why i
             = close_position times st p ex why i).
  { intros p ex why. unfold close_position. now rewrite index_app_l by lia. }
  unfold loop_body.
  rewrite (index_app_l closes closes' i) by lia.
  destruct (index closes i) as [price|]; [|reflexivity]. cbn [bind].
  rewrite Hskip. destruct (skipped ema_fast ema_slow rsi_list i); [reflexivity|].
  rewrite (index_app_l ema_fast ema_fast' (i - 1)) by lia.
  destruct (index ema_fast (i - 1)) as [f_now|]; [|reflexivity]. cbn [bind].
  rewrite (index_app_l ema_fast ema_fast' (i - 2)) by lia.
  destruct (index ema_fast (i - 2)) as [f_prev|]; [|reflexivity]. cbn [bind].
  rewrite (index_app_l ema_slow ema_slow' (i - 1)) by lia.
  destruct (index ema_slow (i - 1)) as [s_now|]; [|reflexivity]. cbn [bind].
  rewrite (index_app_l ema_slow ema_slow' (i - 2)) by lia.
  destruct (index ema_slow (i - 2)) as [s_prev|]; [|reflexivity]. cbn [bind].
  rewrite Hvol.
  destruct (vol_ok cfg volumes i) as [vok|]; [|reflexivity]. cbn [bind].
  rewrite (index_app_l rsi_list rsi_list' (i - 1)) by lia.
  destruct (index rsi_list (i - 1)) as [rv|]; [|reflexivity]. cbn [bind].
  destruct (position st) as [p|].
  - rewrite (index_app_l lows lows' i) by lia.
    destruct (index lows i) as [l|]; [|reflexivity]. cbn [bind].
    now rewrite !Hclose.
  - now rewrite Hopen.
Qed.

End Extension.

(** Appended candles are invisible to the iterations of the shorter
    run. *)
Lemma run_prefix_app (cfg : config) (candles more : list Candle)
  (ib risk_per_trade stop_loss_pct : Q) (k : nat)
  (ind1 ind : list Q * list Q * list Q) :
  indicators cfg candles = Ok ind1 ->
  indicators cfg (candles ++ more) = Ok ind ->
  (1 <= RSI_PERIOD cfg)%Z ->
  (k <= length (scan_range candles))%nat ->
  run_prefix cfg (candles ++ more) ib risk_per_trade stop_loss_pct k
  = run_prefix cfg candles ib risk_per_trade stop_loss_pct k.
Proof.
  destruct ind1 as [[ef1 es1] rl1], ind as [[ef es] rl].
  intros Hind1 Hind Hp Hk.
  unfold run_prefix. rewrite Hind, Hind1. cbn [bind].
  assert (Hrange : firstn k (scan_range (candles ++ more))
                   = firstn k (scan_range candles)).
  { rewrite scan_range_length in Hk.
    destruct k as [|k]; [reflexivity|].
    unfold scan_range, len. rewrite !length_map, length_app.
    rewrite (range_split 2 (Z.of_nat (length candles) - 1)
               (Z.of_nat (length candles + length more) - 1)) by lia.
    apply firstn_app_le. rewrite range_length. lia. }
  rewrite Hrange. apply for_each_ext_in. intros st i Hi.
  apply In_firstn_In, In_nth_error in Hi. destruct Hi as (j & Hj).
  pose proof (scan_range_bounds _ _ _ Hj) as Hb.
  destruct (indicators_lengths _ _ _ _ _ Hind1) as (Hlf & Hls & Hlr).
  specialize (Hlr Hp).
  destruct (indicators_inv _ _ _ _ _ Hind) as (Hef & Hes & Hrl).
  destruct (indicators_inv _ _ _ _ _ Hind1) as (Hef1 & Hes1 & Hrl1).
  rewrite map_app in Hef, Hes, Hrl.
  apply ema_prefix in Hef, Hes. rewrite length_map in Hef, Hes.
  destruct (rsi_prefix _ _ _ _ Hp Hrl) as (o1 & xr & Ho1 & Hrl').
  assert (ef1 = firstn (length candles) ef) by congruence.
  assert (es1 = firstn (length candles) es) by congruence.
  assert (o1 = rl1) by congruence. subst o1.
  unfold body_of. rewrite !map_app.
  rewrite <- (firstn_skipn (length candles) ef), <- (firstn_skipn (length candles) es).
  rewrite Hrl'. subst ef1 es1.
  apply loop_body_app; unfold len in *; rewrite ?length_map; try lia.
Qed.

(** X24: the engine does not look ahead.  Under a configuration whose
    indicators are defined (no span of [-1], the successor of each span
    converts to a float, RSI_PERIOD at least 1), appending candles does
    not change what the first [k] iterations do, as long as they are
    iterations of the shorter run. *)
Theorem backtest_causal (cfg : config) (candles more : list Candle)
  (ib risk_per_trade stop_loss_pct : Q) (k : nat) :
  EMA_FAST cfg <> (-1)%Z -> fits_float (EMA_FAST cfg + 1) ->
  EMA_SLOW cfg <> (-1)%Z -> fits_float (EMA_SLOW cfg + 1) ->
  (1 <= RSI_PERIOD cfg)%Z ->
  (k <= length (scan_range candles))%nat ->
  run_prefix cfg (candles ++ more) ib risk_per_trade stop_loss_pct k
  = run_prefix cfg candles ib risk_per_trade stop_loss_pct k.
Proof.
  intros Hf Hff Hs Hsf Hp Hk.
  destruct (indicators_defined cfg candles Hf Hff Hs Hsf Hp) as (ind1 & Hind1).
  destruct (indicators_defined cfg (candles ++ more) Hf Hff Hs Hsf Hp)
    as (ind & Hind).
  exact (run_prefix_app cfg candles more ib risk_per_trade stop_loss_pct k
           ind1 ind Hind1 Hind Hp Hk).
Qed.

Lemma backtest_causal_witness :
  run_prefix example_config (example_candles ++ [bar 6 30 30]) 10 0.02 0.01 3
  = run_prefix example_config example_candles 10 0.02 0.01 3.
Proof.
  apply (backtest_causal example_config example_candles [bar 6 30 30]
           10 0.02 0.01 3); try (simpl; lia); vm_compute; reflexivity.
Defined.

(** X25: later candles only add trades: under such a configuration,
    the ledger of a run is a prefix of the ledger of the run on the
    same candles followed by more. *)
Theorem later_candles_only_append (cfg : config) (candles more : list Candle)
  (ib risk_per_trade stop_loss_pct : Q) (res res' : Result) :
  EMA_FAST cfg <> (-1)%Z -> EMA_SLOW cfg <> (-1)%Z ->
  (1 <= RSI_PERIOD cfg)%Z ->
  run_backtest cfg candles ib risk_per_trade stop_loss_pct = Ok res ->
  run_backtest cfg (candles ++ more) ib risk_per_trade stop_loss_pct = Ok res' ->
  exists ext : list Trade, trades res' = trades res ++ ext.
Proof.
  intros Hf Hs Hp Hres Hres'.
  destruct (run_backtest_indicators _ _ _ _ _ _ Hres) as (ef1 & es1 & rl1 & Hind1).
  destruct (run_backtest_indicators _ _ _ _ _ _ Hres') as (ef & es & rl & Hind).
  rewrite run_backtest_eq in Hres, Hres'.
  apply bind_Ok in Hres. destruct Hres as (st & Hst & [= <-]).
  apply bind_Ok in Hres'. destruct Hres' as (st' & Hst' & [= <-]). simpl.
  rewrite <- (run_prefix_app cfg candles more ib risk_per_trade stop_loss_pct
                (length (scan_range candles)) _ _ Hind1 Hind Hp (Nat.le_refl _))
    in Hst.
  assert (Hle : (length (scan_range candles)
                 <= length (scan_range (candles ++ more)))%nat)
    by (rewrite !scan_range_length, length_app; lia).
  replace (length (scan_range (candles ++ more)))
    with (length (scan_range candles)
          + (length (scan_range (candles ++ more)) - length (scan_range candles)))%nat
    in Hst' by lia.
  exact (ledger_grows _ _ _ _ _ _ _ st st' Hst Hst').
Qed.

Lemma later_candles_only_append_witness :
  exists (res res' : Result),
    run_backtest example_config example_candles 10 0.02 0.01 = Ok res /\
    run_backtest example_config (example_candles ++ [bar 6 30 30]) 10 0.02 0.01
    = Ok res' /\
    exists ext : list Trade, trades res' = trades res ++ ext.
Proof.
  do 2 eexists.
  split; [vm_compute; reflexivity|].
  split; [vm_compute; reflexivity|].
  apply (later_candles_only_append example_config example_candles [bar 6 30 30]
           10 0.02 0.01);
    try (simpl; lia); vm_compute; reflexivity.
Defined.
